(** * Quran translation dataset pipeline: ingestion and redistribution

    A shallow embedding of [translations_quranenc.com.js] (stage 1, the
    ingestion pipeline) and [split_translations.js] (stage 2, the
    redistribution pipeline), with the properties of the specification
    stated and settled against it.

    Conventions of the embedding:
    - a JavaScript value is a [jsval]; an object is its list of own
      properties in insertion order, and a property that is absent reads
      as [JUndefined];
    - a JavaScript string is a [string]; the model speaks of text whose
      characters are single bytes, where the UTF-8 file bytes and the
      decoded characters coincide (the module [Utf8] shows what decoding
      does to longer characters);
    - numbers are the integers ([Z]); the data carries surah and ayah
      numbers, counts and timestamps only;
    - the file system is a finite map from paths to contents together
      with the set of existing directories; the remote API is an oracle
      from endpoints to responses; every function that performs I/O is a
      computation over this world that may throw, and the order of its
      effects is kept in a trace;
    - stage 1 works on untyped values throughout, as the script does;
      stage 2 reads the documents of the consolidated file through a
      record type, the parsed objects of the reader being values;
    - the embedding prints every value and lets every write succeed; the
      values and the worlds on which the scripts do the same are
      delimited at the end of the module [Spec] ([printable],
      [directoryName], [writable] and the like), and the theorems about
      printed text and written files are stated for them. *)

From Stdlib Require Import ZArith Ascii String List Lia DecimalString.
From Stdlib Require DecimalPos DecimalFacts.
From stdpp Require Import base option list strings gmap.

Local Open Scope Z_scope.

(** ** Characters and strings *)

Module Str.

Definition nl : ascii := "010"%char.
Definition comma : ascii := ","%char.
Definition quote : ascii := "034"%char.
Definition backslash : ascii := "092"%char.
Definition space : ascii := " "%char.
Definition underscore : ascii := "_"%char.

Definition NL : string := String nl EmptyString.

(** [s.includes(c)] for a one-character needle. *)
Fixpoint includes (c : ascii) (s : string) : bool :=
  match s with
  | EmptyString => false
  | String d r => if Ascii.eqb d c then true else includes c r
  end.

(** [s.replace(/c/g, t)]: every occurrence of character [c] becomes [t]. *)
Fixpoint replaceAll (c : ascii) (t : string) (s : string) : string :=
  match s with
  | EmptyString => EmptyString
  | String d r =>
      if Ascii.eqb d c then t +:+ replaceAll c t r
      else String d (replaceAll c t r)
  end.

(** [parts.join(sep)]. *)
Fixpoint join (sep : string) (parts : list string) : string :=
  match parts with
  | [] => EmptyString
  | [p] => p
  | p :: rest => p +:+ sep +:+ join sep rest
  end.

(** The texts one after the other. *)
Fixpoint concat (parts : list string) : string :=
  match parts with
  | [] => EmptyString
  | p :: rest => p +:+ concat rest
  end.

(** [s.startsWith(p)]. *)
Fixpoint startsWith (p s : string) : bool :=
  match p, s with
  | EmptyString, _ => true
  | String _ _, EmptyString => false
  | String a p', String b s' => if Ascii.eqb a b then startsWith p' s' else false
  end.

Definition endsWith (p s : string) : bool :=
  startsWith (String.rev p) (String.rev s).

(** [s.split(c)] for a one-character separator: the pieces between the
    separators, always at least one piece. *)
Fixpoint splitGo (c : ascii) (cur : string) (s : string) : list string :=
  match s with
  | EmptyString => [String.rev cur]
  | String d r =>
      if Ascii.eqb d c then String.rev cur :: splitGo c EmptyString r
      else splitGo c (String d cur) r
  end.

Definition split (c : ascii) (s : string) : list string :=
  splitGo c EmptyString s.

(** [s.padStart(n, c)]. *)
Definition padStart (n : nat) (c : ascii) (s : string) : string :=
  String.string_of_list_ascii (repeat c (n - String.length s)) +:+ s.

(** Decimal text of an integer, as [Number.prototype.toString] gives it
    for an integer below 10^21 in absolute value. *)
Definition ofZ (n : Z) : string := NilZero.string_of_int (Z.to_int n).
Definition ofNat (n : nat) : string := ofZ (Z.of_nat n).

End Str.

(** ** JavaScript values *)

Module Js.

#[warnings="-register-all"]
Inductive jsval : Type :=
| JUndefined
| JNull
| JBool (b : bool)
| JNum (n : Z)
| JStr (s : string)
| JArr (l : list jsval)
| JObj (o : list (string * jsval)).

(** An object: its own properties, in insertion order, no key twice. *)
Abbreviation obj := (list (string * jsval)).

(** [o[k]] over the own properties: an absent property reads as
    [undefined]. An object also answers to the names it inherits from
    [Object.prototype] ([inherited] below), with a function or with the
    prototype; this reading is not modelled, so [getProp] stands for
    [o[k]] when [k] is an own property of [o] or no inherited name. *)
Fixpoint getProp (o : obj) (k : string) : jsval :=
  match o with
  | [] => JUndefined
  | (k', v) :: r => if String.eqb k' k then v else getProp r k
  end.

(** The property names that every plain object inherits. *)
Definition inherited : list string :=
  ["constructor"; "__defineGetter__"; "__defineSetter__"; "hasOwnProperty";
   "__lookupGetter__"; "__lookupSetter__"; "isPrototypeOf";
   "propertyIsEnumerable"; "toString"; "valueOf"; "__proto__";
   "toLocaleString"].

Definition isInherited (k : string) : bool :=
  existsb (String.eqb k) inherited.

(** [o[k] = v]: an existing property keeps its place, a new one goes last. *)
Fixpoint setProp (o : obj) (k : string) (v : jsval) : obj :=
  match o with
  | [] => [(k, v)]
  | (k', v') :: r =>
      if String.eqb k' k then (k', v) :: r else (k', v') :: setProp r k v
  end.

(** [v.k] for an arbitrary value: reading a property of [undefined] or
    [null] throws a TypeError ([None]); primitives have no own properties
    of interest here. *)
Definition member (v : jsval) (k : string) : option jsval :=
  match v with
  | JUndefined | JNull => None
  | JObj o => Some (getProp o k)
  | _ => Some JUndefined
  end.

(** The elements of an array value. *)
Definition asList (v : jsval) : option (list jsval) :=
  match v with
  | JArr l => Some l
  | _ => None
  end.

(** ToBoolean. *)
Definition truthy (v : jsval) : bool :=
  match v with
  | JUndefined | JNull => false
  | JBool b => b
  | JNum n => negb (n =? 0)
  | JStr s => negb (String.eqb s EmptyString)
  | JArr _ | JObj _ => true
  end.

(** [a || b]. *)
Definition or (a b : jsval) : jsval := if truthy a then a else b.

(** ToString, as used by template literals, property keys and
    [toString()]. The function is total and prints every digit of a
    number. JavaScript throws a TypeError on an object that has a property
    [toString] of its own which is no function (every such property of a
    value read from JSON text), and prints a number from 10^21 on with an
    exponent; on these values, and on arrays that hold them, the function
    does not follow the scripts. *)
Fixpoint toString (v : jsval) : string :=
  match v with
  | JUndefined => "undefined"
  | JNull => "null"
  | JBool true => "true"
  | JBool false => "false"
  | JNum n => Str.ofZ n
  | JStr s => s
  | JArr l =>
      Str.join ","
        (map (fun x => match x with
                       | JUndefined | JNull => EmptyString
                       | _ => toString x
                       end) l)
  | JObj _ => "[object Object]"
  end.

(** *** Property enumeration order

    [Object.keys], [Object.entries], [for .. in] and [JSON.stringify]
    list the integer-like keys (canonical array indices) first, in
    ascending numeric order, then the other keys in insertion order. *)

Definition digitVal (c : ascii) : option N :=
  let n := N_of_ascii c in
  if ((48 <=? n) && (n <=? 57))%N then Some (n - 48)%N else None.

Fixpoint digitsVal (acc : N) (s : string) : option N :=
  match s with
  | EmptyString => Some acc
  | String c r =>
      match digitVal c with
      | Some d => digitsVal (10 * acc + d)%N r
      | None => None
      end
  end.

Definition arrayIndex (k : string) : option N :=
  match k with
  | EmptyString => None
  | _ =>
      match digitsVal 0%N k with
      | Some n =>
          if String.eqb (Str.ofZ (Z.of_N n)) k && (n <? 4294967295)%N
          then Some n else None
      | None => None
      end
  end.

Fixpoint insertIndexed {A} (n : N) (x : A) (l : list (N * A)) : list (N * A) :=
  match l with
  | [] => [(n, x)]
  | (m, y) :: r =>
      if (n <? m)%N then (n, x) :: (m, y) :: r
      else (m, y) :: insertIndexed n x r
  end.

(** The stable partition of the properties: indexed ones sorted, the
    rest as they were. *)
Fixpoint enumGo {A} (l : list (string * A))
    (idx : list (N * (string * A))) (rest : list (string * A))
    : list (string * A) :=
  match l with
  | [] => map snd idx ++ rev rest
  | (k, v) :: r =>
      match arrayIndex k with
      | Some n => enumGo r (insertIndexed n (k, v) idx) rest
      | None => enumGo r idx ((k, v) :: rest)
      end
  end.

(** [Object.entries(o)]. *)
Definition entries {A} (o : list (string * A)) : list (string * A) :=
  enumGo o [] [].

(** [Object.keys(o)]. *)
Definition keys {A} (o : list (string * A)) : list string :=
  map fst (entries o).

End Js.

(** ** JSON text

    [JSON.stringify(v, null, 2)] and [JSON.parse], the two built-ins the
    pipeline uses to write and read its hierarchical files. *)

Module JSON.
Import Js.

Definition hexDigit (n : N) : ascii :=
  if (n <? 10)%N then ascii_of_N (48 + n) else ascii_of_N (87 + n).

(** QuoteJSONString, one character. *)
Definition quoteChar (c : ascii) : string :=
  let n := N_of_ascii c in
  let esc (d : ascii) := String Str.backslash (String d EmptyString) in
  if Ascii.eqb c Str.quote then esc Str.quote
  else if Ascii.eqb c Str.backslash then esc Str.backslash
  else if (n =? 8)%N then esc "b"%char
  else if (n =? 9)%N then esc "t"%char
  else if (n =? 10)%N then esc "n"%char
  else if (n =? 12)%N then esc "f"%char
  else if (n =? 13)%N then esc "r"%char
  else if (n <? 32)%N then
    String Str.backslash
      (String "u" (String "0" (String "0"
         (String (hexDigit (n / 16)) (String (hexDigit (n mod 16)) EmptyString)))))
  else String c EmptyString.

Fixpoint quoteBody (s : string) : string :=
  match s with
  | EmptyString => EmptyString
  | String c r => quoteChar c +:+ quoteBody r
  end.

Definition quoteString (s : string) : string :=
  String Str.quote (quoteBody s +:+ String Str.quote EmptyString).

Definition gap : string := "  ".

(** SerializeJSONProperty with a two-space gap. [None] is [undefined]: such
    a property is left out of an object and written as [null] in an array. *)
Fixpoint serialize (indent : string) (v : jsval) : option string :=
  match v with
  | JUndefined => None
  | JNull => Some "null"
  | JBool b => Some (if b then "true" else "false")
  | JNum n => Some (Str.ofZ n)
  | JStr s => Some (quoteString s)
  | JArr l =>
      let inner := indent +:+ gap in
      let parts := map (fun x => default "null" (serialize inner x)) l in
      match parts with
      | [] => Some "[]"
      | _ =>
          Some ("[" +:+ Str.NL +:+ inner
                +:+ Str.join ("," +:+ Str.NL +:+ inner) parts
                +:+ Str.NL +:+ indent +:+ "]")
      end
  | JObj o =>
      let inner := indent +:+ gap in
      let texts := map (fun kv => (fst kv, serialize inner (snd kv))) o in
      let parts :=
        omap (fun kt => match snd kt with
                        | Some t => Some (quoteString (fst kt) +:+ ": " +:+ t)
                        | None => None
                        end) (entries texts) in
      match parts with
      | [] => Some "{}"
      | _ =>
          Some ("{" +:+ Str.NL +:+ inner
                +:+ Str.join ("," +:+ Str.NL +:+ inner) parts
                +:+ Str.NL +:+ indent +:+ "}")
      end
  end.

(** [JSON.stringify(v, null, 2)]; the text [undefined] stands for the
    result on a value that has no JSON form, as string concatenation
    would render it. *)
Definition stringify (v : jsval) : string :=
  default "undefined" (serialize EmptyString v).

(** *** Parsing *)

Definition isWs (c : ascii) : bool :=
  let n := N_of_ascii c in
  ((n =? 32) || (n =? 9) || (n =? 10) || (n =? 13))%N.

Fixpoint skipWs (s : string) : string :=
  match s with
  | String c r => if isWs c then skipWs r else s
  | EmptyString => s
  end.

Definition hexVal (c : ascii) : option N :=
  let n := N_of_ascii c in
  if ((48 <=? n) && (n <=? 57))%N then Some (n - 48)%N
  else if ((97 <=? n) && (n <=? 102))%N then Some (n - 87)%N
  else if ((65 <=? n) && (n <=? 70))%N then Some (n - 55)%N
  else None.

Definition unescape (e : ascii) : option ascii :=
  if Ascii.eqb e Str.quote then Some Str.quote
  else if Ascii.eqb e Str.backslash then Some Str.backslash
  else if Ascii.eqb e "/" then Some "/"%char
  else if Ascii.eqb e "b" then Some (ascii_of_N 8)
  else if Ascii.eqb e "f" then Some (ascii_of_N 12)
  else if Ascii.eqb e "n" then Some (ascii_of_N 10)
  else if Ascii.eqb e "r" then Some (ascii_of_N 13)
  else if Ascii.eqb e "t" then Some (ascii_of_N 9)
  else None.

(** The characters of a string literal after its opening quote, up to and
    excluding the closing quote; the rest of the text follows. A code
    point above 255 written as [\uXXXX] is outside the one-byte model. *)
Fixpoint parseChars (s : string) : option (string * string) :=
  match s with
  | EmptyString => None
  | String c r =>
      if Ascii.eqb c Str.quote then Some (EmptyString, r)
      else if Ascii.eqb c Str.backslash then
        match r with
        | EmptyString => None
        | String e r' =>
            match unescape e with
            | Some d =>
                match parseChars r' with
                | Some (t, rest) => Some (String d t, rest)
                | None => None
                end
            | None =>
                if Ascii.eqb e "u" then
                  match r' with
                  | String h1 (String h2 (String h3 (String h4 r''))) =>
                      match hexVal h1, hexVal h2, hexVal h3, hexVal h4 with
                      | Some a, Some b, Some c', Some d =>
                          let n := (((a * 16 + b) * 16 + c') * 16 + d)%N in
                          if (n <? 256)%N then
                            match parseChars r'' with
                            | Some (t, rest) => Some (String (ascii_of_N n) t, rest)
                            | None => None
                            end
                          else None
                      | _, _, _, _ => None
                      end
                  | _ => None
                  end
                else None
            end
        end
      else if (N_of_ascii c <? 32)%N then None
      else
        match parseChars r with
        | Some (t, rest) => Some (String c t, rest)
        | None => None
        end
  end.

Fixpoint spanDigits (s : string) : string * string :=
  match s with
  | String c r =>
      match digitVal c with
      | Some _ => let '(ds, rest) := spanDigits r in (String c ds, rest)
      | None => (EmptyString, s)
      end
  | EmptyString => (EmptyString, s)
  end.

(** An integer literal; a fraction or an exponent is outside the model. *)
Definition parseNumber (s : string) : option (jsval * string) :=
  let '(neg, s1) :=
    match s with
    | String c r => if Ascii.eqb c "-" then (true, r) else (false, s)
    | EmptyString => (false, s)
    end in
  let '(ds, rest) := spanDigits s1 in
  let follows :=
    match rest with
    | String c _ => Ascii.eqb c "." || Ascii.eqb c "e" || Ascii.eqb c "E"
    | EmptyString => false
    end in
  match ds, digitsVal 0%N ds with
  | String d0 more, Some n =>
      if Ascii.eqb d0 "0" && negb (String.eqb more EmptyString) then None
      else if follows then None
      else Some (JNum (if neg then - Z.of_N n else Z.of_N n), rest)
  | _, _ => None
  end.

(** [dropPrefix p s]: what follows the literal [p] at the head of [s]. *)
Fixpoint dropPrefix (p s : string) : option string :=
  match p, s with
  | EmptyString, _ => Some s
  | String _ _, EmptyString => None
  | String a p', String b s' => if Ascii.eqb a b then dropPrefix p' s' else None
  end.

Fixpoint parseValue (fuel : nat) (s : string) : option (jsval * string) :=
  match fuel with
  | O => None
  | S f =>
      match skipWs s with
      | EmptyString => None
      | String c r =>
          if Ascii.eqb c "{" then
            match skipWs r with
            | String c' r' =>
                if Ascii.eqb c' "}" then Some (JObj [], r')
                else
                  match parseMembers f (skipWs r) [] with
                  | Some (o, rest) => Some (JObj o, rest)
                  | None => None
                  end
            | EmptyString => None
            end
          else if Ascii.eqb c "[" then
            match skipWs r with
            | String c' r' =>
                if Ascii.eqb c' "]" then Some (JArr [], r')
                else
                  match parseElements f (skipWs r) with
                  | Some (l, rest) => Some (JArr l, rest)
                  | None => None
                  end
            | EmptyString => None
            end
          else if Ascii.eqb c Str.quote then
            match parseChars r with
            | Some (t, rest) => Some (JStr t, rest)
            | None => None
            end
          else if Ascii.eqb c "t" then
            option_map (pair (JBool true)) (dropPrefix "true" (String c r))
          else if Ascii.eqb c "f" then
            option_map (pair (JBool false)) (dropPrefix "false" (String c r))
          else if Ascii.eqb c "n" then
            option_map (pair JNull) (dropPrefix "null" (String c r))
          else parseNumber (String c r)
      end
  end

with parseElements (fuel : nat) (s : string) : option (list jsval * string) :=
  match fuel with
  | O => None
  | S f =>
      match parseValue f s with
      | Some (v, rest) =>
          match skipWs rest with
          | String c r =>
              if Ascii.eqb c "," then
                match parseElements f r with
                | Some (l, rest') => Some (v :: l, rest')
                | None => None
                end
              else if Ascii.eqb c "]" then Some ([v], r)
              else None
          | EmptyString => None
          end
      | None => None
      end
  end

with parseMembers (fuel : nat) (s : string) (acc : obj) : option (obj * string) :=
  match fuel with
  | O => None
  | S f =>
      match skipWs s with
      | String q r =>
          if Ascii.eqb q Str.quote then
            match parseChars r with
            | Some (k, rest) =>
                match skipWs rest with
                | String c r1 =>
                    if Ascii.eqb c ":" then
                      match parseValue f r1 with
                      | Some (v, rest1) =>
                          let acc' := setProp acc k v in
                          match skipWs rest1 with
                          | String c2 r2 =>
                              if Ascii.eqb c2 "," then parseMembers f r2 acc'
                              else if Ascii.eqb c2 "}" then Some (acc', r2)
                              else None
                          | EmptyString => None
                          end
                      | None => None
                      end
                    else None
                | EmptyString => None
                end
            | None => None
            end
          else None
      | EmptyString => None
      end
  end.

(** [JSON.parse(text)]: [None] when the call throws a SyntaxError. *)
Definition parse (text : string) : option jsval :=
  match parseValue (S (String.length text)) text with
  | Some (v, rest) =>
      match skipWs rest with
      | EmptyString => Some v
      | String _ _ => None
      end
  | None => None
  end.

End JSON.

(** ** UTF-8 decoding of a chunk

    The reader turns each chunk of bytes into text on its own
    ([buffer.toString('utf8', 0, bytesRead)]). The rest of the model speaks
    of one-byte characters, on which decoding is the identity; this module
    gives the decoder for the one-byte and two-byte forms, which cover
    Latin and Arabic letters. Every byte that cannot be decoded becomes the
    replacement character U+FFFD (65533): a lead byte that its continuation
    byte does not follow, and a continuation byte without lead. The
    three- and four-byte forms are outside this model ([None]). *)

Module Utf8.

Definition replacement : N := 65533%N.

Definition isContinuation (b : N) : bool := ((128 <=? b) && (b <=? 191))%N.

Fixpoint decode (bytes : list N) : option (list N) :=
  match bytes with
  | [] => Some []
  | b :: rest =>
      if (b <? 128)%N then option_map (cons b) (decode rest)
      else if (b <? 194)%N then option_map (cons replacement) (decode rest)
      else if (b <? 224)%N then
        match rest with
        | c :: rest' =>
            if isContinuation c
            then option_map (cons ((b - 192) * 64 + (c - 128))%N) (decode rest')
            else option_map (cons replacement) (decode rest)
        | [] => Some [replacement]
        end
      else None
  end.

(** The text a reader gets that decodes the chunks one by one. *)
Fixpoint decodeChunks (chunks : list (list N)) : option (list N) :=
  match chunks with
  | [] => Some []
  | chunk :: rest =>
      match decode chunk, decodeChunks rest with
      | Some a, Some b => Some (a ++ b)
      | _, _ => None
      end
  end.

End Utf8.

(** ** CSV text *)

Module Csv.
Import Js.

(** Two quote characters: what [value.replace] puts for each quote. *)
Definition twoQuotes : string := String Str.quote (String Str.quote EmptyString).

(** The test of the field callback: [value.includes] of a comma, of a
    line break, or of a quote. *)
Definition needsQuoting (value : string) : bool :=
  Str.includes Str.comma value
  || Str.includes Str.nl value
  || Str.includes Str.quote value.

(** The escaping step of the field callback in [objectsToCSV] (the same
    three lines in both scripts). *)
Definition csvEscape (value : string) : string :=
  if needsQuoting value then
    String Str.quote (Str.replaceAll Str.quote twoQuotes value
                      +:+ String Str.quote EmptyString)
  else value.

(** [row[header]?.toString() || '']: the optional chain stops at
    [undefined] and [null], and an empty text from [toString] is replaced
    by the empty text. *)
Definition fieldText (v : jsval) : string :=
  match v with
  | JUndefined | JNull => EmptyString
  | _ => toString v
  end.

Definition csvField (row : obj) (header : string) : string :=
  csvEscape (fieldText (getProp row header)).

(** One iteration of [for (const row of data)]: the text added to [csv]. *)
Definition csvLine (headers : list string) (row : obj) : string :=
  Str.join "," (map (csvField row) headers) +:+ Str.NL.

Definition headerLine (headers : list string) : string :=
  Str.join "," headers +:+ Str.NL.

(** [objectsToCSV] of [translations_quranenc.com.js]. *)
Definition objectsToCSV (data : list obj) (includeHeaders : bool) : string :=
  match data with
  | [] => EmptyString
  | first :: _ =>
      let headers := keys first in
      fold_left (fun csv row => csv +:+ csvLine headers row) data
        (if includeHeaders then headerLine headers else EmptyString)
  end.

(** *** Decoding (specification side)

    The reading rule of RFC 4180 for one field: a field that opens with a
    quote runs to its closing quote, a doubled quote inside standing for
    one quote character; any other field is its own text and holds no
    quote, comma or line break. *)

Fixpoint decodeQuoted (s : string) : option string :=
  match s with
  | EmptyString => None
  | String c r =>
      if Ascii.eqb c Str.quote then
        match r with
        | EmptyString => Some EmptyString
        | String c' r' =>
            if Ascii.eqb c' Str.quote
            then option_map (String Str.quote) (decodeQuoted r')
            else None
        end
      else option_map (String c) (decodeQuoted r)
  end.

Definition decodeField (s : string) : option string :=
  match s with
  | EmptyString => Some EmptyString
  | String c r =>
      if Ascii.eqb c Str.quote then decodeQuoted r
      else if needsQuoting s then None
      else Some s
  end.

(** A character of the text is a comma, a line break or a quote. *)
Definition isSpecial (c : ascii) : bool :=
  Ascii.eqb c Str.comma || Ascii.eqb c Str.nl || Ascii.eqb c Str.quote.

Definition hasSpecial (s : string) : bool :=
  existsb isSpecial (String.list_ascii_of_string s).

(** The field of the specification's example: [a], comma, [b], quote,
    [c], line break, [d]. *)
Definition sampleField : string :=
  "a,b" +:+ String Str.quote ("c" +:+ String Str.nl "d").

(** The quoted form: the text between quotes, its quotes doubled. *)
Definition wrapped (s : string) : string :=
  String Str.quote (Str.replaceAll Str.quote twoQuotes s
                    +:+ String Str.quote EmptyString).

End Csv.

(** ** The world: file system, remote source, and the order of effects *)

Module World.
Import Js.

Inductive event : Type :=
| Request (endpoint : string)
| Delay (ms : Z)
| Mkdir (path : string)
| WriteFile (path content : string)
| AppendFile (path content : string).

#[global] Instance event_eq_dec : EqDecision event.
Proof. solve_decision. Defined.

Record world : Type := mkWorld {
  dirs : gset string;
  files : gmap string string;
  trace : list event
}.

Definition emptyWorld : world :=
  {| dirs := ∅; files := ∅; trace := [] |}.

Definition record (e : event) (w : world) : world :=
  {| dirs := dirs w; files := files w; trace := trace w ++ [e] |}.

(** The world after further effects that touch no file. *)
Definition extend (w : world) (events : list event) : world :=
  {| dirs := dirs w; files := files w; trace := trace w ++ events |}.

(** The world after effects that leave the given content in one file. *)
Definition written (w : world) (path content : string) (events : list event) : world :=
  {| dirs := dirs w;
     files := <[path := content]> (files w);
     trace := trace w ++ events |}.

(** The directories on the way to [path], the path itself included. *)
Fixpoint prefixes (done : string) (segments : list string) : list string :=
  match segments with
  | [] => []
  | s :: rest =>
      let here := match done with
                  | EmptyString => s
                  | _ => done +:+ "/" +:+ s
                  end in
      here :: prefixes here rest
  end.

Definition ancestors (path : string) : list string :=
  prefixes EmptyString (Str.split "/" path).

(** *** Computations: state passing with exceptions *)

Inductive outcome (A : Type) : Type :=
| Ok (a : A)
| Thrown (message : string).
Arguments Ok {A} a.
Arguments Thrown {A} message.

Definition M (A : Type) : Type := world → outcome A * world.

Definition ret {A} (a : A) : M A := fun w => (Ok a, w).

Definition throw {A} (message : string) : M A := fun w => (Thrown message, w).

Definition bind {A B} (m : M A) (k : A → M B) : M B :=
  fun w =>
    match m w with
    | (Ok a, w') => k a w'
    | (Thrown e, w') => (Thrown e, w')
    end.

(** [try { body } catch (error) { handler }]. *)
Definition tryCatch {A} (body : M A) (handler : string → M A) : M A :=
  fun w =>
    match body w with
    | (Ok a, w') => (Ok a, w')
    | (Thrown e, w') => handler e w'
    end.

(** A value that must be present, a TypeError otherwise. *)
Definition orThrow {A} (message : string) (o : option A) : M A :=
  match o with
  | Some a => ret a
  | None => throw message
  end.

Declare Scope js_scope.
Delimit Scope js_scope with js.
Notation "'let*' x ':=' m 'in' k" := (bind m (fun x => k))
  (at level 10, x name, m at level 100, k at level 200) : js_scope.
Notation "m ';;' k" := (bind m (fun _ => k))
  (at level 100, k at level 200, right associativity) : js_scope.

(** [for (const x of l) { f(x) }] and [l.map(f)] with effects. *)
Fixpoint forEachM {A} (f : A → M unit) (l : list A) : M unit :=
  match l with
  | [] => ret tt
  | x :: r => bind (f x) (fun _ => forEachM f r)
  end.

Fixpoint mapM {A B} (f : A → M B) (l : list A) : M (list B) :=
  match l with
  | [] => ret []
  | x :: r => bind (f x) (fun y => bind (mapM f r) (fun ys => ret (y :: ys)))
  end.

(** *** File system calls of [fs/promises]

    The scripts create or probe every directory before they write into
    it, and in the model a write and a [mkdir] never fail. The file system
    rejects them where a regular file stands at a directory of the path
    (ENOTDIR), where a directory of the path is missing (ENOENT, a file
    name with a slash in it) and where the path of the file is a directory
    (EISDIR). The model follows the scripts in the worlds and for the
    paths without these cases. Paths are compared byte by byte, as a
    case-sensitive file system does. *)

(** [fs.mkdir(path, { recursive: true })]. *)
Definition mkdir (path : string) : M unit :=
  fun w =>
    (Ok tt,
     {| dirs := dirs w ∪ list_to_set (ancestors path);
        files := files w;
        trace := trace w ++ [Mkdir path] |}).

(** [ensureDir]: with the recursive flag the call does not fail on an
    existing directory, so the handler of EEXIST is never entered. *)
Definition ensureDir (dirPath : string) : M unit := mkdir dirPath.

Definition writeFile (path content : string) : M unit :=
  fun w =>
    (Ok tt,
     {| dirs := dirs w;
        files := <[path := content]> (files w);
        trace := trace w ++ [WriteFile path content] |}).

(** [fs.appendFile]: creates the file when it does not exist. *)
Definition appendFile (path content : string) : M unit :=
  fun w =>
    (Ok tt,
     {| dirs := dirs w;
        files := <[path := default EmptyString (files w !! path) +:+ content]> (files w);
        trace := trace w ++ [AppendFile path content] |}).

(** [fs.access(path)]: throws when nothing exists at the path. *)
Definition access (path : string) : M unit :=
  fun w =>
    if bool_decide (path ∈ dirs w) || bool_decide (is_Some (files w !! path))
    then (Ok tt, w)
    else (Thrown "ENOENT: no such file or directory", w).

(** [await new Promise(resolve => setTimeout(resolve, ms))]. *)
Definition delay (ms : Z) : M unit := fun w => (Ok tt, record (Delay ms) w).

(** [path.join] of string segments: a segment that is not a string throws
    a TypeError, empty segments are skipped. Dot segments and repeated
    separators are not normalised here. *)
Definition joinPath (segments : list string) : string :=
  Str.join "/" (filter (fun s => s ≠ EmptyString) segments).

Fixpoint allStrings (l : list jsval) : option (list string) :=
  match l with
  | [] => Some []
  | JStr s :: r => option_map (cons s) (allStrings r)
  | _ :: _ => None
  end.

Definition pathJoin (segments : list jsval) : M string :=
  match allStrings segments with
  | Some ss => ret (joinPath ss)
  | None => throw "The path argument must be of type string"
  end.

(** The remote source: what a GET of the endpoint under [API_BASE_URL]
    answers. [inl] is the parsed JSON body of a successful response, [inr]
    the message of the error otherwise (a status that is not ok, a
    transport failure, or a body that is not JSON). *)
Definition api : Type := string → jsval + string.

(** [fetchAPI]: the error is logged and thrown again. *)
Definition fetchAPI (remote : api) (endpoint : string) : M jsval :=
  fun w =>
    let w' := record (Request endpoint) w in
    match remote endpoint with
    | inl data => (Ok data, w')
    | inr message => (Thrown message, w')
    end.

End World.

(** ** Stage 1: the ingestion pipeline ([translations_quranenc.com.js]) *)

Module Ingest.
Import Js World.
Local Open Scope js_scope.

Section WithRemote.

Variable remote : api.

(** *** Verse fetcher *)

Definition surahEndpoint (translationKey : jsval) (surahNumber : nat) : string :=
  "/translation/sura/" +:+ toString translationKey +:+ "/" +:+ Str.ofNat surahNumber.

(** The body of the loop of [getTranslationForAllSurahs] for one surah
    number: the [try] block and its [catch]. *)
Definition fetchSurah (translationKey : jsval) (allSurahsData : list jsval)
    (surahNumber : nat) : M (list jsval) :=
  tryCatch
    (let* data := fetchAPI remote (surahEndpoint translationKey surahNumber) in
     let* result := orThrow "Cannot read properties" (member data "result") in
     let pushed :=
       match result with
       | JArr verses => allSurahsData ++ verses
       | _ => allSurahsData
       end in
     delay 300 ;;
     ret pushed)
    (fun _ => delay 1000 ;; ret allSurahsData).

Fixpoint forSurahs (translationKey : jsval) (numbers : list nat)
    (allSurahsData : list jsval) : M (list jsval) :=
  match numbers with
  | [] => ret allSurahsData
  | surahNumber :: rest =>
      let* data := fetchSurah translationKey allSurahsData surahNumber in
      forSurahs translationKey rest data
  end.

(** [for (let surahNumber = 1; surahNumber <= 114; surahNumber++)]. *)
Definition surahNumbers : list nat := seq 1 114.

Definition getTranslationForAllSurahs (translationKey : jsval) : M (list jsval) :=
  forSurahs translationKey surahNumbers [].

(** *** Per-translation writer *)

(** [text.replace(/\n/g, ' ')] on a value: only a string has the method. *)
Definition replaceNewlines (v : jsval) : M string :=
  match v with
  | JStr s => ret (Str.replaceAll Str.nl " " s)
  | _ => throw "replace is not a function"
  end.

(** The callback of [allAyahs.map] that builds [processedData]. *)
Definition processAyah (ayah : jsval) : M obj :=
  let* sura := orThrow "Cannot read properties" (member ayah "sura") in
  let* aya := orThrow "Cannot read properties" (member ayah "aya") in
  let* arabic_text := orThrow "Cannot read properties" (member ayah "arabic_text") in
  let* translation := orThrow "Cannot read properties" (member ayah "translation") in
  let* translation' := replaceNewlines translation in
  let* footnotes := orThrow "Cannot read properties" (member ayah "footnotes") in
  let* footnotes' :=
    (if truthy footnotes then replaceNewlines footnotes else ret EmptyString) in
  ret [("surah", sura);
       ("ayah", aya);
       ("arabic_text", arabic_text);
       ("translation", JStr translation');
       ("footnotes", JStr footnotes')].

(** [if (!groups[k]) groups[k] = []; groups[k].push(x)]. The keys are
    surah values; names that a plain object inherits are not among them. *)
Fixpoint pushGroup {A} (groups : list (string * list A)) (k : string) (x : A)
    : list (string * list A) :=
  match groups with
  | [] => [(k, [x])]
  | (k', xs) :: r =>
      if String.eqb k' k then (k', xs ++ [x]) :: r
      else (k', xs) :: pushGroup r k x
  end.

(** The loop that fills [surahGroups]. *)
Definition groupBySurah (processedData : list obj) : list (string * list obj) :=
  fold_left (fun groups ayah => pushGroup groups (toString (getProp ayah "surah")) ayah)
    processedData [].

(** The callback that builds [parallelCorpus]; its parameter [ayah] is a
    row of [processedData]. *)
Definition parallelRow (ayah : obj) : obj :=
  [("surah", getProp ayah "surah");
   ("ayah", getProp ayah "aya");
   ("arabic", getProp ayah "arabic_text");
   ("translation", getProp ayah "translation")].

(** The callback that builds [enhancedData]. *)
Definition enhancedRow (key language_iso_code title version : jsval) (ayah : obj) : obj :=
  [("translation_key", key);
   ("language_code", language_iso_code);
   ("translation_title", title);
   ("translation_version", version);
   ("surah", getProp ayah "surah");
   ("ayah", getProp ayah "aya");
   ("arabic_text", getProp ayah "arabic_text");
   ("translation", getProp ayah "translation");
   ("footnotes", or (getProp ayah "footnotes") (JStr EmptyString))].

(** The object pushed to [jsonData.surahs[ayah.surah]]. *)
Definition jsonAyah (ayah : obj) : jsval :=
  JObj [("ayah", getProp ayah "aya");
        ("arabic_text", getProp ayah "arabic_text");
        ("translation", getProp ayah "translation");
        ("footnotes", or (getProp ayah "footnotes") (JStr EmptyString))].

(** The loop that fills [jsonData.surahs]. *)
Definition jsonSurahs (processedData : list obj) : list (string * list jsval) :=
  fold_left (fun surahs ayah =>
               pushGroup surahs (toString (getProp ayah "surah")) (jsonAyah ayah))
    processedData [].

Definition jsonData (key language_iso_code title version : jsval)
    (processedData : list obj) : jsval :=
  JObj [("translation_key", key);
        ("language_code", language_iso_code);
        ("translation_title", title);
        ("translation_version", version);
        ("surahs", JObj (map (fun kv => (fst kv, JArr (snd kv))) (jsonSurahs processedData)))].

Definition surahFileName (surahNum : string) : string :=
  "surah_" +:+ Str.padStart 3 "0" surahNum +:+ ".csv".

(** [processTranslation]. The second component of the result is the new
    content of the array [allTranslationsData] that the caller shares.
    The log line before the [try] block, which prints the title and the
    key, and the log line of the handler, which prints the key, have no
    counterpart here: the model follows the script for a title and a key
    that print. *)
Definition processTranslation (translation : jsval) (allTranslationsData : list obj)
    : M (jsval * list obj) :=
  let* key := orThrow "Cannot destructure" (member translation "key") in
  let* language_iso_code := orThrow "Cannot destructure" (member translation "language_iso_code") in
  let* title := orThrow "Cannot destructure" (member translation "title") in
  let* version := orThrow "Cannot destructure" (member translation "version") in
  tryCatch
    (let* translationDir := pathJoin [JStr "datasets"; language_iso_code; key] in
     ensureDir translationDir ;;
     writeFile (translationDir +:+ "/metadata.json") (JSON.stringify translation) ;;
     let* allAyahs := getTranslationForAllSurahs key in
     match allAyahs with
     | [] => ret (JNull, allTranslationsData)
     | _ :: _ =>
         let* processedData := mapM processAyah allAyahs in
         let csvContent := Csv.objectsToCSV processedData true in
         writeFile (translationDir +:+ "/full_translation.csv") csvContent ;;
         let surahGroups := groupBySurah processedData in
         forEachM (fun entry =>
                     writeFile (translationDir +:+ "/" +:+ surahFileName (fst entry))
                       (Csv.objectsToCSV (snd entry) true))
           (entries surahGroups) ;;
         let parallelCorpus := map parallelRow processedData in
         writeFile (translationDir +:+ "/parallel_corpus.csv")
           (Csv.objectsToCSV parallelCorpus true) ;;
         let enhancedData :=
           map (enhancedRow key language_iso_code title version) processedData in
         let allTranslationsData' := allTranslationsData ++ enhancedData in
         ret (JObj [("key", key);
                    ("language", language_iso_code);
                    ("ayah_count", JNum (Z.of_nat (length allAyahs)));
                    ("json_data", jsonData key language_iso_code title version processedData)],
              allTranslationsData')
     end)
    (fun message =>
       ret (JObj [("key", key);
                  ("language", language_iso_code);
                  ("error", JStr message)],
            allTranslationsData)).

(** *** Chunked tabular writer *)

Definition allCsvPath : string := "datasets/all_translations.csv".
Definition allJsonPath : string := "datasets/all_translations.json".

(** [for (let i = 0; i < data.length; i += chunkSize)]: at most [fuel]
    rounds, which is every round when [chunkSize] is positive and [fuel]
    is the length of the data. *)
Fixpoint csvChunkLoop (fuel : nat) (data : list obj) (chunkSize i : nat) : M unit :=
  match fuel with
  | O => ret tt
  | S f =>
      if (i <? length data)%nat then
        let chunk := take chunkSize (drop i data) in
        let chunkCsv := Csv.objectsToCSV chunk false in
        appendFile allCsvPath chunkCsv ;;
        csvChunkLoop f data chunkSize (i + chunkSize)%nat
      else ret tt
  end.

Definition saveChunkedData (allTranslationsData : list obj) (chunkSize : nat)
    (isFirstChunk : bool) : M unit :=
  match allTranslationsData with
  | [] => ret tt
  | first :: _ =>
      (if isFirstChunk
       then writeFile allCsvPath (Str.join "," (keys first) +:+ Str.NL)
       else ret tt) ;;
      csvChunkLoop (length allTranslationsData) allTranslationsData chunkSize 0
  end.

(** *** Streaming JSON array writer *)

(** The loop of [saveJsonData] from index [i] on; [rest] holds the
    documents from that index. *)
Fixpoint jsonAppendLoop (rest : list jsval) (isFinalChunk : bool) : M unit :=
  match rest with
  | [] => ret tt
  | doc :: more =>
      let jsonStr := JSON.stringify doc in
      let isLast := match more with [] => true | _ => false end in
      let needsComma := negb (isLast && isFinalChunk) in
      appendFile allJsonPath
        (jsonStr +:+ (if needsComma then "," +:+ Str.NL else Str.NL)) ;;
      jsonAppendLoop more isFinalChunk
  end.

Definition saveJsonData (allTranslationsJSON : list jsval)
    (isFirstChunk isFinalChunk : bool) : M unit :=
  match allTranslationsJSON with
  | [] => ret tt
  | _ :: _ =>
      (if isFirstChunk then writeFile allJsonPath ("[" +:+ Str.NL) else ret tt) ;;
      jsonAppendLoop allTranslationsJSON isFinalChunk ;;
      (if isFinalChunk then appendFile allJsonPath "]" else ret tt)
  end.

(** *** The driver *)

Record loopState : Type := mkLoop {
  allTranslationsData : list obj;
  allTranslationsJSON : list jsval;
  results : list jsval;
  successCount : Z;
  errorCount : Z;
  firstCSVChunk : bool;
  firstJSONChunk : bool
}.

Definition initialLoop : loopState :=
  {| allTranslationsData := []; allTranslationsJSON := []; results := [];
     successCount := 0; errorCount := 0;
     firstCSVChunk := true; firstJSONChunk := true |}.

(** The counting branch after [processTranslation] returns. *)
Definition countResult (result : jsval) (data : list obj) (st : loopState) : loopState :=
  if truthy result then
    let json_data := default JUndefined (member result "json_data") in
    if truthy json_data then
      {| allTranslationsData := data;
         allTranslationsJSON := allTranslationsJSON st ++ [json_data];
         results := results st ++ [result];
         successCount := successCount st + 1;
         errorCount := errorCount st;
         firstCSVChunk := firstCSVChunk st;
         firstJSONChunk := firstJSONChunk st |}
    else
      {| allTranslationsData := data;
         allTranslationsJSON := allTranslationsJSON st;
         results := results st ++ [result];
         successCount := successCount st;
         errorCount := errorCount st + 1;
         firstCSVChunk := firstCSVChunk st;
         firstJSONChunk := firstJSONChunk st |}
  else
    {| allTranslationsData := data;
       allTranslationsJSON := allTranslationsJSON st;
       results := results st;
       successCount := successCount st;
       errorCount := errorCount st + 1;
       firstCSVChunk := firstCSVChunk st;
       firstJSONChunk := firstJSONChunk st |}.

Definition progressJson (total i : nat) (st : loopState) (last_processed : jsval) : jsval :=
  JObj [("total", JNum (Z.of_nat total));
        ("processed", JNum (Z.of_nat i + 1));
        ("success", JNum (successCount st));
        ("error", JNum (errorCount st));
        ("last_processed", last_processed)].

Definition saveProgress (total i : nat) (key : jsval) (st : loopState) : M unit :=
  if ((i mod 5 =? 0) || (i =? total - 1))%nat then
    writeFile "datasets/processing_progress.json"
      (JSON.stringify (progressJson total i st key))
  else ret tt.

Definition flushCsv (total i : nat) (st : loopState) : M loopState :=
  if (10000 <? Z.of_nat (length (allTranslationsData st))) || (i =? total - 1)%nat then
    saveChunkedData (allTranslationsData st) 1000 (firstCSVChunk st) ;;
    ret {| allTranslationsData := [];
           allTranslationsJSON := allTranslationsJSON st;
           results := results st;
           successCount := successCount st;
           errorCount := errorCount st;
           firstCSVChunk := false;
           firstJSONChunk := firstJSONChunk st |}
  else ret st.

Definition flushJson (total i : nat) (st : loopState) : M loopState :=
  if (20 <? Z.of_nat (length (allTranslationsJSON st))) || (i =? total - 1)%nat then
    let isFinalChunk := (i =? total - 1)%nat in
    saveJsonData (allTranslationsJSON st) (firstJSONChunk st) isFinalChunk ;;
    ret {| allTranslationsData := allTranslationsData st;
           allTranslationsJSON := [];
           results := results st;
           successCount := successCount st;
           errorCount := errorCount st;
           firstCSVChunk := firstCSVChunk st;
           firstJSONChunk := false |}
  else ret st.

(** One round of the loop of [main] over [translationsToProcess]. The
    log line that prints the key has no counterpart here: the model
    follows the script for a key that prints. *)
Definition mainStep (total i : nat) (translation : jsval) (st : loopState) : M loopState :=
  let* key := orThrow "Cannot read properties" (member translation "key") in
  let* processed := processTranslation translation (allTranslationsData st) in
  let st1 := countResult (fst processed) (snd processed) st in
  saveProgress total i key st1 ;;
  let* st2 := flushCsv total i st1 in
  flushJson total i st2.

Fixpoint mainLoop (total i : nat) (translations : list jsval) (st : loopState)
    : M loopState :=
  match translations with
  | [] => ret st
  | translation :: rest =>
      let* st' := mainStep total i translation st in
      mainLoop total (S i) rest st'
  end.

Definition summaryEntry (r : jsval) : jsval :=
  JObj [("key", default JUndefined (member r "key"));
        ("language", default JUndefined (member r "language"));
        ("ayah_count", default JUndefined (member r "ayah_count"));
        ("error", default JUndefined (member r "error"))].

Definition summaryJson (total : nat) (st : loopState) : jsval :=
  JObj [("total", JNum (Z.of_nat total));
        ("success", JNum (successCount st));
        ("error", JNum (errorCount st));
        ("results", JArr (map summaryEntry (results st)))].

(** The catalogue calls. The catalogue is a JSON array; its [length] and
    its elements are read, which throws on [undefined]. *)
Definition getAvailableTranslations : M jsval :=
  let* data := fetchAPI remote "/translations/list" in
  orThrow "Cannot read properties" (member data "translations").

Definition getAvailableLanguages : M jsval :=
  let* data := fetchAPI remote "/translations/languages" in
  orThrow "Cannot read properties" (member data "languages").

(** The catalogue as the list the loop runs over. The model covers a
    catalogue that is an array; on another value the script reads its
    [length] and goes on without a round of the loop, where the model
    stops. *)
Definition asArray (v : jsval) : M (list jsval) :=
  match v with
  | JArr l => ret l
  | _ => throw "Cannot read properties"
  end.

(** The [try] block of [main]. *)
Definition mainBody : M loopState :=
  ensureDir "datasets" ;;
  let* translations := getAvailableTranslations in
  let* translationsToProcess := asArray translations in
  let* languages := getAvailableLanguages in
  orThrow "Cannot read properties" (member languages "length") ;;
  writeFile "datasets/translations_list.json" (JSON.stringify translations) ;;
  writeFile "datasets/languages_list.json" (JSON.stringify languages) ;;
  let total := length translationsToProcess in
  let* st := mainLoop total 0 translationsToProcess initialLoop in
  writeFile "datasets/processing_summary.json" (JSON.stringify (summaryJson total st)) ;;
  ret st.

(** [main]: the error of the [try] block is logged, not thrown again. *)
Definition main : M unit :=
  tryCatch (mainBody ;; ret tt) (fun _ => ret tt).

End WithRemote.

End Ingest.

(** ** Stage 2: the redistribution pipeline ([split_translations.js]) *)

Module Split.
Import Js World.
Local Open Scope js_scope.

(** *** Documents

    A translation document as the consolidated file holds it. The key and
    the language code are strings (stage 1 has used them as path segments);
    the other fields are any value, [JUndefined] standing for an absent
    field. [surahs] lists the properties of the surah mapping in insertion
    order, each with its array of ayah entries. *)

Record ayahEntry : Type := mkAyah {
  ayah : jsval;
  arabic_text : jsval;
  translation : jsval;
  footnotes : jsval
}.

Record document : Type := mkDocument {
  translation_key : string;
  language_code : string;
  translation_title : jsval;
  translation_version : jsval;
  surahs : list (string * list ayahEntry)
}.

Definition ayahToJs (a : ayahEntry) : jsval :=
  JObj [("ayah", ayah a);
        ("arabic_text", arabic_text a);
        ("translation", translation a);
        ("footnotes", footnotes a)].

(** The document as a value, for [JSON.stringify]. *)
Definition documentToJs (d : document) : jsval :=
  JObj [("translation_key", JStr (translation_key d));
        ("language_code", JStr (language_code d));
        ("translation_title", translation_title d);
        ("translation_version", translation_version d);
        ("surahs", JObj (map (fun kv => (fst kv, JArr (map ayahToJs (snd kv)))) (surahs d)))].

(** *** CSV of stage 2 *)

Definition addHeader (allHeaders : list string) (key : string) : list string :=
  if existsb (String.eqb key) allHeaders then allHeaders else allHeaders ++ [key].

(** The keys contributed by a nested [surahs] mapping: for each surah with
    a first ayah, the keys of that ayah under the prefix [ayah_]. A
    [surahs] value that is not an object of arrays of objects contributes
    nothing here. The script goes further on some of these values: it
    takes the indices of a string or of an array for surah numbers and for
    the keys of a first ayah, and it throws when a list begins with [null]
    or [undefined]. The definition follows it on a mapping whose lists are
    empty or begin with an object, which is what the documents of §3
    are. *)
Definition nestedHeaders (surahs : jsval) : list string :=
  match surahs with
  | JObj o =>
      concat (map (fun kv =>
                     match snd kv with
                     | JArr (JObj first :: _) => map (String.append "ayah_") (keys first)
                     | _ => []
                     end) (entries o))
  | _ => []
  end.

(** The callback of [data.forEach] that collects [allHeaders]. *)
Definition collectHeaders (allHeaders : list string) (o : obj) : list string :=
  let own := fold_left addHeader (keys o) allHeaders in
  if truthy (getProp o "surahs")
  then fold_left addHeader (nestedHeaders (getProp o "surahs")) own
  else own.

Definition csvField (row : obj) (header : string) : string :=
  if Str.startsWith "ayah_" header && truthy (getProp row "surahs")
  then EmptyString
  else Csv.csvEscape (Csv.fieldText (getProp row header)).

Definition csvLine (headers : list string) (row : obj) : string :=
  Str.join "," (map (csvField row) headers) +:+ Str.NL.

(** [objectsToCSV] of [split_translations.js]. *)
Definition objectsToCSV (data : list obj) (includeHeaders : bool) : string :=
  match data with
  | [] => EmptyString
  | _ :: _ =>
      let headers := fold_left collectHeaders data [] in
      fold_left (fun csv row => csv +:+ csvLine headers row) data
        (if includeHeaders then Csv.headerLine headers else EmptyString)
  end.

(** *** Flattening *)

(** The record pushed by [flattenTranslationForCSV] for one ayah. *)
Definition flatRow (d : document) (surahNum : string) (a : ayahEntry) : obj :=
  [("translation_key", JStr (translation_key d));
   ("language_code", JStr (language_code d));
   ("translation_title", translation_title d);
   ("translation_version", or (translation_version d) (JStr EmptyString));
   ("surah", JStr surahNum);
   ("ayah", ayah a);
   ("arabic_text", arabic_text a);
   ("translation", translation a);
   ("footnotes", or (footnotes a) (JStr EmptyString))].

(** [flattenTranslationForCSV]: [for .. in] over the surah mapping, then
    [for .. of] over each ayah list. *)
Definition flattenTranslationForCSV (d : document) : list obj :=
  concat (map (fun kv => map (flatRow d (fst kv)) (snd kv)) (entries (surahs d))).

(** *** Incremental JSON array reader *)

Definition isSeparator (c : ascii) : bool :=
  Ascii.eqb c Str.comma || Ascii.eqb c Str.nl || Ascii.eqb c Str.space.

(** The character loop over one [chunk]. [rest] is the text from index [i]
    on. [skipping] is true while the inner [while] is advancing
    [nextStart] over separators after a completed object, during which
    [startIdx] follows the index. The result is the objects yielded so
    far and the final [startIdx]. *)
Fixpoint scanChunk (chunk rest : string) (i startIdx : nat) (bracketCount : Z)
    (inString escapeNext skipping : bool) (yielded : list jsval)
    : list jsval * nat :=
  match rest with
  | EmptyString => (yielded, startIdx)
  | String char rest' =>
      if skipping && isSeparator char then
        scanChunk chunk rest' (S i) (S i) bracketCount inString escapeNext true yielded
      else if escapeNext then
        scanChunk chunk rest' (S i) startIdx bracketCount inString false false yielded
      else if Ascii.eqb char Str.backslash then
        scanChunk chunk rest' (S i) startIdx bracketCount inString true false yielded
      else if Ascii.eqb char Str.quote then
        scanChunk chunk rest' (S i) startIdx bracketCount (negb inString) false false yielded
      else if negb inString then
        if Ascii.eqb char "{" then
          scanChunk chunk rest' (S i) startIdx (bracketCount + 1) inString false false yielded
        else if Ascii.eqb char "}" then
          if bracketCount - 1 =? 0 then
            let jsonStr := String.substring startIdx (S i - startIdx) chunk in
            let yielded' :=
              match JSON.parse jsonStr with
              | Some o => yielded ++ [o]
              | None => yielded
              end in
            scanChunk chunk rest' (S i) (S i) 0 inString false true yielded'
          else
            scanChunk chunk rest' (S i) startIdx (bracketCount - 1) inString false false yielded
        else
          scanChunk chunk rest' (S i) startIdx bracketCount inString false false yielded
      else
        scanChunk chunk rest' (S i) startIdx bracketCount inString false false yielded
  end.

(** The [while (position < fileSize - 1)] loop. Each round reads at most
    [bufferLength] bytes at [position]; [fuel] bounds the rounds and the
    length of the file is enough of it, the position growing by at least
    one byte per round. *)
Fixpoint readLoop (fuel : nat) (file : string) (bufferLength position : nat)
    (leftover : string) (yielded : list jsval) : list jsval :=
  match fuel with
  | O => yielded
  | S f =>
      if Z.of_nat position <? Z.of_nat (String.length file) - 1 then
        let bytes := String.substring position bufferLength file in
        let bytesRead := String.length bytes in
        if (bytesRead =? 0)%nat then yielded
        else
          let chunk := leftover +:+ bytes in
          let '(yielded', startIdx) :=
            scanChunk chunk chunk 0 0 0 false false false yielded in
          readLoop f file bufferLength (position + bytesRead)
            (String.substring startIdx (String.length chunk - startIdx) chunk) yielded'
      else yielded
  end.

(** The objects the generator yields, in order, for a file with the given
    content read through a buffer of [bufferLength] bytes. *)
Definition readJsonWith (bufferLength : nat) (file : string) : list jsval :=
  readLoop (String.length file) file bufferLength 1 EmptyString [].

(** [Buffer.alloc(1024 * 1024)]. *)
Definition bufferLength : nat := Z.to_nat (1024 * 1024).

Definition readJsonInChunks (file : string) : list jsval :=
  readJsonWith bufferLength file.

(** *** Regrouping engine *)

(** [if (!m.has(k)) m.set(k, []); m.get(k).push(x)] on a [Map], whose
    iteration order is the order of first insertion. *)
Fixpoint mapPush {A} (m : list (string * list A)) (k : string) (x : A)
    : list (string * list A) :=
  match m with
  | [] => [(k, [x])]
  | (k', xs) :: r =>
      if String.eqb k' k then (k', xs ++ [x]) :: r
      else (k', xs) :: mapPush r k x
  end.

(** [m.get(k)] for a key that is present. *)
Fixpoint mapGet {A} (m : list (string * list A)) (k : string) : list A :=
  match m with
  | [] => []
  | (k', xs) :: r => if String.eqb k' k then xs else mapGet r k
  end.

Record organizeState : Type := mkOrganize {
  languageMap : list (string * list document);
  versionMap : list (string * list document);
  translationCount : Z
}.

Definition initialOrganize : organizeState :=
  {| languageMap := []; versionMap := []; translationCount := 0 |}.

Definition versionKey (d : document) : string :=
  language_code d +:+ "_"
  +:+ toString (or (translation_version d) (JStr "default")).

(** The in-memory part of one round of the [for await] loop. *)
Definition noteTranslation (st : organizeState) (d : document) : organizeState :=
  {| languageMap := mapPush (languageMap st) (language_code d) d;
     versionMap := mapPush (versionMap st) (versionKey d) d;
     translationCount := translationCount st + 1 |}.

(** The per-translation artifact pair, written when the directory of the
    translation exists. *)
Definition saveIndividual (d : document) : M unit :=
  let translationDir := joinPath ["datasets"; language_code d; translation_key d] in
  tryCatch
    (access translationDir ;;
     writeFile (joinPath [translationDir; "full_translation.json"])
       (JSON.stringify (documentToJs d)) ;;
     let flattenedData := flattenTranslationForCSV d in
     match flattenedData with
     | [] => ret tt
     | _ :: _ =>
         writeFile (joinPath [translationDir; "full_translation_flat.csv"])
           (objectsToCSV flattenedData true)
     end)
    (fun _ => ret tt).

Fixpoint organizeLoop (docs : list document) (st : organizeState) : M organizeState :=
  match docs with
  | [] => ret st
  | d :: rest =>
      let st' := noteTranslation st d in
      saveIndividual d ;;
      organizeLoop rest st'
  end.

Definition groupChunkSize : nat := Z.to_nat 10000.

(** [for (let i = 0; i < allFlattenedData.length; i += chunkSize)]: the
    first chunk is written with the header, the later ones appended. *)
Fixpoint groupCsvLoop (fuel : nat) (path : string) (allFlattenedData : list obj)
    (i : nat) : M unit :=
  match fuel with
  | O => ret tt
  | S f =>
      if (i <? length allFlattenedData)%nat then
        let chunk := take groupChunkSize (drop i allFlattenedData) in
        let isFirstChunk := (i =? 0)%nat in
        let csvContent := objectsToCSV chunk isFirstChunk in
        (if isFirstChunk then writeFile path csvContent
         else appendFile path csvContent) ;;
        groupCsvLoop f path allFlattenedData (i + groupChunkSize)%nat
      else ret tt
  end.

(** The combined JSON file and the combined CSV file of a group. *)
Definition writeGroup (languageDir jsonName csvName : string)
    (translations : list document) : M unit :=
  writeFile (joinPath [languageDir; jsonName])
    (JSON.stringify (JArr (map documentToJs translations))) ;;
  let allFlattenedData := concat (map flattenTranslationForCSV translations) in
  groupCsvLoop (length allFlattenedData) (joinPath [languageDir; csvName])
    allFlattenedData 0.

(** Both branches around [fs.access(languageDir)] write the same files;
    the handler creates the directory first. *)
Definition writeGroupIn (languageDir jsonName csvName : string)
    (translations : list document) : M unit :=
  tryCatch
    (access languageDir ;;
     writeGroup languageDir jsonName csvName translations)
    (fun _ =>
       ensureDir languageDir ;;
       writeGroup languageDir jsonName csvName translations).

Definition saveLanguage (entry : string * list document) : M unit :=
  let languageDir := joinPath ["datasets"; fst entry] in
  writeGroupIn languageDir
    "full_language_translations.json" "full_language_translations.csv" (snd entry).

(** [versionKey.split('_')], destructured into its first two pieces; a
    missing second piece is [undefined] and prints as such. *)
Definition splitVersionKey (versionKey : string) : string * string :=
  let pieces := Str.split Str.underscore versionKey in
  (default EmptyString (pieces !! 0%nat), default "undefined" (pieces !! 1%nat)).

Definition saveVersion (entry : string * list document) : M unit :=
  let '(language, version) := splitVersionKey (fst entry) in
  let languageDir := joinPath ["datasets"; language] in
  writeGroupIn languageDir
    ("version_" +:+ version +:+ "_translations.json")
    ("version_" +:+ version +:+ "_translations.csv") (snd entry).

(** The [versions] array of one language in the index. *)
Definition indexVersions (versionMap : list (string * list document)) (lang : string)
    : list jsval :=
  map (fun key =>
         match Str.split Str.underscore key !! 1%nat with
         | Some v => JStr v
         | None => JUndefined
         end)
    (filter (fun key => Str.startsWith (lang +:+ "_") key = true) (map fst versionMap)).

Definition indexLanguage (st : organizeState) (lang : string) : jsval :=
  JObj [("code", JStr lang);
        ("translation_count", JNum (Z.of_nat (length (mapGet (languageMap st) lang))));
        ("versions", JArr (indexVersions (versionMap st) lang))].

Definition indexData (st : organizeState) : jsval :=
  JObj [("total_translations", JNum (translationCount st));
        ("languages", JArr (map (indexLanguage st) (map fst (languageMap st))))].

Record organizeStats : Type := mkStats {
  statTranslationCount : Z;
  languageCount : nat;
  versionCount : nat
}.

(** [organizeTranslations], over the documents the reader yields. *)
Definition organizeTranslations (docs : list document) : M organizeStats :=
  let* st := organizeLoop docs initialOrganize in
  forEachM saveLanguage (languageMap st) ;;
  forEachM saveVersion (versionMap st) ;;
  writeFile (joinPath ["datasets"; "translations_index.json"])
    (JSON.stringify (indexData st)) ;;
  ret {| statTranslationCount := translationCount st;
         languageCount := length (languageMap st);
         versionCount := length (versionMap st) |}.

(** [main] of [split_translations.js], over the documents the reader
    yields: the consolidated file is probed first and nothing is done
    without it; an error of the [try] block is logged, not thrown again. *)
Definition main (docs : list document) : M unit :=
  tryCatch
    (let* found :=
       tryCatch (access (joinPath ["datasets"; "all_translations.json"]) ;; ret true)
         (fun _ => ret false) in
     if found then organizeTranslations docs ;; ret tt else ret tt)
    (fun _ => ret tt).

End Split.

(** ** Specification-side notions

    The definitions below do not come from the scripts: they name what the
    specification speaks about, so that the pipeline can be compared with
    it. *)

Module Spec.
Import Js World.

(** The surah endpoint as the specification gives it,
    [{base}/translation/sura/{key}/{surahNumber}], relative to the base:
    the key of the translation as it stands, then the surah number in
    decimal. *)
Definition surahRequest (key : string) (surahNumber : nat) : string :=
  "/translation/sura/" +:+ key +:+ "/" +:+ Str.ofNat surahNumber.

(** What one surah request contributes according to the specification: the
    verse list of a well-formed answer, nothing for a failed request or a
    malformed answer. The key is a string; another value stands for the
    text it prints as. *)
Definition surahVerses (remote : api) (translationKey : jsval) (surahNumber : nat)
    : list jsval :=
  match remote (surahRequest (toString translationKey) surahNumber) with
  | inl (JObj o) =>
      match getProp o "result" with
      | JArr verses => verses
      | _ => []
      end
  | _ => []
  end.

(** The pause after one surah request: the short one after an answer that
    could be read, the long one after an error. *)
Definition surahDelay (remote : api) (translationKey : jsval) (surahNumber : nat) : Z :=
  match remote (surahRequest (toString translationKey) surahNumber) with
  | inl JUndefined | inl JNull | inr _ => 1000
  | inl _ => 300
  end.

(** The requests and pauses of a fetch over the given surah numbers. *)
Definition fetchTrace (remote : api) (translationKey : jsval) (numbers : list nat)
    : list event :=
  concat (map (fun n => [Request (surahRequest (toString translationKey) n);
                         Delay (surahDelay remote translationKey n)]) numbers).

(** Re-grouping flat verse rows by their surah value: the rows of one
    surah, in row order, reduced to the four fields of an ayah entry. *)
Definition entryOfRow (row : obj) : Split.ayahEntry :=
  {| Split.ayah := getProp row "ayah";
     Split.arabic_text := getProp row "arabic_text";
     Split.translation := getProp row "translation";
     Split.footnotes := getProp row "footnotes" |}.

Fixpoint addToGroup (groups : list (string * list Split.ayahEntry)) (k : string)
    (e : Split.ayahEntry) : list (string * list Split.ayahEntry) :=
  match groups with
  | [] => [(k, [e])]
  | (k', es) :: r =>
      if String.eqb k' k then (k', es ++ [e]) :: r
      else (k', es) :: addToGroup r k e
  end.

Definition regroupStep (groups : list (string * list Split.ayahEntry)) (row : obj)
    : list (string * list Split.ayahEntry) :=
  addToGroup groups (toString (getProp row "surah")) (entryOfRow row).

Definition regroupBySurah (rows : list obj) : list (string * list Split.ayahEntry) :=
  fold_left regroupStep rows [].

(** The surah mapping as a finite map. *)
Definition asMapping (groups : list (string * list Split.ayahEntry))
    : gmap string (list Split.ayahEntry) :=
  list_to_map groups.

Definition isString (v : jsval) : Prop := ∃ s, v = JStr s.

(** A document of the kind the specification's round trip speaks of:
    every footnote is a string. *)
Definition stringFootnotes (d : Split.document) : Prop :=
  ∀ k es e, (k, es) ∈ Split.surahs d → e ∈ es → isString (Split.footnotes e).


(** The flushes of the document buffer in one run: the first call carries
    the first-chunk flag, the last one the final-chunk flag. *)
Fixpoint jsonFlushes (isFirstChunk : bool) (buffers : list (list jsval)) : M unit :=
  match buffers with
  | [] => ret tt
  | buffer :: rest =>
      let isFinalChunk := match rest with [] => true | _ => false end in
      bind (Ingest.saveJsonData buffer isFirstChunk isFinalChunk)
           (fun _ => jsonFlushes false rest)
  end.

(** The data lines of the given rows under the given header names. *)
Definition rowsText (headers : list string) (rows : list obj) : string :=
  Str.concat (map (Csv.csvLine headers) rows).




(** Records of uniform shape: every record lists the given keys. *)
Definition uniform (headers : list string) (rows : list obj) : Prop :=
  ∀ row, row ∈ rows → keys row = headers.

(** Reading a CSV text by the rule of RFC 4180: a quote opens or closes a
    quoted stretch (a doubled quote inside one closes and reopens it), and
    a line break ends a record unless it stands in a quoted stretch.
    [quoteState] tells whether the end of the text is inside a quoted
    stretch, [countRecords] how many records the text ends. *)
Fixpoint quoteState (inQuotes : bool) (s : string) : bool :=
  match s with
  | EmptyString => inQuotes
  | String c r =>
      if Ascii.eqb c Str.quote then quoteState (negb inQuotes) r
      else quoteState inQuotes r
  end.

Fixpoint countRecords (inQuotes : bool) (s : string) : nat :=
  match s with
  | EmptyString => O
  | String c r =>
      if Ascii.eqb c Str.quote then countRecords (negb inQuotes) r
      else if Ascii.eqb c Str.nl && negb inQuotes then S (countRecords false r)
      else countRecords inQuotes r
  end.

(** A text that ends no record and ends outside quotes. *)
Definition quiet (s : string) : Prop :=
  countRecords false s = O ∧ quoteState false s = false.

(** A column name that needs no quoting in the header row. *)
Definition plainName (s : string) : Prop := Csv.needsQuoting s = false.

(** The separator between two documents of the consolidated JSON file. *)
Definition commaLine : string := "," +:+ Str.NL.

(** What the flushes of one run append after the array start: every
    document of a flush that is not the final one is followed by a comma;
    in the final flush the last document is not, and the array end
    follows it; a final flush of an empty buffer appends nothing. *)
Fixpoint flushedText (buffers : list (list jsval)) : string :=
  match buffers with
  | [] => EmptyString
  | [final] =>
      match final with
      | [] => EmptyString
      | _ :: _ =>
          Str.join commaLine (map JSON.stringify final) +:+ Str.NL +:+ "]"
      end
  | buffer :: rest =>
      Str.concat (map (fun d => JSON.stringify d +:+ commaLine) buffer)
      +:+ flushedText rest
  end.

(** The text has no occurrence of the character. *)
Definition free (c : ascii) (s : string) : Prop := Str.includes c s = false.

(** A language code that can serve as one path segment and as the head of
    a version key: not empty, without underscore and without slash. *)
Definition plainCode (s : string) : Prop :=
  s ≠ EmptyString ∧ free Str.underscore s ∧ free "/" s.

(** The version under which the regrouping engine files a document. *)
Definition versionLabel (d : Split.document) : string :=
  toString (or (Split.translation_version d) (JStr "default")).

(** The columns of a flattened row. *)
Definition flatHeaders : list string :=
  ["translation_key"; "language_code"; "translation_title";
   "translation_version"; "surah"; "ayah"; "arabic_text"; "translation";
   "footnotes"].

Definition isFlatRow (row : obj) : Prop :=
  ∃ d k a, row = Split.flatRow d k a.

(** The Map after the elements of a list are pushed under their keys. *)
Definition pushAll {A} (key : A → string) (l : list A) (m : list (string * list A))
    : list (string * list A) :=
  fold_left (fun m x => Split.mapPush m (key x) x) l m.

(** The path of a version file of a language. *)
Definition versionPath (language version extension : string) : string :=
  "datasets/" +:+ language +:+ "/version_" +:+ version
  +:+ "_translations." +:+ extension.

(** A version key made of a plain language code and a version without
    underscore. *)
Definition goodKey (key : string) : Prop :=
  ∃ l v, key = l +:+ "_" +:+ v ∧ plainCode l ∧ free Str.underscore v.

(** The documents of the stream filed under the given version key, in
    stream order. *)
Definition versionGroup (docs : list Split.document) (key : string)
    : list Split.document :=
  filter (fun d => Split.versionKey d = key) docs.

(** The combined JSON text and the combined CSV text of a group. *)
Definition groupJson (translations : list Split.document) : string :=
  JSON.stringify (JArr (map Split.documentToJs translations)).

Definition groupCsv (translations : list Split.document) : string :=
  Csv.headerLine flatHeaders
  +:+ rowsText flatHeaders (concat (map Split.flattenTranslationForCSV translations)).

(** The files after the two artifacts of a group are written: the JSON
    file always, the CSV file when the group has a row. *)
Definition groupFiles (languageDir jsonName csvName : string)
    (translations : list Split.document) (fs : gmap string string)
    : gmap string string :=
  let withJson := <[joinPath [languageDir; jsonName] := groupJson translations]> fs in
  match concat (map Split.flattenTranslationForCSV translations) with
  | [] => withJson
  | _ :: _ => <[joinPath [languageDir; csvName] := groupCsv translations]> withJson
  end.

(** *** Reading a whole CSV text

    The rule of RFC 4180 for a text of records: a separator counts only
    outside quoted stretches. [cut] gives the pieces of a text between the
    occurrences of a separator that stand outside quotes; a text is read by
    cutting it at the line breaks, each line at the commas, and decoding
    every field. The text must end with a line break. *)

Definition consHead (c : ascii) (pieces : list string) : list string :=
  match pieces with
  | [] => [String c EmptyString]
  | p :: rest => String c p :: rest
  end.

Fixpoint cut (sep : ascii) (inQuotes : bool) (s : string) : list string :=
  match s with
  | EmptyString => [EmptyString]
  | String c r =>
      if Ascii.eqb c Str.quote then consHead c (cut sep (negb inQuotes) r)
      else if Ascii.eqb c sep && negb inQuotes then EmptyString :: cut sep false r
      else consHead c (cut sep inQuotes r)
  end.

Fixpoint readAll {A B} (f : A → option B) (l : list A) : option (list B) :=
  match l with
  | [] => Some []
  | x :: r =>
      match f x, readAll f r with
      | Some y, Some ys => Some (y :: ys)
      | _, _ => None
      end
  end.

Definition readRecord (line : string) : option (list string) :=
  readAll Csv.decodeField (cut Str.comma false line).

Definition readCsv (text : string) : option (list (list string)) :=
  let lines := cut Str.nl false text in
  match last lines with
  | Some EmptyString => readAll readRecord (removelast lines)
  | _ => None
  end.

(** The cells of a record under the given columns, as texts. *)
Definition cells (headers : list string) (row : obj) : list string :=
  map (fun header => Csv.fieldText (getProp row header)) headers.

(** *** Verses as the per-translation writer expects them *)

(** A verse the callback of [processedData] accepts: an object whose
    translation is a string and whose footnotes are a string or falsy. *)
Definition wellFormedVerse (v : jsval) : bool :=
  match v with
  | JObj o =>
      match getProp o "translation" with
      | JStr _ =>
          match getProp o "footnotes" with
          | JStr _ => true
          | f => negb (truthy f)
          end
      | _ => false
      end
  | _ => false
  end.

Definition textOf (v : jsval) : string :=
  match v with
  | JStr s => s
  | _ => EmptyString
  end.

(** The text of a value with every line break turned into a space. *)
Definition spaced (v : jsval) : string :=
  Str.replaceAll Str.nl " " (textOf v).

(** The row derived from a well-formed verse. *)
Definition processedRow (v : jsval) : obj :=
  let get k := default JUndefined (member v k) in
  [("surah", get "sura");
   ("ayah", get "aya");
   ("arabic_text", get "arabic_text");
   ("translation", JStr (spaced (get "translation")));
   ("footnotes", JStr (spaced (get "footnotes")))].

Definition isObject (v : jsval) : Prop := ∃ o, v = JObj o.

(** The records of a run: the error record and the success record that
    [processTranslation] returns. *)
Definition errorRecord (key language : jsval) (message : string) : jsval :=
  JObj [("key", key); ("language", language); ("error", JStr message)].

Definition successRecord (key language : jsval) (count : nat) (json_data : jsval) : jsval :=
  JObj [("key", key); ("language", language);
        ("ayah_count", JNum (Z.of_nat count)); ("json_data", json_data)].

(** The documents of the stream in the given language, in stream order,
    and the paths of the combined files of a language. *)
Definition languageGroup (docs : list Split.document) (language : string)
    : list Split.document :=
  filter (fun d => Split.language_code d = language) docs.



(** A field of a CSV line: in one piece under both separators, and
    closed. *)
Definition sealedField (f : string) : Prop :=
  cut Str.comma false f = [f] ∧ quiet f.

(** *** The steps of the per-translation writer *)

(** The verses that the requests for the 114 surahs of a translation
    bring, in order. *)
Definition fetched (remote : api) (k : string) : list jsval :=
  concat (map (surahVerses remote (JStr k)) (seq 1 114)).

(** The world after the first steps of [processTranslation]: the
    directory, the metadata file, and the requests of the fetch. *)
Definition prepared (remote : api) (translation : jsval) (k l : string) (w : world)
    : world :=
  let dir := joinPath ["datasets"; l; k] in
  {| dirs := dirs w ∪ list_to_set (ancestors dir);
     files := <[dir +:+ "/metadata.json" := JSON.stringify translation]> (files w);
     trace := trace w
              ++ [Mkdir dir; WriteFile (dir +:+ "/metadata.json") (JSON.stringify translation)]
              ++ fetchTrace remote (JStr k) (seq 1 114) |}.

(** The world in which the surah files are written: the given world with
    the full CSV file. *)
Definition withFull (w1 : world) (dir : string) (rows : list obj) : world :=
  {| dirs := dirs w1;
     files := <[dir +:+ "/full_translation.csv" := Csv.objectsToCSV rows true]> (files w1);
     trace := trace w1 ++ [WriteFile (dir +:+ "/full_translation.csv")
                             (Csv.objectsToCSV rows true)] |}.

(** The path of the file of a surah group. *)
Definition surahPath (dir : string) (entry : string * list obj) : string :=
  dir +:+ "/" +:+ Ingest.surahFileName (fst entry).

(** The key under which the grouping loops file a row. *)
Definition surahKey (row : obj) : string := toString (getProp row "surah").


Definition numeralKey (s : string) : Prop := ∃ n : N, s = Str.ofZ (Z.of_N n).

(** A text of zeros, and the number in the name of a surah file. *)
Definition zeros (k : nat) : string := String.string_of_list_ascii (repeat "0"%char k).

Definition surahNumber (name : string) : option N :=
  match JSON.dropPrefix "surah_" name with
  | Some t => digitsVal 0%N (fst (JSON.spanDigits t))
  | None => None
  end.

(** *** Values as JSON text keeps them *)

Fixpoint distinct (l : list string) : bool :=
  match l with
  | [] => true
  | x :: r => negb (existsb (String.eqb x) r) && distinct r
  end.

(** A value within the model of JSON text: no object lists a property
    name twice, and every number is an integer that a double holds
    exactly. *)
Fixpoint clean (v : jsval) : bool :=
  match v with
  | JNum n => Z.abs n <=? 9007199254740991
  | JArr l => forallb clean l
  | JObj o => distinct (map fst o) && forallb (fun kv => clean (snd kv)) o
  | _ => true
  end.

(** The value that the text of a value stands for: the properties of an
    object in enumeration order, without those that are [undefined], and
    [null] for an [undefined] element of an array. *)
Fixpoint norm (v : jsval) : jsval :=
  match v with
  | JArr l =>
      JArr (map (fun x => match x with
                          | JUndefined => JNull
                          | _ => norm x
                          end) l)
  | JObj o =>
      let normed :=
        map (fun kv => (fst kv, match snd kv with
                                | JUndefined => None
                                | _ => Some (norm (snd kv))
                                end)) o in
      JObj (omap (fun kv => option_map (pair (fst kv)) (snd kv)) (entries normed))
  | _ => v
  end.

(** A text of white space. *)
Fixpoint white (s : string) : bool :=
  match s with
  | EmptyString => true
  | String c r => JSON.isWs c && white r
  end.

(** An element of an array as [JSON.stringify] writes it, and as it is
    read back. *)
Definition elementText (indent : string) (x : jsval) : string :=
  default "null" (JSON.serialize indent x).

Definition elementValue (x : jsval) : jsval :=
  match x with
  | JUndefined => JNull
  | _ => norm x
  end.

(** A property of an object as [JSON.stringify] writes it, and as it is
    read back. *)
Definition memberText (indent : string) (kv : string * jsval) : option string :=
  match JSON.serialize indent (snd kv) with
  | Some t => Some (JSON.quoteString (fst kv) +:+ ": " +:+ t)
  | None => None
  end.

Definition memberValue (kv : string * jsval) : option (string * jsval) :=
  match snd kv with
  | JUndefined => None
  | _ => Some (fst kv, norm (snd kv))
  end.

(** What may follow the text of a value: nothing, or a character that
    does not continue a number. *)
Definition stops (rest : string) : Prop :=
  match rest with
  | EmptyString => True
  | String c _ =>
      digitVal c = None ∧ Ascii.eqb c "." = false
      ∧ Ascii.eqb c "e" = false ∧ Ascii.eqb c "E" = false
  end.

(** A character that the scanner of the reader steps over outside and
    inside a string literal alike. *)
Definition inertChar (c : ascii) : bool :=
  negb (Ascii.eqb c Str.backslash || Ascii.eqb c Str.quote
        || Ascii.eqb c "{" || Ascii.eqb c "}").

Fixpoint inert (s : string) : bool :=
  match s with
  | EmptyString => true
  | String c r => inertChar c && inert r
  end.

(** The scanner of the reader, outside a string literal and at depth
    [d], steps over the text [a] and comes out as it went in. *)
Definition passes (d : Z) (a : string) : Prop :=
  ∀ (chunk rest : string) (i startIdx : nat) (yielded : list jsval),
    Split.scanChunk chunk (a +:+ rest) i startIdx d false false false yielded
    = Split.scanChunk chunk rest (String.length a + i) startIdx d false false false yielded.

(** The consolidated file of a run that completes: the array start, the
    documents separated by a comma and a line break, the array end. *)
Definition arrayText (docs : list jsval) : string :=
  "[" +:+ Str.NL +:+ Str.join ("," +:+ Str.NL) (map JSON.stringify docs)
  +:+ Str.NL +:+ "]".

(** A value that its text keeps whole: nothing in it is [undefined], and
    every object lists its properties in enumeration order. *)
Fixpoint settled (v : jsval) : Prop :=
  match v with
  | JUndefined => False
  | JArr l => fold_right (fun x rest => settled x ∧ rest) True l
  | JObj o =>
      entries o = o ∧ fold_right (fun kv rest => settled (snd kv) ∧ rest) True o
  | _ => True
  end.

(** The consolidated file of a run whose final flush found its buffer
    empty: the array start and every document followed by a comma and a
    line break. *)
Definition openText (docs : list jsval) : string :=
  "[" +:+ Str.NL +:+ Str.concat (map (fun d => JSON.stringify d +:+ "," +:+ Str.NL) docs).

(** The first character of the text of a value: what tells the reader
    which kind of value follows. *)
Definition opener (c : ascii) : Prop :=
  JSON.isWs c = false ∧ Ascii.eqb c "]" = false ∧ Ascii.eqb c "}" = false.

(** What the induction over values carries: the reader, given fuel
    beyond the length of the text of the value, returns the value the
    text stands for and the text that follows. *)
Definition reads (v : jsval) : Prop :=
  clean v = true →
  ∀ (indent t ws rest : string) (fuel : nat),
    JSON.serialize indent v = Some t → white indent = true → white ws = true →
    stops rest → (String.length t < fuel)%nat →
    JSON.parseValue fuel (ws +:+ t +:+ rest) = Some (norm v, rest).

(** *** The inputs and worlds on which the embedding follows the scripts

    The embedding prints every value and lets every write succeed. The
    scripts do otherwise on some inputs: printing an object that has a
    property [toString] of its own throws, a number from 10^21 on prints
    with an exponent, a name that every object inherits reads as a
    function, and a write fails where a regular file stands for a
    directory, where a directory stands for the file, or where a name does
    not fit a file system. The predicates below delimit the inputs and
    the worlds without these cases. *)

(** A value that prints without an error, digit by digit: a number is an
    integer that a double holds exactly, an object has no property
    [toString] of its own, an array holds such values. *)
Fixpoint printable (v : jsval) : bool :=
  match v with
  | JNum n => Z.abs n <=? 9007199254740991
  | JArr l => forallb printable l
  | JObj o => negb (existsb (String.eqb "toString") (map fst o))
  | _ => true
  end.

(** A value that [JSON.stringify] and the CSV writer both print as the
    embedding does. *)
Definition exact (v : jsval) : bool := clean v && printable v.

Definition exactAyah (a : Split.ayahEntry) : bool :=
  exact (Split.ayah a) && exact (Split.arabic_text a)
  && exact (Split.translation a) && exact (Split.footnotes a).

Definition exactDocument (d : Split.document) : bool :=
  exact (Split.translation_title d) && exact (Split.translation_version d)
  && distinct (map fst (Split.surahs d))
  && forallb (fun kv => forallb exactAyah (snd kv)) (Split.surahs d).


(** A name that fits a file system: no slash, no NUL character, at most
    200 bytes, which leaves room for the fixed parts of a file name. *)
Definition fileWord (s : string) : Prop :=
  free "/" s ∧ free "000" s ∧ (String.length s ≤ 200)%nat.

(** A name of a directory: a path segment that fits a file system. *)
Definition directoryName (s : string) : Prop :=
  s ≠ EmptyString ∧ s ≠ "." ∧ s ≠ ".." ∧ fileWord s.

Definition lowercase (c : ascii) : bool :=
  let n := N_of_ascii c in ((97 <=? n) && (n <=? 122))%N.

Fixpoint letters (s : string) : bool :=
  match s with
  | EmptyString => true
  | String c r => lowercase c && letters r
  end.

(** A language code as §3 types it: a word of lowercase letters, at most
    eight of them. *)
Definition languageCode (s : string) : Prop :=
  s ≠ EmptyString ∧ letters s = true ∧ (String.length s ≤ 8)%nat.

(** A version as §3 types it, a string, or no version at all; the string
    fits a file name. *)
Definition versionText (v : jsval) : Prop :=
  match v with
  | JUndefined | JNull => True
  | JStr s => fileWord s
  | _ => False
  end.

(** A document of the stream as §3 types it. *)
Definition typedDocument (d : Split.document) : Prop :=
  languageCode (Split.language_code d)
  ∧ versionText (Split.translation_version d)
  ∧ exactDocument d = true.

(** A catalogue entry as §3 types it, as far as the driver prints it and
    makes paths of it: the key, the title and the version print, a key
    that is a string names a directory, and so does the language code. *)
Definition typedEntry (v : jsval) : Prop :=
  ∃ o, v = JObj o
       ∧ clean v = true
       ∧ printable (getProp o "key") = true
       ∧ printable (getProp o "title") = true
       ∧ printable (getProp o "version") = true
       ∧ (∀ k, getProp o "key" = JStr k → directoryName k)
       ∧ (∀ l, getProp o "language_iso_code" = JStr l → languageCode l).

(** The files of the pipeline are JSON and CSV files. *)
Definition dataFile (path : string) : bool :=
  Str.endsWith ".json" path || Str.endsWith ".csv" path.

(** The directory [dir] can be made and data files written below it: no
    regular file stands at [dir] or above it, and no directory has the
    name of a data file. *)
Definition writable (w : world) (dir : string) : Prop :=
  (∀ p, p ∈ ancestors dir → files w !! p = None)
  ∧ (∀ p, p ∈ dirs w → dataFile p = false).

(** The part of a version before its first underscore: what is left of
    the version when the version key is split at its underscores. *)
Fixpoint versionHead (version : string) : string :=
  match version with
  | EmptyString => EmptyString
  | String c r =>
      if Ascii.eqb c Str.underscore then EmptyString
      else String c (versionHead r)
  end.



End Spec.

(** ** Sample inputs *)

Module Samples.
Import Js World.

(** A verse object as the remote source answers it. *)
Definition verse (sura aya : Z) : jsval :=
  JObj [("id", JNum aya);
        ("sura", JNum sura);
        ("aya", JNum aya);
        ("arabic_text", JStr "bismi");
        ("translation", JStr "In the name of God");
        ("footnotes", JStr EmptyString)].

(** A catalogue entry. *)
Definition entry (key : string) : jsval :=
  JObj [("key", JStr key);
        ("language_iso_code", JStr "en");
        ("title", JStr "Sample");
        ("version", JStr "1.0")].

Definition answer (verses : list jsval) : jsval + string :=
  inl (JObj [("result", JArr verses)]).

Definition notFound : jsval + string :=
  inr "API request failed with status 404".

Definition catalogue (entries : list jsval) (rest : api) : api :=
  fun endpoint =>
    if String.eqb endpoint "/translations/list"
    then inl (JObj [("translations", JArr entries)])
    else if String.eqb endpoint "/translations/languages"
    then inl (JObj [("languages", JArr [JObj [("iso_code", JStr "en")]])])
    else rest endpoint.

(** One translation whose surah 1 has the single verse 1:7. *)
Definition oneVerse : api :=
  catalogue [entry "k"]
    (fun endpoint =>
       if String.eqb endpoint "/translation/sura/k/1"
       then answer [verse 1 7] else notFound).

(** One translation for which every surah request fails. *)
Definition noVerses : api :=
  catalogue [entry "k"] (fun _ => notFound).

Definition numberedKey (n : nat) : string := "t" +:+ Str.ofNat n.

(** Twenty-two translations: the first twenty-one have one verse each,
    the last one has none. *)
Definition lastHasNone : api :=
  catalogue (map (fun n => entry (numberedKey n)) (seq 1 22))
    (fun endpoint =>
       if existsb (fun n => String.eqb endpoint
                              ("/translation/sura/" +:+ numberedKey n +:+ "/1"))
            (seq 1 21)
       then answer [verse 1 1] else notFound).

(** Two hierarchical documents in plain characters. *)
Definition plainDocument (key : string) : jsval :=
  JObj [("translation_key", JStr key);
        ("language_code", JStr "en");
        ("translation_title", JStr "Sample");
        ("translation_version", JStr "1.0");
        ("surahs",
         JObj [("1", JArr [JObj [("ayah", JNum 1);
                                 ("arabic_text", JStr "bismi");
                                 ("translation", JStr "In {the} name");
                                 ("footnotes", JStr EmptyString)]])])].

(** The consolidated file after one flush that is both first and final. *)
Definition twoDocumentFile : string :=
  default EmptyString
    (files (snd (Ingest.saveJsonData [plainDocument "a"; plainDocument "b"]
                   true true emptyWorld))
     !! Ingest.allJsonPath).

(** A text of [n] letters, and a document whose title is such a text. *)
Fixpoint padding (n : nat) : string :=
  match n with
  | O => EmptyString
  | S m => String "a" (padding m)
  end.

Definition paddedDocument (n : nat) : jsval :=
  JObj [("translation_key", JStr "a");
        ("language_code", JStr "en");
        ("translation_title", JStr (padding n));
        ("translation_version", JStr "1.0");
        ("surahs",
         JObj [("1", JArr [JObj [("ayah", JNum 1);
                                 ("arabic_text", JStr "bismi");
                                 ("translation", JStr "In the name of God");
                                 ("footnotes", JStr EmptyString)]])])].

(** The title length at which the line break after the array start and
    the text of the document fill one buffer of the reader exactly. *)
Definition fillingLength : nat :=
  Split.bufferLength - 1 - String.length (JSON.stringify (paddedDocument 0)).

(** The consolidated file of such a document followed by a small one. *)
Definition alignedFile : string :=
  default EmptyString
    (files (snd (Ingest.saveJsonData
                   [paddedDocument fillingLength; plainDocument "b"]
                   true true emptyWorld))
     !! Ingest.allJsonPath).

(** The keys of the translations in a list of parsed documents. *)
Definition translationKeys (docs : list jsval) : list (option jsval) :=
  map (fun d => member d "translation_key") docs.

Definition oneAyah : Split.ayahEntry :=
  {| Split.ayah := JNum 1;
     Split.arabic_text := JStr "bismi";
     Split.translation := JStr "In the name of God";
     Split.footnotes := JStr EmptyString |}.

Definition documentOf (key language : string) (version : jsval)
    (surahs : list (string * list Split.ayahEntry)) : Split.document :=
  {| Split.translation_key := key;
     Split.language_code := language;
     Split.translation_title := JStr "Sample";
     Split.translation_version := version;
     Split.surahs := surahs |}.

(** A document with two surahs, listed out of numeric order. *)
Definition twoSurahDocument : Split.document :=
  documentOf "k" "en" (JStr "1.0") [("2", [oneAyah; oneAyah]); ("1", [oneAyah])].

(** A document with one surah that has no ayah. *)
Definition emptySurahDocument : Split.document :=
  documentOf "k" "en" (JStr "1.0") [("1", [])].


(** A stream of three documents; the first and the last have no version. *)
Definition mixedStream : list Split.document :=
  [documentOf "a" "en" JUndefined [("1", [oneAyah])];
   documentOf "b" "en" (JStr "1.0") [("1", [oneAyah])];
   documentOf "c" "fr" JNull [("1", [oneAyah])]].

(** Enriched records as the driver buffers them. *)
Definition enriched (key : string) (surah : Z) : obj :=
  Ingest.enhancedRow (JStr key) (JStr "en") (JStr "Sample") (JStr "1.0")
    [("surah", JNum surah); ("ayah", JNum 1); ("arabic_text", JStr "bismi");
     ("translation", JStr "In the name of God"); ("footnotes", JStr EmptyString)].

Definition twoBuffers : list (list obj) :=
  [[enriched "a" 1; enriched "a" 2]; [enriched "b" 1]].

(** A world in which stage 1 has left the directory of a language. *)
Definition afterIngest : world :=
  {| dirs := {[ "datasets"; "datasets/en" ]}; files := ∅; trace := [] |}.

(** A world in which stage 1 has left the directory of the translation
    [k] as well. *)
Definition afterTranslation : world :=
  {| dirs := {[ "datasets"; "datasets/en"; "datasets/en/k" ]};
     files := ∅; trace := [] |}.


(** A record with a field that needs quoting and a field without value. *)
Definition quotedRow : obj :=
  [("surah", JNum 1); ("translation", JStr Csv.sampleField); ("footnotes", JNull)].

(** The properties of the catalogue entry with the given key. *)
Definition entryFields (key : string) : obj :=
  [("key", JStr key);
   ("language_iso_code", JStr "en");
   ("title", JStr "Sample");
   ("version", JStr "1.0")].


End Samples.

(** * Properties *)

Import Js World.

(** Splits a goal into the conjuncts of its statement, nothing more. *)
Ltac conjuncts :=
  repeat match goal with |- _ ∧ _ => split end.

(** ** Strings *)

Lemma append_cons (x : ascii) (a b : string) :
  String x a +:+ b = String x (a +:+ b).
Proof. reflexivity. Qed.

Lemma append_nil_l (b : string) : EmptyString +:+ b = b.
Proof. reflexivity. Qed.

Lemma append_assoc (a b c : string) : (a +:+ b) +:+ c = a +:+ (b +:+ c).
Proof.
  induction a as [|x a IH]; [reflexivity|].
  rewrite !append_cons, IH. reflexivity.
Qed.

Lemma append_nil_r (a : string) : a +:+ EmptyString = a.
Proof.
  induction a as [|x a IH]; [reflexivity|].
  rewrite append_cons, IH. reflexivity.
Qed.

Lemma append_not_nil (a b : string) : a ≠ EmptyString → a +:+ b ≠ EmptyString.
Proof. destruct a; [contradiction|]. intros _. rewrite append_cons. discriminate. Qed.

Lemma strconcat_app (l1 l2 : list string) :
  Str.concat (l1 ++ l2) = Str.concat l1 +:+ Str.concat l2.
Proof.
  induction l1 as [|x l1 IH]; cbn [Str.concat app]; [reflexivity|].
  rewrite IH, append_assoc. reflexivity.
Qed.


Lemma includes_cons (c d : ascii) (s : string) :
  Str.includes c (String d s) = false ↔ Ascii.eqb d c = false ∧ Str.includes c s = false.
Proof.
  simpl. destruct (Ascii.eqb d c); split; intros H; try discriminate; auto.
  - destruct H; discriminate.
  - destruct H; assumption.
Qed.

Lemma not_free_middle (c : ascii) (a r : string) :
  ¬ Spec.free c (a +:+ String c r).
Proof.
  unfold Spec.free. induction a as [|x a IH].
  - rewrite append_nil_l. simpl. rewrite Ascii.eqb_refl. discriminate.
  - rewrite append_cons. simpl. destruct (Ascii.eqb x c); [discriminate | exact IH].
Qed.

(** Two texts that agree and whose heads are free of a character agree up
    to its first occurrence and after it. *)
Lemma split_first (c : ascii) (a a' r r' : string) :
  Spec.free c a → Spec.free c a' →
  a +:+ String c r = a' +:+ String c r' → a = a' ∧ r = r'.
Proof.
  revert a'. induction a as [|x a IH]; intros [|x' a'] Ha Ha' H.
  - rewrite !append_nil_l in H. injection H as ->. auto.
  - rewrite append_nil_l, append_cons in H. injection H as <- _.
    apply includes_cons in Ha'. destruct Ha' as [Hx _].
    rewrite Ascii.eqb_refl in Hx. discriminate.
  - rewrite append_nil_l, append_cons in H. injection H as -> _.
    apply includes_cons in Ha. destruct Ha as [Hx _].
    rewrite Ascii.eqb_refl in Hx. discriminate.
  - rewrite !append_cons in H. injection H as -> H.
    apply includes_cons in Ha. apply includes_cons in Ha'.
    destruct (IH a' (proj2 Ha) (proj2 Ha') H) as [-> ->]. auto.
Qed.

Lemma startsWith_app (p s : string) : Str.startsWith p (p +:+ s) = true.
Proof.
  induction p as [|a p IH]; [reflexivity|].
  rewrite append_cons. cbn [Str.startsWith]. rewrite Ascii.eqb_refl. exact IH.
Qed.

Lemma startsWith_head (c : ascii) (a b r s : string) :
  Spec.free c a → Spec.free c b →
  Str.startsWith (a +:+ String c r) (b +:+ String c s) = true → a = b.
Proof.
  revert b. induction a as [|x a IH]; intros [|y b] Ha Hb H.
  - reflexivity.
  - rewrite append_nil_l, append_cons in H. cbn [Str.startsWith] in H.
    apply includes_cons in Hb. destruct Hb as [Hy _].
    rewrite Ascii.eqb_sym, Hy in H. discriminate.
  - rewrite append_nil_l, append_cons in H. cbn [Str.startsWith] in H.
    apply includes_cons in Ha. destruct Ha as [Hx _].
    rewrite Hx in H. discriminate.
  - rewrite !append_cons in H. cbn [Str.startsWith] in H.
    apply includes_cons in Ha. apply includes_cons in Hb.
    destruct (Ascii.eqb x y) eqn:E; [|discriminate].
    apply Ascii.eqb_eq in E. subst y. f_equal.
    apply (IH b (proj2 Ha) (proj2 Hb) H).
Qed.

Lemma rev_app_rev_app (a b c : string) :
  String.rev_app (String.rev_app a b) c = String.rev_app b (a +:+ c).
Proof.
  revert b. induction a as [|x a IH]; intros b; [reflexivity|].
  cbn [String.rev_app]. rewrite IH. reflexivity.
Qed.

Lemma rev_rev_app_nil (a : string) :
  String.rev (String.rev_app a EmptyString) = a.
Proof.
  unfold String.rev. rewrite rev_app_rev_app. cbn [String.rev_app].
  apply append_nil_r.
Qed.

Lemma splitGo_piece (c : ascii) (a : string) :
  Spec.free c a →
  ∀ cur r,
    Str.splitGo c cur (a +:+ String c r)
    = String.rev (String.rev_app a cur) :: Str.splitGo c EmptyString r.
Proof.
  induction a as [|x a IH]; intros Hf cur r.
  - rewrite append_nil_l. cbn [Str.splitGo String.rev_app].
    rewrite Ascii.eqb_refl. reflexivity.
  - apply includes_cons in Hf. destruct Hf as [Hx Hf].
    rewrite append_cons. cbn [Str.splitGo String.rev_app]. rewrite Hx.
    apply IH, Hf.
Qed.

Lemma splitGo_end (c : ascii) (a : string) :
  Spec.free c a →
  ∀ cur, Str.splitGo c cur a = [String.rev (String.rev_app a cur)].
Proof.
  induction a as [|x a IH]; intros Hf cur; [reflexivity|].
  apply includes_cons in Hf. destruct Hf as [Hx Hf].
  cbn [Str.splitGo String.rev_app]. rewrite Hx. apply IH, Hf.
Qed.

(** ** Effects on the world *)

Lemma extend_nil (w : world) : extend w [] = w.
Proof. destruct w. unfold extend. simpl. rewrite app_nil_r. reflexivity. Qed.

Lemma extend_extend (w : world) (a b : list event) :
  extend (extend w a) b = extend w (a ++ b).
Proof. unfold extend. simpl. rewrite <- app_assoc. reflexivity. Qed.



Lemma appendFile_existing (w : world) (path old text : string) :
  files w !! path = Some old →
  appendFile path text w
  = (Ok tt, written w path (old +:+ text) [AppendFile path text]).
Proof. intros H. unfold appendFile, written. rewrite H. reflexivity. Qed.

Lemma forEachM_returns {A} (f : A → M unit) :
  (∀ x w, ∃ w', f x w = (Ok tt, w')) →
  ∀ l w, ∃ w', forEachM f l w = (Ok tt, w').
Proof.
  intros Hf. induction l as [|x r IH]; intros w.
  - exists w. reflexivity.
  - cbn [forEachM]. unfold bind. destruct (Hf x w) as [w1 ->]. apply IH.
Qed.

(** ** CSV field encoding *)

Lemma needsQuoting_hasSpecial (s : string) :
  Csv.needsQuoting s = Csv.hasSpecial s.
Proof.
  unfold Csv.needsQuoting, Csv.hasSpecial.
  induction s as [|d r IH]; simpl; [reflexivity|].
  unfold Csv.isSpecial at 1.
  rewrite <- IH.
  destruct (Ascii.eqb d Str.comma), (Ascii.eqb d Str.nl), (Ascii.eqb d Str.quote);
    simpl; try reflexivity;
    repeat rewrite orb_true_r; try reflexivity;
    destruct (Str.includes Str.comma r); reflexivity.
Qed.

Lemma decodeQuoted_pair (r : string) :
  Csv.decodeQuoted (String Str.quote (String Str.quote r))
  = option_map (String Str.quote) (Csv.decodeQuoted r).
Proof. reflexivity. Qed.

Lemma decodeQuoted_plain (c : ascii) (r : string) :
  Ascii.eqb c Str.quote = false →
  Csv.decodeQuoted (String c r) = option_map (String c) (Csv.decodeQuoted r).
Proof. intros H. simpl. rewrite H. reflexivity. Qed.

Lemma decodeQuoted_doubled (s : string) :
  Csv.decodeQuoted
    (Str.replaceAll Str.quote Csv.twoQuotes s +:+ String Str.quote EmptyString)
  = Some s.
Proof.
  induction s as [|c r IH]; [reflexivity|].
  cbn [Str.replaceAll]. destruct (Ascii.eqb c Str.quote) eqn:Hc.
  - apply Ascii.eqb_eq in Hc. subst c.
    change (Csv.decodeQuoted
              (String Str.quote (String Str.quote
                 (Str.replaceAll Str.quote Csv.twoQuotes r
                  +:+ String Str.quote EmptyString)))
            = Some (String Str.quote r)).
    rewrite decodeQuoted_pair, IH. reflexivity.
  - change (Csv.decodeQuoted
              (String c (Str.replaceAll Str.quote Csv.twoQuotes r
                         +:+ String Str.quote EmptyString))
            = Some (String c r)).
    rewrite (decodeQuoted_plain _ _ Hc), IH. reflexivity.
Qed.

Lemma decodeField_bare (s : string) :
  Csv.needsQuoting s = false → Csv.decodeField s = Some s.
Proof.
  intros H. destruct s as [|c r]; [reflexivity|].
  unfold Csv.decodeField. rewrite H.
  destruct (Ascii.eqb c Str.quote) eqn:Hc; [|reflexivity].
  exfalso. unfold Csv.needsQuoting in H. simpl in H. rewrite Hc in H.
  rewrite orb_true_r in H. discriminate.
Qed.

(** Both scripts escape a field with the same callback; stage 2 first
    blanks the placeholder columns of rows that carry a nested mapping. *)
Lemma split_csvField_plain (row : obj) (header : string) :
  truthy (getProp row "surahs") = false →
  Split.csvField row header = Csv.csvField row header.
Proof.
  intros H. unfold Split.csvField, Csv.csvField. rewrite H, andb_false_r.
  reflexivity.
Qed.

(** C6. For every string field value the encoder writes the value between
    quotes with its quotes doubled exactly when the value holds a comma, a
    line break or a quote, and writes it bare otherwise; reading the
    written field by the CSV rule gives the value back; the sample field of
    the specification is such a value. *)
Theorem csv_field_roundtrip (s : string) :
  let written := Csv.csvEscape (Csv.fieldText (JStr s)) in
  written = (if Csv.hasSpecial s then Csv.wrapped s else s)
  ∧ Csv.decodeField written = Some s
  ∧ Csv.decodeField (Csv.csvEscape Csv.sampleField) = Some Csv.sampleField.
Proof.
  cbn zeta. change (Csv.fieldText (JStr s)) with s.
  split; [|split].
  - unfold Csv.csvEscape. rewrite needsQuoting_hasSpecial. reflexivity.
  - unfold Csv.csvEscape. destruct (Csv.needsQuoting s) eqn:Hq.
    + unfold Csv.decodeField. rewrite Ascii.eqb_refl. apply decodeQuoted_doubled.
    + apply decodeField_bare, Hq.
  - reflexivity.
Qed.

(** ** Records of a CSV text *)

Lemma quoteState_app (a b : string) :
  ∀ q, Spec.quoteState q (a +:+ b) = Spec.quoteState (Spec.quoteState q a) b.
Proof.
  induction a as [|c a IH]; intros q; [reflexivity|].
  rewrite append_cons. cbn [Spec.quoteState].
  destruct (Ascii.eqb c Str.quote); apply IH.
Qed.

Lemma countRecords_app (a b : string) :
  ∀ q,
    Spec.countRecords q (a +:+ b)
    = (Spec.countRecords q a + Spec.countRecords (Spec.quoteState q a) b)%nat.
Proof.
  induction a as [|c a IH]; intros q; [reflexivity|].
  rewrite append_cons. cbn [Spec.countRecords Spec.quoteState].
  destruct (Ascii.eqb c Str.quote) eqn:Hq.
  - apply IH.
  - destruct (Ascii.eqb c Str.nl && negb q) eqn:Hn.
    + rewrite IH. apply andb_true_iff in Hn. destruct Hn as [_ Hn].
      apply negb_true_iff in Hn. subst q. reflexivity.
    + apply IH.
Qed.

Lemma needsQuoting_cons (c : ascii) (s : string) :
  Csv.needsQuoting (String c s) = false →
  Ascii.eqb c Str.comma = false ∧ Ascii.eqb c Str.nl = false
  ∧ Ascii.eqb c Str.quote = false ∧ Csv.needsQuoting s = false.
Proof.
  unfold Csv.needsQuoting. cbn [Str.includes].
  intros H. apply orb_false_iff in H. destruct H as [H Hq].
  apply orb_false_iff in H. destruct H as [Hc Hn].
  destruct (Ascii.eqb c Str.comma); [discriminate|].
  destruct (Ascii.eqb c Str.nl); [discriminate|].
  destruct (Ascii.eqb c Str.quote); [discriminate|].
  rewrite Hc, Hn, Hq. auto.
Qed.

(** A text that needs no quoting ends no record and leaves the quote state
    as it is. *)
Lemma scan_bare (s : string) :
  Csv.needsQuoting s = false →
  ∀ q, Spec.countRecords q s = O ∧ Spec.quoteState q s = q.
Proof.
  induction s as [|c s IH]; intros H q; [split; reflexivity|].
  apply needsQuoting_cons in H. destruct H as (_ & Hn & Hq & H).
  cbn [Spec.countRecords Spec.quoteState]. rewrite Hq, Hn. cbn [andb].
  apply IH, H.
Qed.

(** Inside a quoted stretch the doubled text ends no record and stays
    inside. *)
Lemma scan_doubled (s : string) :
  Spec.countRecords true (Str.replaceAll Str.quote Csv.twoQuotes s) = O
  ∧ Spec.quoteState true (Str.replaceAll Str.quote Csv.twoQuotes s) = true.
Proof.
  induction s as [|c s IH]; [split; reflexivity|].
  cbn [Str.replaceAll]. destruct (Ascii.eqb c Str.quote) eqn:Hq.
  - change (Csv.twoQuotes +:+ Str.replaceAll Str.quote Csv.twoQuotes s)
      with (String Str.quote (String Str.quote
              (Str.replaceAll Str.quote Csv.twoQuotes s))).
    cbn [Spec.countRecords Spec.quoteState]. rewrite Ascii.eqb_refl. cbn [negb].
    exact IH.
  - cbn [Spec.countRecords Spec.quoteState]. rewrite Hq.
    rewrite andb_false_r. exact IH.
Qed.

Lemma scan_escaped (value : string) :
  Spec.countRecords false (Csv.csvEscape value) = O
  ∧ Spec.quoteState false (Csv.csvEscape value) = false.
Proof.
  unfold Csv.csvEscape. destruct (Csv.needsQuoting value) eqn:H.
  - cbn [Spec.countRecords Spec.quoteState]. rewrite Ascii.eqb_refl. cbn [negb].
    rewrite countRecords_app, quoteState_app.
    destruct (scan_doubled value) as [-> ->].
    cbn [Spec.countRecords Spec.quoteState]. rewrite Ascii.eqb_refl. split; reflexivity.
  - apply scan_bare, H.
Qed.

Lemma quiet_app (a b : string) : Spec.quiet a → Spec.quiet b → Spec.quiet (a +:+ b).
Proof.
  intros [Ha Ha'] [Hb Hb']. unfold Spec.quiet.
  rewrite countRecords_app, quoteState_app, Ha, Ha', Hb, Hb'. split; reflexivity.
Qed.

Lemma quiet_join (fields : list string) :
  Forall Spec.quiet fields → Spec.quiet (Str.join "," fields).
Proof.
  induction fields as [|f r IH]; intros H; [split; reflexivity|].
  apply Forall_cons in H. destruct H as [Hf Hr].
  destruct r as [|g r']; [exact Hf|].
  change (Str.join "," (f :: g :: r')) with (f +:+ "," +:+ Str.join "," (g :: r')).
  apply quiet_app; [exact Hf|]. apply quiet_app; [split; reflexivity|].
  apply IH, Hr.
Qed.



Lemma rowsText_app (hs : list string) (a b : list obj) :
  Spec.rowsText hs (a ++ b) = Spec.rowsText hs a +:+ Spec.rowsText hs b.
Proof. unfold Spec.rowsText. rewrite map_app. apply strconcat_app. Qed.



(** ** Verse fetcher *)

(** One round of the fetch loop never throws: it adds what the
    specification counts for the surah and leaves a request and a pause in
    the trace. *)
(** The endpoint the script builds is the one the specification names. *)
Lemma surahEndpoint_spec (key : jsval) (n : nat) :
  Ingest.surahEndpoint key n = Spec.surahRequest (toString key) n.
Proof. reflexivity. Qed.

Lemma fetchSurah_spec (remote : api) (key : jsval) (acc : list jsval) (n : nat)
    (w : world) :
  Ingest.fetchSurah remote key acc n w
  = (Ok (acc ++ Spec.surahVerses remote key n),
     extend w [Request (Spec.surahRequest (toString key) n);
               Delay (Spec.surahDelay remote key n)]).
Proof.
  unfold Ingest.fetchSurah, tryCatch, bind, fetchAPI, Spec.surahVerses,
    Spec.surahDelay, orThrow, delay, record, extend, ret, throw.
  rewrite surahEndpoint_spec.
  destruct (remote (Spec.surahRequest (toString key) n)) as [data|message]; simpl.
  - destruct data as [| |b|z|s|l|o]; simpl;
      rewrite ?app_nil_r, <- ?app_assoc; try reflexivity.
    destruct (getProp o "result"); simpl;
      rewrite ?app_nil_r, <- ?app_assoc; reflexivity.
  - rewrite app_nil_r, <- app_assoc. reflexivity.
Qed.

Lemma forSurahs_spec (remote : api) (key : jsval) (numbers : list nat) :
  ∀ (acc : list jsval) (w : world),
    Ingest.forSurahs remote key numbers acc w
    = (Ok (acc ++ concat (map (Spec.surahVerses remote key) numbers)),
       extend w (Spec.fetchTrace remote key numbers)).
Proof.
  induction numbers as [|n rest IH]; intros acc w.
  - simpl. unfold ret, Spec.fetchTrace. simpl.
    rewrite app_nil_r, extend_nil. reflexivity.
  - cbn [Ingest.forSurahs]. unfold bind at 1.
    rewrite fetchSurah_spec, IH, extend_extend.
    simpl. rewrite <- app_assoc. reflexivity.
Qed.

Lemma fetch_all_spec (remote : api) (key : jsval) (w : world) :
  Ingest.getTranslationForAllSurahs remote key w
  = (Ok (concat (map (Spec.surahVerses remote key) (seq 1 114))),
     extend w (Spec.fetchTrace remote key (seq 1 114))).
Proof.
  unfold Ingest.getTranslationForAllSurahs, Ingest.surahNumbers.
  rewrite forSurahs_spec. reflexivity.
Qed.

(** C8. For every translation key, a string, and every behaviour of the
    remote source, the verse fetcher returns normally; it asks the
    endpoint /translation/sura/{key}/{n} for the surahs n = 1 to 114 in
    ascending order, from /translation/sura/{key}/1 to
    /translation/sura/{key}/114, pausing after each request, 300 ms after
    an answer that could be read and 1000 ms after an error; a request
    that fails or answers without a verse list adds nothing, and the
    result is the concatenation, in ascending surah order, of the verse
    lists of the well-formed answers, each in the order the source gave. *)
Theorem fetcher_tolerates_failures (remote : api) (key : string) (w : world) :
  Ingest.getTranslationForAllSurahs remote (JStr key) w
  = (Ok (concat (map (Spec.surahVerses remote (JStr key)) (seq 1 114))),
     extend w (Spec.fetchTrace remote (JStr key) (seq 1 114)))
  ∧ Spec.surahRequest key 1 = "/translation/sura/" +:+ key +:+ "/1"
  ∧ Spec.surahRequest key 114 = "/translation/sura/" +:+ key +:+ "/114".
Proof.
  split; [apply fetch_all_spec|]. split; reflexivity.
Qed.

(** ** Verse records derived by the per-translation writer *)

(** A row of [processedData] has the five keys of the per-translation
    CSV; its [ayah] is the [aya] of the verse. *)
Lemma processAyah_shape (v : jsval) (w w' : world) (row : obj) :
  Ingest.processAyah v w = (Ok row, w') →
  ∃ s a t tr fn,
    member v "aya" = Some a
    ∧ row = [("surah", s); ("ayah", a); ("arabic_text", t);
             ("translation", JStr tr); ("footnotes", JStr fn)].
Proof.
  unfold Ingest.processAyah, bind, orThrow, ret, throw, Ingest.replaceNewlines.
  destruct (member v "sura") as [s|]; [|discriminate].
  destruct (member v "aya") as [a|]; [|discriminate].
  destruct (member v "arabic_text") as [t|]; [|discriminate].
  destruct (member v "translation") as [tr|]; [|discriminate].
  destruct tr; try discriminate.
  destruct (member v "footnotes") as [fn|]; [|discriminate].
  destruct (truthy fn).
  - destruct fn; try discriminate.
    intros H. injection H as <- _. eauto 10.
  - intros H. injection H as <- _. eauto 10.
Qed.

(** The three derived records read the property [aya] of such a row, which
    it does not have. *)
Lemma derived_records_without_ayah (v : jsval) (w w' : world) (row : obj)
    (key language title version : jsval) :
  Ingest.processAyah v w = (Ok row, w') →
  getProp (Ingest.parallelRow row) "ayah" = JUndefined
  ∧ getProp (Ingest.enhancedRow key language title version row) "ayah" = JUndefined
  ∧ member (Ingest.jsonAyah row) "ayah" = Some JUndefined.
Proof.
  intros H. apply processAyah_shape in H.
  destruct H as (s & a & t & tr & fn & _ & ->). repeat split.
Qed.

(** C1. Evaluation at a catalogue of one translation with the single verse
    1:7. The verse carries the ayah number 7 and the per-translation row
    keeps it, but the parallel-corpus row, the enriched record and the
    entry of the hierarchical document hold [undefined] in [ayah]: the
    column is empty in parallel_corpus.csv and all_translations.csv, and
    the field is missing from all_translations.json. *)
Theorem ayah_number_dropped :
  let w := snd (Ingest.main Samples.oneVerse emptyWorld) in
  member (Samples.verse 1 7) "aya" = Some (JNum 7)
  ∧ (∃ row,
        fst (Ingest.processAyah (Samples.verse 1 7) emptyWorld) = Ok row
        ∧ getProp row "ayah" = JNum 7
        ∧ getProp (Ingest.parallelRow row) "ayah" = JUndefined
        ∧ getProp (Ingest.enhancedRow (JStr "k") (JStr "en") (JStr "Sample")
                     (JStr "1.0") row) "ayah" = JUndefined
        ∧ member (Ingest.jsonAyah row) "ayah" = Some JUndefined)
  ∧ files w !! "datasets/en/k/full_translation.csv"
    = Some ("surah,ayah,arabic_text,translation,footnotes" +:+ Str.NL
            +:+ "1,7,bismi,In the name of God," +:+ Str.NL)
  ∧ files w !! "datasets/en/k/parallel_corpus.csv"
    = Some ("surah,ayah,arabic,translation" +:+ Str.NL
            +:+ "1,,bismi,In the name of God" +:+ Str.NL)
  ∧ files w !! Ingest.allCsvPath
    = Some ("translation_key,language_code,translation_title,translation_version,"
            +:+ "surah,ayah,arabic_text,translation,footnotes" +:+ Str.NL
            +:+ "k,en,Sample,1.0,1,,bismi,In the name of God," +:+ Str.NL)
  ∧ (files w !! Ingest.allJsonPath) ≫= JSON.parse
    = Some (JArr [JObj [("translation_key", JStr "k");
                        ("language_code", JStr "en");
                        ("translation_title", JStr "Sample");
                        ("translation_version", JStr "1.0");
                        ("surahs",
                         JObj [("1", JArr [JObj [("arabic_text", JStr "bismi");
                                                 ("translation", JStr "In the name of God");
                                                 ("footnotes", JStr EmptyString)]])])]]).
Proof.
  cbn zeta. split; [reflexivity|]. split.
  - eexists. split; [reflexivity|]. conjuncts; reflexivity.
  - conjuncts; vm_compute; reflexivity.
Qed.

(** ** Chunked tabular writer *)

Lemma fold_lines {A} (f : A → string) (data : list A) :
  ∀ init,
    fold_left (fun csv row => csv +:+ f row) data init
    = init +:+ Str.concat (map f data).
Proof.
  induction data as [|x r IH]; intros init; cbn [fold_left map Str.concat].
  - rewrite append_nil_r. reflexivity.
  - rewrite IH, append_assoc. reflexivity.
Qed.

Lemma objectsToCSV_rows (first : obj) (rest : list obj) (includeHeaders : bool) :
  Csv.objectsToCSV (first :: rest) includeHeaders
  = (if includeHeaders then Csv.headerLine (keys first) else EmptyString)
    +:+ Spec.rowsText (keys first) (first :: rest).
Proof. unfold Csv.objectsToCSV. rewrite fold_lines. reflexivity. Qed.












(** ** Streaming JSON array writer *)

Lemma jsonAppendLoop_nonfinal (docs : list jsval) :
  ∀ w old,
    files w !! Ingest.allJsonPath = Some old →
    ∃ w',
      Ingest.jsonAppendLoop docs false w = (Ok tt, w')
      ∧ files w'
        = <[Ingest.allJsonPath
            := old +:+ Str.concat (map (fun d => JSON.stringify d +:+ Spec.commaLine) docs)]>
            (files w).
Proof.
  induction docs as [|d r IH]; intros w old Hf.
  - exists w. split; [reflexivity|]. cbn [map Str.concat].
    rewrite append_nil_r, insert_id by exact Hf. reflexivity.
  - cbn [Ingest.jsonAppendLoop]. rewrite andb_false_r. cbn [negb].
    unfold bind at 1. rewrite (appendFile_existing w _ old _ Hf).
    destruct (IH (written w Ingest.allJsonPath
                    (old +:+ JSON.stringify d +:+ "," +:+ Str.NL)
                    [AppendFile Ingest.allJsonPath (JSON.stringify d +:+ "," +:+ Str.NL)])
                 (old +:+ JSON.stringify d +:+ "," +:+ Str.NL))
      as (w' & Hrun & Hfs).
    + unfold written. cbn [files]. apply lookup_insert_eq.
    + exists w'. split; [exact Hrun|]. rewrite Hfs. unfold written. cbn [files].
      rewrite insert_insert_eq. cbn [map Str.concat].
      unfold Spec.commaLine. rewrite ?append_assoc. reflexivity.
Qed.

Lemma jsonAppendLoop_final (docs : list jsval) :
  docs ≠ [] →
  ∀ w old,
    files w !! Ingest.allJsonPath = Some old →
    ∃ w',
      Ingest.jsonAppendLoop docs true w = (Ok tt, w')
      ∧ files w'
        = <[Ingest.allJsonPath
            := old +:+ Str.join Spec.commaLine (map JSON.stringify docs) +:+ Str.NL]>
            (files w).
Proof.
  induction docs as [|d r IH]; intros Hne w old Hf; [contradiction|].
  cbn [Ingest.jsonAppendLoop]. unfold bind at 1.
  destruct r as [|d' r'].
  - cbn [andb negb]. rewrite (appendFile_existing w _ old _ Hf).
    cbn [Ingest.jsonAppendLoop]. unfold ret. eexists. split; [reflexivity|].
    unfold written. cbn [files map Str.join]. reflexivity.
  - cbn [andb negb]. rewrite (appendFile_existing w _ old _ Hf).
    destruct (IH ltac:(discriminate)
                 (written w Ingest.allJsonPath
                    (old +:+ JSON.stringify d +:+ "," +:+ Str.NL)
                    [AppendFile Ingest.allJsonPath (JSON.stringify d +:+ "," +:+ Str.NL)])
                 (old +:+ JSON.stringify d +:+ "," +:+ Str.NL))
      as (w' & Hrun & Hfs).
    + unfold written. cbn [files]. apply lookup_insert_eq.
    + exists w'. split; [exact Hrun|]. rewrite Hfs. unfold written. cbn [files].
      rewrite insert_insert_eq.
      change (Str.join Spec.commaLine (map JSON.stringify (d :: d' :: r')))
        with (JSON.stringify d +:+ Spec.commaLine
              +:+ Str.join Spec.commaLine (map JSON.stringify (d' :: r'))).
      unfold Spec.commaLine. rewrite ?append_assoc. reflexivity.
Qed.

Lemma jsonFlushes_later (buffers : list (list jsval)) :
  ∀ w old,
    files w !! Ingest.allJsonPath = Some old →
    ∃ w',
      Spec.jsonFlushes false buffers w = (Ok tt, w')
      ∧ files w'
        = <[Ingest.allJsonPath := old +:+ Spec.flushedText buffers]> (files w).
Proof.
  induction buffers as [|b rest IH]; intros w old Hf.
  - exists w. split; [reflexivity|]. cbn [Spec.flushedText].
    rewrite append_nil_r, insert_id by exact Hf. reflexivity.
  - cbn [Spec.jsonFlushes]. unfold bind at 1. destruct rest as [|b' rest'].
    + (* the final flush *)
      destruct b as [|d r].
      * cbn [Ingest.saveJsonData Spec.jsonFlushes]. unfold ret.
        exists w. split; [reflexivity|]. cbn [Spec.flushedText].
        rewrite append_nil_r, insert_id by exact Hf. reflexivity.
      * unfold Ingest.saveJsonData. unfold bind at 1. unfold ret at 1.
        destruct (jsonAppendLoop_final (d :: r) ltac:(discriminate) w old Hf)
          as (w1 & Hrun & Hfs).
        unfold bind at 1. rewrite Hrun.
        unfold appendFile. cbn [Spec.jsonFlushes]. unfold ret.
        eexists. split; [reflexivity|]. cbn [files].
        rewrite Hfs, lookup_insert_eq, insert_insert_eq. cbn [default from_option Spec.flushedText]. unfold id.
        rewrite ?append_assoc. reflexivity.
    + (* a flush that is not the final one *)
      assert (Hflush : ∃ w1,
                 Ingest.saveJsonData b false false w = (Ok tt, w1)
                 ∧ files w1
                   = <[Ingest.allJsonPath
                       := old +:+ Str.concat
                                    (map (fun d => JSON.stringify d +:+ Spec.commaLine) b)]>
                       (files w)).
      { destruct b as [|d r].
        - exists w. split; [reflexivity|]. cbn [map Str.concat].
          rewrite append_nil_r, insert_id by exact Hf. reflexivity.
        - unfold Ingest.saveJsonData. unfold bind at 1. unfold ret at 1.
          destruct (jsonAppendLoop_nonfinal (d :: r) w old Hf) as (w1 & Hrun & Hfs).
          unfold bind. rewrite Hrun. unfold ret. exists w1. auto. }
      destruct Hflush as (w1 & Hrun & Hfs). rewrite Hrun.
      destruct (IH w1 (old +:+ Str.concat
                                 (map (fun d => JSON.stringify d +:+ Spec.commaLine) b)))
        as (w' & Hrest & Hfs').
      * rewrite Hfs. apply lookup_insert_eq.
      * exists w'. split; [exact Hrest|]. rewrite Hfs', Hfs, insert_insert_eq.
        change (Spec.flushedText (b :: b' :: rest'))
          with (Str.concat (map (fun d => JSON.stringify d +:+ Spec.commaLine) b)
                +:+ Spec.flushedText (b' :: rest')).
        rewrite append_assoc. reflexivity.
Qed.

(** The flushes of a run whose first buffer is not empty leave the array
    start followed by the flushed text. *)
Lemma jsonFlushes_text (d : jsval) (r : list jsval) (rest : list (list jsval))
    (w : world) :
  ∃ w',
    Spec.jsonFlushes true ((d :: r) :: rest) w = (Ok tt, w')
    ∧ files w'
      = <[Ingest.allJsonPath
          := "[" +:+ Str.NL +:+ Spec.flushedText ((d :: r) :: rest)]> (files w).
Proof.
  set (w0 := {| dirs := dirs w;
                files := <[Ingest.allJsonPath := "[" +:+ Str.NL]> (files w);
                trace := trace w ++ [WriteFile Ingest.allJsonPath ("[" +:+ Str.NL)] |}).
  assert (H0 : files w0 !! Ingest.allJsonPath = Some ("[" +:+ Str.NL))
    by apply lookup_insert_eq.
  cbn [Spec.jsonFlushes]. unfold bind at 1. destruct rest as [|b' rest'].
  - unfold Ingest.saveJsonData. unfold bind at 1. unfold writeFile at 1. fold w0.
    destruct (jsonAppendLoop_final (d :: r) ltac:(discriminate) w0 _ H0)
      as (w1 & Hrun & Hfs).
    unfold bind at 1. rewrite Hrun. unfold appendFile. cbn [Spec.jsonFlushes].
    unfold ret. eexists. split; [reflexivity|]. cbn [files].
    rewrite Hfs, lookup_insert_eq, insert_insert_eq. cbn [default from_option Spec.flushedText]. unfold id.
    unfold w0. cbn [files]. rewrite insert_insert_eq, ?append_assoc. reflexivity.
  - unfold Ingest.saveJsonData. unfold bind at 1. unfold writeFile at 1. fold w0.
    destruct (jsonAppendLoop_nonfinal (d :: r) w0 _ H0) as (w1 & Hrun & Hfs).
    unfold bind at 1. rewrite Hrun. unfold ret at 1.
    destruct (jsonFlushes_later (b' :: rest') w1
                (("[" +:+ Str.NL)
                 +:+ Str.concat (map (fun d => JSON.stringify d +:+ Spec.commaLine) (d :: r))))
      as (w' & Hrest & Hfs').
    + rewrite Hfs. apply lookup_insert_eq.
    + exists w'. split; [exact Hrest|]. rewrite Hfs', Hfs, insert_insert_eq.
      unfold w0. cbn [files]. rewrite insert_insert_eq.
      change (Spec.flushedText ((d :: r) :: b' :: rest'))
        with (Str.concat (map (fun d => JSON.stringify d +:+ Spec.commaLine) (d :: r))
              +:+ Spec.flushedText (b' :: rest')).
      rewrite ?append_assoc. reflexivity.
Qed.



(** When the final flush finds the buffer empty, the flushed text is every
    document followed by a comma: the array end is missing. *)
Lemma flushedText_open (buffers : list (list jsval)) :
  Spec.flushedText (buffers ++ [[]])
  = Str.concat (map (fun d => JSON.stringify d +:+ Spec.commaLine) (concat buffers)).
Proof.
  induction buffers as [|b rest IH]; [reflexivity|].
  assert (Hstep : Spec.flushedText ((b :: rest) ++ [[]])
                  = Str.concat (map (fun d => JSON.stringify d +:+ Spec.commaLine) b)
                    +:+ Spec.flushedText (rest ++ [[]])).
  { cbn [app]. destruct (rest ++ [[]]) eqn:E; [|reflexivity].
    destruct rest; discriminate. }
  rewrite Hstep, IH. cbn [concat]. rewrite map_app, strconcat_app. reflexivity.
Qed.


(** A run whose first buffer is not empty and whose final flush finds the
    buffer empty leaves the array start and every document followed by a
    comma; the array end is never appended. *)
Lemma json_file_open (d : jsval) (r : list jsval) (middle : list (list jsval))
    (w : world) :
  ∃ w',
    Spec.jsonFlushes true (((d :: r) :: middle) ++ [[]]) w = (Ok tt, w')
    ∧ files w' !! Ingest.allJsonPath
      = Some ("[" +:+ Str.NL
              +:+ Str.concat (map (fun x => JSON.stringify x +:+ Spec.commaLine)
                                (concat ((d :: r) :: middle)))).
Proof.
  rewrite <- (flushedText_open ((d :: r) :: middle)).
  destruct (jsonFlushes_text d r (middle ++ [[]]) w) as (w' & Hrun & Hfs).
  exists w'. split; [exact Hrun|]. rewrite Hfs. apply lookup_insert_eq.
Qed.

(** C2. Evaluation at two runs that complete. With one translation that
    has no verse, the final flush finds an empty buffer and nothing is
    written at all. With twenty-two translations of which only the last
    has no verse, the flush after the twenty-first writes the array start
    and twenty-one documents, each followed by a comma; the final flush
    finds an empty buffer and returns before the array end is appended, so
    the file ends in a comma and a line break and is not JSON. *)
Theorem json_array_left_open :
  let alone := Ingest.main Samples.noVerses emptyWorld in
  let run := Ingest.main Samples.lastHasNone emptyWorld in
  fst alone = Ok tt
  ∧ is_Some (files (snd alone) !! "datasets/processing_summary.json")
  ∧ files (snd alone) !! Ingest.allJsonPath = None
  ∧ fst run = Ok tt
  ∧ is_Some (files (snd run) !! "datasets/processing_summary.json")
  ∧ (Str.endsWith ("," +:+ Str.NL) <$> files (snd run) !! Ingest.allJsonPath) = Some true
  ∧ (JSON.parse <$> files (snd run) !! Ingest.allJsonPath) = Some None
  ∧ filter (fun e => e = AppendFile Ingest.allJsonPath "]") (trace (snd run)) = [].
Proof.
  cbn zeta. conjuncts;
    try (vm_compute; reflexivity);
    eexists; vm_compute; reflexivity.
Qed.

(** ** Translations without verses *)


Lemma csvChunkLoop_returns (data : list obj) (n : nat) :
  ∀ fuel i w, ∃ w', Ingest.csvChunkLoop fuel data n i w = (Ok tt, w').
Proof.
  induction fuel as [|f IH]; intros i w; cbn [Ingest.csvChunkLoop].
  - eexists. reflexivity.
  - destruct (i <? length data)%nat; [|eexists; reflexivity].
    unfold bind, appendFile. apply IH.
Qed.

Lemma saveChunkedData_returns (data : list obj) (n : nat) (first : bool) (w : world) :
  ∃ w', Ingest.saveChunkedData data n first w = (Ok tt, w').
Proof.
  unfold Ingest.saveChunkedData. destruct data as [|r rest]; [eexists; reflexivity|].
  unfold bind at 1. destruct first; unfold writeFile, ret; apply csvChunkLoop_returns.
Qed.

Lemma jsonAppendLoop_returns (final : bool) :
  ∀ docs w, ∃ w', Ingest.jsonAppendLoop docs final w = (Ok tt, w').
Proof.
  induction docs as [|d r IH]; intros w; cbn [Ingest.jsonAppendLoop].
  - eexists. reflexivity.
  - unfold bind, appendFile. apply IH.
Qed.

Lemma saveJsonData_returns (docs : list jsval) (first final : bool) (w : world) :
  ∃ w', Ingest.saveJsonData docs first final w = (Ok tt, w').
Proof.
  unfold Ingest.saveJsonData. destruct docs as [|d r]; [eexists; reflexivity|].
  unfold bind at 1.
  destruct (jsonAppendLoop_returns final (d :: r)
              (snd ((if first then writeFile Ingest.allJsonPath ("[" +:+ Str.NL)
                     else ret tt) w))) as [w' Hw'].
  destruct first; unfold writeFile, ret in *; cbn [snd] in Hw';
    unfold bind; rewrite Hw'; destruct final; eexists; reflexivity.
Qed.

(** The flushes return and leave the counters as they are. *)
Lemma flushCsv_returns (total i : nat) (st : Ingest.loopState) (w : world) :
  ∃ st' w',
    Ingest.flushCsv total i st w = (Ok st', w')
    ∧ Ingest.errorCount st' = Ingest.errorCount st
    ∧ Ingest.successCount st' = Ingest.successCount st
    ∧ Ingest.results st' = Ingest.results st
    ∧ Ingest.allTranslationsJSON st' = Ingest.allTranslationsJSON st
    ∧ Ingest.firstJSONChunk st' = Ingest.firstJSONChunk st.
Proof.
  unfold Ingest.flushCsv.
  destruct ((10000 <? Z.of_nat (length (Ingest.allTranslationsData st)))
            || (i =? total - 1)%nat).
  - destruct (saveChunkedData_returns (Ingest.allTranslationsData st) 1000
                (Ingest.firstCSVChunk st) w) as [w' Hw'].
    unfold bind. rewrite Hw'. do 2 eexists. split; [reflexivity|].
    repeat split.
  - do 2 eexists. split; [reflexivity|]. repeat split.
Qed.

Lemma flushJson_returns (total i : nat) (st : Ingest.loopState) (w : world) :
  ∃ st' w',
    Ingest.flushJson total i st w = (Ok st', w')
    ∧ Ingest.errorCount st' = Ingest.errorCount st
    ∧ Ingest.successCount st' = Ingest.successCount st
    ∧ Ingest.results st' = Ingest.results st.
Proof.
  unfold Ingest.flushJson.
  destruct ((20 <? Z.of_nat (length (Ingest.allTranslationsJSON st)))
            || (i =? total - 1)%nat).
  - destruct (saveJsonData_returns (Ingest.allTranslationsJSON st)
                (Ingest.firstJSONChunk st) (i =? total - 1)%nat w) as [w' Hw'].
    unfold bind. rewrite Hw'. do 2 eexists. split; [reflexivity|].
    repeat split.
  - do 2 eexists. split; [reflexivity|]. repeat split.
Qed.




(** ** Incremental JSON array reader *)

(** A chunk boundary inside a two-byte character: the quoted Arabic
    letter beh (bytes 34, 216, 168, 34) decodes to the letter between
    quotes as a whole, and to two replacement characters between quotes
    when it is cut after the lead byte. The text of the document is
    altered before the scan sees it. *)
Lemma decoding_by_chunks_is_lossy :
  let bytes := [34; 216; 168; 34]%N in
  Utf8.decode bytes = Some [34; 1576; 34]%N
  ∧ Utf8.decodeChunks [take 2 bytes; drop 2 bytes]
    = Some [34; 65533; 65533; 34]%N.
Proof. cbn zeta. split; reflexivity. Qed.

(** C3. Evaluation at the file the streaming writer produces for two
    documents in plain characters. The file is the JSON array of the two
    documents, and a single read that holds the whole file (such as the
    one-mebibyte buffer of the script makes here) yields both, a brace
    inside a string not disturbing the scan. When a read ends with
    the closing brace of the first document, the separators that follow
    are met at the head of the next chunk, the text handed to the parser
    begins with the comma, the parse fails and the second document is
    dropped; reading one byte at a time does the same. The script itself
    meets this on a file of two documents in which the first ends on the
    last byte of the first one-mebibyte read: the file is the array of the
    translations a and b, and the reader yields a alone. *)
Theorem reader_drops_document_after_boundary :
  let first := Samples.plainDocument "a" in
  let second := Samples.plainDocument "b" in
  let file := Samples.twoDocumentFile in
  file = "[" +:+ Str.NL +:+ JSON.stringify first +:+ "," +:+ Str.NL
         +:+ JSON.stringify second +:+ Str.NL +:+ "]"
  ∧ JSON.parse file = Some (JArr [first; second])
  ∧ Split.readJsonInChunks file = [first; second]
  ∧ Split.readJsonWith (String.length file) file = [first; second]
  ∧ Split.readJsonWith (1 + String.length (JSON.stringify first)) file = [first]
  ∧ Split.readJsonWith 1 file = [first]
  ∧ String.get Split.bufferLength Samples.alignedFile = Some "}"%char
  ∧ String.get (S Split.bufferLength) Samples.alignedFile = Some ","%char
  ∧ (Samples.translationKeys <$> (JSON.parse Samples.alignedFile ≫= asList))
    = Some [Some (JStr "a"); Some (JStr "b")]
  ∧ Samples.translationKeys (Split.readJsonInChunks Samples.alignedFile)
    = [Some (JStr "a")].
Proof.
  cbn zeta. conjuncts; vm_compute; reflexivity.
Qed.

(** ** Flattening and re-grouping *)

Lemma insertIndexed_perm {A} (n : N) (x : A) (idx : list (N * A)) :
  map snd (insertIndexed n x idx) ≡ₚ x :: map snd idx.
Proof.
  induction idx as [|[m y] r IH]; simpl; [reflexivity|].
  destruct (n <? m)%N; simpl; [reflexivity|].
  rewrite IH. apply Permutation_swap.
Qed.

Lemma enumGo_perm {A} (l : list (string * A)) :
  ∀ idx rest, enumGo l idx rest ≡ₚ map snd idx ++ rest ++ l.
Proof.
  induction l as [|[k v] r IH]; intros idx rest; simpl.
  - rewrite app_nil_r, <- Permutation_rev. reflexivity.
  - destruct (arrayIndex k).
    + rewrite IH, insertIndexed_perm. solve_Permutation.
    + rewrite IH. solve_Permutation.
Qed.

(** The enumeration of an object is a rearrangement of its properties. *)
Lemma entries_perm {A} (o : list (string * A)) : entries o ≡ₚ o.
Proof. unfold entries. rewrite enumGo_perm. reflexivity. Qed.

Lemma addToGroup_fresh (groups : list (string * list Split.ayahEntry))
    (k : string) (e : Split.ayahEntry) :
  k ∉ map fst groups → Spec.addToGroup groups k e = groups ++ [(k, [e])].
Proof.
  induction groups as [|[k' es] r IH]; intros Hk; simpl; [reflexivity|].
  destruct (String.eqb k' k) eqn:E.
  - apply String.eqb_eq in E. subst. exfalso. apply Hk. simpl. left.
  - rewrite IH; [reflexivity|]. intros Hin. apply Hk. simpl. right. exact Hin.
Qed.

Lemma addToGroup_last (groups : list (string * list Split.ayahEntry))
    (k : string) (es : list Split.ayahEntry) (e : Split.ayahEntry) :
  k ∉ map fst groups →
  Spec.addToGroup (groups ++ [(k, es)]) k e = groups ++ [(k, es ++ [e])].
Proof.
  induction groups as [|[k' xs] r IH]; intros Hk; simpl.
  - rewrite String.eqb_refl. reflexivity.
  - destruct (String.eqb k' k) eqn:E.
    + apply String.eqb_eq in E. subst. exfalso. apply Hk. simpl. left.
    + rewrite IH; [reflexivity|]. intros Hin. apply Hk. simpl. right. exact Hin.
Qed.

(** A flat row gives back the entry it was made from when the footnote is
    a string. *)
Lemma entryOfRow_flatRow (d : Split.document) (k : string) (e : Split.ayahEntry) :
  Spec.isString (Split.footnotes e) →
  Spec.entryOfRow (Split.flatRow d k e) = e
  ∧ toString (getProp (Split.flatRow d k e) "surah") = k.
Proof.
  intros [s Hs]. destruct e as [a t tr fn]. simpl in Hs. subst fn.
  split; [|reflexivity].
  unfold Spec.entryOfRow, Split.flatRow. simpl.
  destruct s; reflexivity.
Qed.

Lemma regroup_more (d : Split.document) (k : string)
    (groups : list (string * list Split.ayahEntry)) (es : list Split.ayahEntry) :
  k ∉ map fst groups →
  (∀ e, e ∈ es → Spec.isString (Split.footnotes e)) →
  ∀ xs,
    fold_left Spec.regroupStep (map (Split.flatRow d k) es) (groups ++ [(k, xs)])
    = groups ++ [(k, xs ++ es)].
Proof.
  intros Hk. induction es as [|e r IH]; intros Hs xs; simpl.
  - rewrite app_nil_r. reflexivity.
  - unfold Spec.regroupStep at 2.
    destruct (entryOfRow_flatRow d k e) as [-> ->];
      [apply Hs; left|].
    rewrite addToGroup_last by exact Hk.
    rewrite IH; [|intros e' He'; apply Hs; right; exact He'].
    rewrite <- app_assoc. reflexivity.
Qed.

Lemma regroup_surah (d : Split.document) (k : string)
    (groups : list (string * list Split.ayahEntry)) (es : list Split.ayahEntry) :
  k ∉ map fst groups →
  es ≠ [] →
  (∀ e, e ∈ es → Spec.isString (Split.footnotes e)) →
  fold_left Spec.regroupStep (map (Split.flatRow d k) es) groups = groups ++ [(k, es)].
Proof.
  intros Hk Hne Hs. destruct es as [|e r]; [contradiction|]. simpl.
  unfold Spec.regroupStep at 2.
  destruct (entryOfRow_flatRow d k e) as [-> ->]; [apply Hs; left|].
  rewrite addToGroup_fresh by exact Hk.
  rewrite (regroup_more d k groups r Hk); [reflexivity|].
  intros e' He'. apply Hs. right. exact He'.
Qed.

Lemma regroup_all (d : Split.document) (E : list (string * list Split.ayahEntry)) :
  ∀ groups,
    NoDup (map fst (groups ++ E)) →
    (∀ k es, (k, es) ∈ E →
       es ≠ [] ∧ ∀ e, e ∈ es → Spec.isString (Split.footnotes e)) →
    fold_left Spec.regroupStep
      (concat (map (fun kv => map (Split.flatRow d (fst kv)) (snd kv)) E)) groups
    = groups ++ E.
Proof.
  induction E as [|[k es] r IH]; intros groups Hnd Hok; simpl.
  - rewrite app_nil_r. reflexivity.
  - rewrite fold_left_app.
    destruct (Hok k es) as [Hne Hs]; [left|].
    assert (Hk : k ∉ map fst groups).
    { rewrite map_app in Hnd. simpl in Hnd.
      apply NoDup_app in Hnd. destruct Hnd as (_ & Hd & _).
      intros Hin. apply (Hd k Hin). left. }
    rewrite (regroup_surah d k groups es Hk Hne Hs).
    rewrite IH.
    + rewrite <- app_assoc. reflexivity.
    + rewrite <- app_assoc. simpl. exact Hnd.
    + intros k' es' Hin. apply (Hok k' es'). right. exact Hin.
Qed.

(** C7, as amended. For every document whose surah mapping has no key
    twice, no empty ayah list, and a string as the footnote of every ayah
    entry, re-grouping the flattened rows by surah gives the surah mapping
    back: the surahs in the order the mapping enumerates them, each with
    its entries in stored order and with the same four field values; as
    finite maps the two are equal. *)
Theorem flatten_regroup_roundtrip (d : Split.document) :
  NoDup (map fst (Split.surahs d)) →
  (∀ k es, (k, es) ∈ Split.surahs d → es ≠ []) →
  Spec.stringFootnotes d →
  Spec.regroupBySurah (Split.flattenTranslationForCSV d) = entries (Split.surahs d)
  ∧ Spec.asMapping (Spec.regroupBySurah (Split.flattenTranslationForCSV d))
    = Spec.asMapping (Split.surahs d).
Proof.
  intros Hnd Hne Hs.
  assert (Heq : Spec.regroupBySurah (Split.flattenTranslationForCSV d)
                = entries (Split.surahs d)).
  { unfold Spec.regroupBySurah, Split.flattenTranslationForCSV.
    change (fold_left Spec.regroupStep
              (concat (map (fun kv => map (Split.flatRow d (fst kv)) (snd kv))
                         (entries (Split.surahs d)))) []
            = [] ++ entries (Split.surahs d)).
    apply regroup_all.
    - simpl. rewrite (entries_perm (Split.surahs d)). exact Hnd.
    - intros k es Hin. rewrite (entries_perm (Split.surahs d)) in Hin. split.
      + apply (Hne k es Hin).
      + intros e He. apply (Hs k es e Hin He). }
  split; [exact Heq|].
  rewrite Heq. unfold Spec.asMapping.
  apply list_to_map_proper.
  - rewrite (entries_perm (Split.surahs d)). exact Hnd.
  - apply entries_perm.
Qed.

Lemma flatten_regroup_roundtrip_witness :
  let d := Samples.twoSurahDocument in
  NoDup (map fst (Split.surahs d))
  ∧ (∀ k es, (k, es) ∈ Split.surahs d → es ≠ [])
  ∧ Spec.stringFootnotes d
  ∧ Spec.regroupBySurah (Split.flattenTranslationForCSV d)
    = [("1", [Samples.oneAyah]); ("2", [Samples.oneAyah; Samples.oneAyah])].
Proof.
  cbn zeta.
  assert (H1 : NoDup (map fst (Split.surahs Samples.twoSurahDocument))).
  { cbn. apply NoDup_cons. split; [|apply NoDup_singleton].
    intros H. apply list_elem_of_singleton in H. discriminate. }
  assert (H2 : ∀ k es, (k, es) ∈ Split.surahs Samples.twoSurahDocument → es ≠ []).
  { intros k es Hin. cbn in Hin.
    repeat (apply elem_of_cons in Hin; destruct Hin as [Hin|Hin]);
      [injection Hin as -> ->; discriminate
      | injection Hin as -> ->; discriminate | inversion Hin]. }
  assert (H3 : Spec.stringFootnotes Samples.twoSurahDocument).
  { intros k es e Hin He. cbn in Hin.
    repeat (apply elem_of_cons in Hin; destruct Hin as [Hin|Hin]);
      [injection Hin as -> -> | injection Hin as -> -> | inversion Hin];
      repeat (apply elem_of_cons in He; destruct He as [->|He]);
      try (exists EmptyString; reflexivity); inversion He. }
  split; [exact H1|]. split; [exact H2|]. split; [exact H3|].
  rewrite (proj1 (flatten_regroup_roundtrip Samples.twoSurahDocument H1 H2 H3)).
  reflexivity.
Defined.

(** The claim C7 as written fails: a surah whose ayah list is empty gives
    no flattened row, so the re-grouped mapping has no entry for it, while
    the document has one. *)
Lemma empty_surah_lost :
  let d := Samples.emptySurahDocument in
  NoDup (map fst (Split.surahs d))
  ∧ Spec.stringFootnotes d
  ∧ Split.flattenTranslationForCSV d = []
  ∧ Spec.regroupBySurah (Split.flattenTranslationForCSV d) = []
  ∧ Spec.asMapping (Split.surahs d) !! "1" = Some []
  ∧ Spec.asMapping (Spec.regroupBySurah (Split.flattenTranslationForCSV d))
    ≠ Spec.asMapping (Split.surahs d).
Proof.
  cbn zeta. conjuncts.
  - cbn. apply NoDup_singleton.
  - intros k es e Hin He. cbn in Hin.
    apply list_elem_of_singleton in Hin. injection Hin as -> ->. inversion He.
  - reflexivity.
  - reflexivity.
  - vm_compute. reflexivity.
  - intros E. apply (f_equal (fun m => m !! "1")) in E. vm_compute in E. discriminate.
Qed.

(** ** Regrouping engine *)

(** *** Version keys and the paths of the version files *)

(** A key made of two underscore-free parts splits into these parts. *)
Lemma splitVersionKey_parts (l v : string) :
  Spec.free Str.underscore l → Spec.free Str.underscore v →
  Split.splitVersionKey (l +:+ "_" +:+ v) = (l, v).
Proof.
  intros Hl Hv. unfold Split.splitVersionKey, Str.split.
  change ("_" +:+ v) with (String Str.underscore v).
  rewrite (splitGo_piece _ _ Hl), (splitGo_end _ _ Hv), !rev_rev_app_nil.
  reflexivity.
Qed.

Lemma joinPath_two (a b : string) :
  a ≠ EmptyString → b ≠ EmptyString → joinPath [a; b] = a +:+ "/" +:+ b.
Proof.
  intros Ha Hb. unfold joinPath.
  rewrite filter_cons_True by exact Ha.
  rewrite filter_cons_True by exact Hb.
  reflexivity.
Qed.

Lemma versionFile_path (l v ext : string) :
  l ≠ EmptyString →
  joinPath [joinPath ["datasets"; l]; "version_" +:+ v +:+ "_translations." +:+ ext]
  = Spec.versionPath l v ext.
Proof.
  intros Hl. rewrite (joinPath_two "datasets" l) by (discriminate || exact Hl).
  rewrite joinPath_two; [| apply append_not_nil; discriminate
                         | apply append_not_nil; discriminate].
  unfold Spec.versionPath. rewrite !append_assoc. reflexivity.
Qed.

Lemma versionPath_inj (l v ext l' v' ext' : string) :
  Spec.free "/" l → Spec.free "/" l' →
  Spec.free Str.underscore v → Spec.free Str.underscore v' →
  Spec.versionPath l v ext = Spec.versionPath l' v' ext' →
  l = l' ∧ v = v' ∧ ext = ext'.
Proof.
  intros Hl Hl' Hv Hv' H. unfold Spec.versionPath in H.
  apply (inj (String.app "datasets/")) in H.
  change ("/version_" +:+ v +:+ "_translations." +:+ ext)
    with (String "/" ("version_" +:+ v +:+ "_translations." +:+ ext)) in H.
  change ("/version_" +:+ v' +:+ "_translations." +:+ ext')
    with (String "/" ("version_" +:+ v' +:+ "_translations." +:+ ext')) in H.
  apply (split_first _ _ _ _ _ Hl Hl') in H. destruct H as [-> H].
  apply (inj (String.app "version_")) in H.
  change ("_translations." +:+ ext)
    with (String Str.underscore ("translations." +:+ ext)) in H.
  change ("_translations." +:+ ext')
    with (String Str.underscore ("translations." +:+ ext')) in H.
  apply (split_first _ _ _ _ _ Hv Hv') in H. destruct H as [-> H].
  apply (inj (String.app "translations.")) in H. auto.
Qed.

Lemma versionPath_not_index (l v ext : string) :
  Spec.versionPath l v ext ≠ joinPath ["datasets"; "translations_index.json"].
Proof.
  unfold Spec.versionPath. intros H.
  change (joinPath ["datasets"; "translations_index.json"])
    with ("datasets/" +:+ "translations_index.json") in H.
  apply (inj (String.app "datasets/")) in H.
  apply (not_free_middle "/" l ("version_" +:+ v +:+ "_translations." +:+ ext)).
  change (String "/" ("version_" +:+ v +:+ "_translations." +:+ ext))
    with ("/version_" +:+ v +:+ "_translations." +:+ ext).
  rewrite H. reflexivity.
Qed.

Lemma json_csv_differ (l v l' v' : string) :
  Spec.versionPath l v "json" ≠ Spec.versionPath l' v' "csv"
  ∨ ¬ (Spec.free "/" l ∧ Spec.free "/" l'
       ∧ Spec.free Str.underscore v ∧ Spec.free Str.underscore v').
Proof.
  destruct (decide (Spec.versionPath l v "json" = Spec.versionPath l' v' "csv"))
    as [E|E]; [|left; exact E].
  right. intros (Hl & Hl' & Hv & Hv').
  destruct (versionPath_inj _ _ _ _ _ _ Hl Hl' Hv Hv' E) as (_ & _ & H).
  discriminate.
Qed.

(** *** Grouping in a Map *)

Section Grouping.

Context {A : Type} (key : A → string).

Lemma mapGet_mapPush (m : list (string * list A)) (k k' : string) (x : A) :
  Split.mapGet (Split.mapPush m k x) k'
  = if decide (k = k') then Split.mapGet m k' ++ [x] else Split.mapGet m k'.
Proof.
  induction m as [|[k0 xs] r IH]; simpl.
  - destruct (decide (k = k')) as [->|Hne].
    + rewrite String.eqb_refl. reflexivity.
    + apply String.eqb_neq in Hne. rewrite Hne. reflexivity.
  - destruct (String.eqb k0 k) eqn:E; simpl.
    + apply String.eqb_eq in E. subst k0.
      destruct (decide (k = k')) as [->|Hne].
      * rewrite String.eqb_refl. reflexivity.
      * apply String.eqb_neq in Hne. rewrite Hne. reflexivity.
    + destruct (String.eqb k0 k') eqn:E'; [|exact IH].
      apply String.eqb_eq in E'. subst k0.
      apply String.eqb_neq in E.
      destruct (decide (k = k')) as [->|_]; [contradiction | reflexivity].
Qed.

Lemma keys_mapPush (m : list (string * list A)) (k : string) (x : A) :
  map fst (Split.mapPush m k x)
  = if decide (k ∈ map fst m) then map fst m else map fst m ++ [k].
Proof.
  induction m as [|[k0 xs] r IH]; simpl.
  - destruct (decide (k ∈ [])) as [H|_]; [inversion H | reflexivity].
  - destruct (String.eqb k0 k) eqn:E; simpl.
    + apply String.eqb_eq in E. subst k0.
      destruct (decide (k ∈ k :: map fst r)) as [_|H]; [reflexivity|].
      exfalso. apply H. left.
    + apply String.eqb_neq in E. rewrite IH.
      destruct (decide (k ∈ map fst r)) as [H|H];
        destruct (decide (k ∈ k0 :: map fst r)) as [H'|H']; try reflexivity.
      * exfalso. apply H'. right. exact H.
      * exfalso. apply H. apply elem_of_cons in H'. destruct H' as [->|H']; [contradiction | exact H'].
Qed.

Lemma NoDup_mapPush (m : list (string * list A)) (k : string) (x : A) :
  NoDup (map fst m) → NoDup (map fst (Split.mapPush m k x)).
Proof.
  intros H. rewrite keys_mapPush. destruct (decide (k ∈ map fst m)) as [|Hk]; [exact H|].
  apply NoDup_app. split; [exact H|]. split.
  - intros y Hy Hy'. apply list_elem_of_singleton in Hy'. subst y. contradiction.
  - apply NoDup_singleton.
Qed.

Lemma pushAll_spec (l : list A) :
  ∀ m,
    NoDup (map fst m) →
    NoDup (map fst (Spec.pushAll key l m))
    ∧ (∀ k, Split.mapGet (Spec.pushAll key l m) k
            = Split.mapGet m k ++ filter (fun x => key x = k) l)
    ∧ (∀ k, k ∈ map fst (Spec.pushAll key l m) ↔ k ∈ map fst m ∨ ∃ x, x ∈ l ∧ key x = k).
Proof.
  induction l as [|x r IH]; intros m Hnd.
  - simpl. split; [exact Hnd|]. split.
    + intros k. rewrite app_nil_r. reflexivity.
    + intros k. split; [auto|]. intros [H|(x & Hx & _)]; [exact H | inversion Hx].
  - unfold Spec.pushAll in *. cbn [fold_left].
    destruct (IH (Split.mapPush m (key x) x) (NoDup_mapPush m (key x) x Hnd))
      as (IH1 & IH2 & IH3).
    split; [exact IH1|]. split.
    + intros k. rewrite IH2, mapGet_mapPush.
      destruct (decide (key x = k)) as [E|E].
      * rewrite filter_cons_True by exact E. rewrite <- app_assoc. reflexivity.
      * rewrite filter_cons_False by exact E. reflexivity.
    + intros k. rewrite IH3, keys_mapPush. split.
      * intros [H|(y & Hy & Hk)].
        -- destruct (decide (key x ∈ map fst m)); [left; exact H|].
           apply elem_of_app in H. destruct H as [H|H]; [left; exact H|].
           apply list_elem_of_singleton in H. right. exists x. split; [left | auto].
        -- right. exists y. split; [right; exact Hy | exact Hk].
      * intros [H|(y & Hy & Hk)].
        -- left. destruct (decide (key x ∈ map fst m)); [exact H|].
           apply elem_of_app. left. exact H.
        -- apply elem_of_cons in Hy. destruct Hy as [->|Hy].
           ++ left. subst k. destruct (decide (key x ∈ map fst m)) as [H|H]; [exact H|].
              apply elem_of_app. right. left.
           ++ right. exists y. auto.
Qed.

Lemma mapGet_elem (m : list (string * list A)) (k : string) (xs : list A) :
  NoDup (map fst m) → (k, xs) ∈ m → Split.mapGet m k = xs.
Proof.
  induction m as [|[k0 ys] r IH]; intros Hnd Hin; [inversion Hin|].
  simpl in Hnd. apply NoDup_cons in Hnd. destruct Hnd as [Hk0 Hnd].
  apply elem_of_cons in Hin. destruct Hin as [Heq|Hin].
  - injection Heq as <- <-. simpl. rewrite String.eqb_refl. reflexivity.
  - simpl. destruct (String.eqb k0 k) eqn:E.
    + apply String.eqb_eq in E. subst k0. exfalso. apply Hk0.
      apply (list_elem_of_fmap_2 fst _ (k, xs)). exact Hin.
    + apply IH; assumption.
Qed.

End Grouping.

(** *** CSV of flattened rows *)

Lemma flatRow_keys (row : obj) : Spec.isFlatRow row → keys row = Spec.flatHeaders.
Proof. intros (d & k & a & ->). reflexivity. Qed.

Lemma flatRow_no_surahs (row : obj) :
  Spec.isFlatRow row → truthy (getProp row "surahs") = false.
Proof. intros (d & k & a & ->). reflexivity. Qed.

Lemma collectHeaders_flat (acc : list string) (row : obj) :
  Spec.isFlatRow row →
  acc = [] ∨ acc = Spec.flatHeaders →
  Split.collectHeaders acc row = Spec.flatHeaders.
Proof.
  intros Hrow Hacc. unfold Split.collectHeaders.
  rewrite (flatRow_no_surahs row Hrow), (flatRow_keys row Hrow).
  destruct Hacc as [-> | ->]; reflexivity.
Qed.

Lemma headers_flat (data : list obj) :
  Forall Spec.isFlatRow data →
  ∀ acc, acc = [] ∨ acc = Spec.flatHeaders →
    data ≠ [] ∨ acc = Spec.flatHeaders →
    fold_left Split.collectHeaders data acc = Spec.flatHeaders.
Proof.
  induction data as [|row r IH]; intros Hflat acc Hacc Hne.
  - destruct Hne as [Hne | ->]; [contradiction | reflexivity].
  - apply Forall_cons in Hflat. destruct Hflat as [Hrow Hflat].
    cbn [fold_left]. rewrite (collectHeaders_flat acc row Hrow Hacc).
    apply (IH Hflat); right; reflexivity.
Qed.

(** On flattened rows stage 2 writes the header of the nine columns and
    one line per row, escaped as in stage 1. *)
Lemma objectsToCSV_flat (data : list obj) (includeHeaders : bool) :
  data ≠ [] →
  Forall Spec.isFlatRow data →
  Split.objectsToCSV data includeHeaders
  = (if includeHeaders then Csv.headerLine Spec.flatHeaders else EmptyString)
    +:+ Spec.rowsText Spec.flatHeaders data.
Proof.
  intros Hne Hflat. destruct data as [|x r]; [contradiction|].
  unfold Split.objectsToCSV.
  rewrite (headers_flat (x :: r) Hflat []) by auto.
  rewrite fold_lines. f_equal.
Qed.

Lemma flatten_flat (d : Split.document) :
  Forall Spec.isFlatRow (Split.flattenTranslationForCSV d).
Proof.
  unfold Split.flattenTranslationForCSV. apply Forall_concat, Forall_map, Forall_forall.
  intros [k es] _. apply Forall_map, Forall_forall. intros a _.
  exists d, k, a. reflexivity.
Qed.

Lemma flatten_all_flat (ts : list Split.document) :
  Forall Spec.isFlatRow (concat (map Split.flattenTranslationForCSV ts)).
Proof.
  apply Forall_concat, Forall_map, Forall_forall. intros d _. apply flatten_flat.
Qed.

(** *** The files of one group *)

Lemma groupChunkSize_pos : (0 < Split.groupChunkSize)%nat.
Proof. unfold Split.groupChunkSize. lia. Qed.

Lemma groupCsvLoop_later (path : string) (all : list obj) :
  Forall Spec.isFlatRow all →
  ∀ fuel i w old,
    (0 < i)%nat →
    (length all ≤ fuel + i)%nat →
    files w !! path = Some old →
    ∃ w',
      Split.groupCsvLoop fuel path all i w = (Ok tt, w')
      ∧ dirs w' = dirs w
      ∧ files w'
        = <[path := old +:+ Spec.rowsText Spec.flatHeaders (drop i all)]> (files w).
Proof.
  intros Hflat.
  assert (Hdone : ∀ i w old,
             (length all ≤ i)%nat →
             files w !! path = Some old →
             files w
             = <[path := old +:+ Spec.rowsText Spec.flatHeaders (drop i all)]> (files w)).
  { intros i w old Hi Hf. rewrite drop_ge by exact Hi.
    unfold Spec.rowsText. cbn [map Str.concat].
    rewrite append_nil_r, insert_id by exact Hf. reflexivity. }
  induction fuel as [|f IH]; intros i w old Hpos Hlen Hf.
  - cbn [Split.groupCsvLoop]. exists w. split; [reflexivity|]. split; [reflexivity|].
    apply Hdone; [lia | exact Hf].
  - cbn [Split.groupCsvLoop].
    destruct (i <? length all)%nat eqn:Hi.
    + apply Nat.ltb_lt in Hi.
      assert (Hi0 : (i =? 0)%nat = false) by (apply Nat.eqb_neq; lia).
      rewrite Hi0.
      set (chunk := take Split.groupChunkSize (drop i all)).
      assert (Hchunk : chunk ≠ []).
      { unfold chunk. intros E. apply (f_equal length) in E.
        rewrite length_take, length_drop in E. cbn [length] in E.
        pose proof groupChunkSize_pos. lia. }
      assert (Hcf : Forall Spec.isFlatRow chunk).
      { unfold chunk. apply Forall_take, Forall_drop, Hflat. }
      rewrite (objectsToCSV_flat chunk false Hchunk Hcf), append_nil_l.
      unfold bind at 1. rewrite (appendFile_existing w path old _ Hf).
      destruct (IH (i + Split.groupChunkSize)%nat
                  (written w path (old +:+ Spec.rowsText Spec.flatHeaders chunk)
                     [AppendFile path (Spec.rowsText Spec.flatHeaders chunk)])
                  (old +:+ Spec.rowsText Spec.flatHeaders chunk))
        as (w' & Hrun & Hd & Hfs).
      * pose proof groupChunkSize_pos. lia.
      * pose proof groupChunkSize_pos. lia.
      * unfold written. cbn [files]. apply lookup_insert_eq.
      * exists w'. split; [exact Hrun|]. split; [exact Hd|].
        rewrite Hfs. unfold written. cbn [files].
        rewrite insert_insert_eq, append_assoc, <- rowsText_app.
        unfold chunk. rewrite <- (drop_drop all Split.groupChunkSize i), take_drop.
        reflexivity.
    + apply Nat.ltb_ge in Hi. exists w. split; [reflexivity|]. split; [reflexivity|].
      apply Hdone; [exact Hi | exact Hf].
Qed.

Lemma groupCsvLoop_first (path : string) (all : list obj) (w : world) :
  all ≠ [] →
  Forall Spec.isFlatRow all →
  ∃ w',
    Split.groupCsvLoop (length all) path all 0 w = (Ok tt, w')
    ∧ dirs w' = dirs w
    ∧ files w'
      = <[path := Csv.headerLine Spec.flatHeaders
                  +:+ Spec.rowsText Spec.flatHeaders all]> (files w).
Proof.
  intros Hne Hflat. destruct all as [|x r] eqn:Hall; [contradiction|].
  rewrite <- Hall in *. assert (Hlen : length all = S (length r)) by (rewrite Hall; reflexivity).
  rewrite Hlen. cbn [Split.groupCsvLoop].
  assert (Hi : (0 <? length all)%nat = true) by (apply Nat.ltb_lt; lia).
  rewrite Hi, drop_0. cbn [Nat.eqb].
  set (chunk := take Split.groupChunkSize all).
  assert (Hchunk : chunk ≠ []).
  { unfold chunk. intros E. apply (f_equal length) in E.
    rewrite length_take in E. cbn [length] in E. pose proof groupChunkSize_pos. lia. }
  assert (Hcf : Forall Spec.isFlatRow chunk) by (apply Forall_take, Hflat).
  rewrite (objectsToCSV_flat chunk true Hchunk Hcf).
  unfold bind at 1, writeFile at 1.
  set (text := Csv.headerLine Spec.flatHeaders +:+ Spec.rowsText Spec.flatHeaders chunk).
  destruct (groupCsvLoop_later path all Hflat (length r) (0 + Split.groupChunkSize)%nat
              {| dirs := dirs w; files := <[path := text]> (files w);
                 trace := trace w ++ [WriteFile path text] |} text)
    as (w' & Hrun & Hd & Hfs).
  - pose proof groupChunkSize_pos. lia.
  - pose proof groupChunkSize_pos. lia.
  - cbn [files]. apply lookup_insert_eq.
  - exists w'. split; [exact Hrun|]. split; [exact Hd|].
    rewrite Hfs. cbn [files]. unfold text.
    rewrite insert_insert_eq, append_assoc, <- rowsText_app.
    unfold chunk. cbn [Nat.add]. rewrite take_drop. reflexivity.
Qed.

(** [writeGroup] returns; the files afterwards are the files before with
    the artifacts of the group. *)
Lemma writeGroup_spec (languageDir jsonName csvName : string)
    (ts : list Split.document) (w : world) :
  ∃ w',
    Split.writeGroup languageDir jsonName csvName ts w = (Ok tt, w')
    ∧ dirs w' = dirs w
    ∧ files w' = Spec.groupFiles languageDir jsonName csvName ts (files w).
Proof.
  unfold Split.writeGroup, Spec.groupFiles. unfold bind at 1, writeFile at 1.
  fold (Spec.groupJson ts).
  destruct (concat (map Split.flattenTranslationForCSV ts)) as [|x r] eqn:Hrows.
  - cbn [length Split.groupCsvLoop]. eexists. split; [reflexivity|]. split; reflexivity.
  - rewrite <- Hrows.
    destruct (groupCsvLoop_first (joinPath [languageDir; csvName])
                (concat (map Split.flattenTranslationForCSV ts))
                {| dirs := dirs w;
                   files := <[joinPath [languageDir; jsonName] := Spec.groupJson ts]> (files w);
                   trace := trace w ++ [WriteFile (joinPath [languageDir; jsonName])
                                          (Spec.groupJson ts)] |})
      as (w' & Hrun & Hd & Hfs).
    + rewrite Hrows. discriminate.
    + apply flatten_all_flat.
    + exists w'. split; [exact Hrun|]. split; [exact Hd|]. exact Hfs.
Qed.

Lemma writeGroupIn_spec (languageDir jsonName csvName : string)
    (ts : list Split.document) (w : world) :
  ∃ w',
    Split.writeGroupIn languageDir jsonName csvName ts w = (Ok tt, w')
    ∧ files w' = Spec.groupFiles languageDir jsonName csvName ts (files w).
Proof.
  unfold Split.writeGroupIn, tryCatch, bind at 1, access.
  destruct (bool_decide (languageDir ∈ dirs w)
            || bool_decide (is_Some (files w !! languageDir))).
  - destruct (writeGroup_spec languageDir jsonName csvName ts w) as (w' & Hrun & _ & Hfs).
    rewrite Hrun. exists w'. split; [reflexivity | exact Hfs].
  - unfold bind, ensureDir, mkdir.
    destruct (writeGroup_spec languageDir jsonName csvName ts
                {| dirs := dirs w ∪ list_to_set (ancestors languageDir);
                   files := files w;
                   trace := trace w ++ [Mkdir languageDir] |})
      as (w' & Hrun & _ & Hfs).
    rewrite Hrun. exists w'. split; [reflexivity | exact Hfs].
Qed.

Lemma versionFile_names (l v : string) (G : list Split.document)
    (fs : gmap string string) :
  l ≠ EmptyString →
  Spec.groupFiles (joinPath ["datasets"; l])
    ("version_" +:+ v +:+ "_translations.json")
    ("version_" +:+ v +:+ "_translations.csv") G fs
  = match concat (map Split.flattenTranslationForCSV G) with
    | [] => <[Spec.versionPath l v "json" := Spec.groupJson G]> fs
    | _ :: _ =>
        <[Spec.versionPath l v "csv" := Spec.groupCsv G]>
          (<[Spec.versionPath l v "json" := Spec.groupJson G]> fs)
    end.
Proof.
  intros Hl. unfold Spec.groupFiles.
  change ("version_" +:+ v +:+ "_translations.json")
    with ("version_" +:+ v +:+ "_translations." +:+ "json").
  change ("version_" +:+ v +:+ "_translations.csv")
    with ("version_" +:+ v +:+ "_translations." +:+ "csv").
  rewrite !(versionFile_path l v _ Hl). reflexivity.
Qed.

Lemma saveVersion_spec (K : string) (G : list Split.document) (l v : string)
    (w : world) :
  K = l +:+ "_" +:+ v → Spec.plainCode l → Spec.free Str.underscore v →
  ∃ w',
    Split.saveVersion (K, G) w = (Ok tt, w')
    ∧ files w'
      = match concat (map Split.flattenTranslationForCSV G) with
        | [] => <[Spec.versionPath l v "json" := Spec.groupJson G]> (files w)
        | _ :: _ =>
            <[Spec.versionPath l v "csv" := Spec.groupCsv G]>
              (<[Spec.versionPath l v "json" := Spec.groupJson G]> (files w))
        end.
Proof.
  intros -> (Hne & Hu & Hs) Hv. unfold Split.saveVersion. cbn [fst snd].
  rewrite (splitVersionKey_parts l v Hu Hv).
  destruct (writeGroupIn_spec (joinPath ["datasets"; l])
              ("version_" +:+ v +:+ "_translations.json")
              ("version_" +:+ v +:+ "_translations.csv") G w) as (w' & Hrun & Hfs).
  exists w'. split; [exact Hrun|].
  rewrite Hfs. apply versionFile_names, Hne.
Qed.

(** A version file of one key is not touched when the group of another
    key is written. *)
Lemma saveVersion_frame (K : string) (G : list Split.document) (w : world)
    (l0 v0 ext : string) :
  Spec.goodKey K →
  Spec.plainCode l0 → Spec.free Str.underscore v0 →
  K ≠ l0 +:+ "_" +:+ v0 →
  ∃ w',
    Split.saveVersion (K, G) w = (Ok tt, w')
    ∧ files w' !! Spec.versionPath l0 v0 ext = files w !! Spec.versionPath l0 v0 ext.
Proof.
  intros (l & v & HK & Hl & Hv) Hl0 Hv0 Hne.
  destruct (saveVersion_spec K G l v w HK Hl Hv) as (w' & Hrun & Hfs).
  exists w'. split; [exact Hrun|].
  assert (Hdiff : ∀ e, Spec.versionPath l v e ≠ Spec.versionPath l0 v0 ext).
  { intros e E.
    destruct (versionPath_inj _ _ _ _ _ _ (proj2 (proj2 Hl)) (proj2 (proj2 Hl0)) Hv Hv0 E)
      as (-> & -> & _).
    apply Hne. exact HK. }
  rewrite Hfs. destruct (concat (map Split.flattenTranslationForCSV G)).
  - rewrite lookup_insert_ne by apply Hdiff. reflexivity.
  - rewrite !lookup_insert_ne by apply Hdiff. reflexivity.
Qed.

Lemma versions_frame (l0 v0 ext : string) (VM : list (string * list Split.document)) :
  Spec.plainCode l0 → Spec.free Str.underscore v0 →
  ∀ w,
    (∀ e, e ∈ VM → Spec.goodKey (fst e)) →
    l0 +:+ "_" +:+ v0 ∉ map fst VM →
    ∃ w',
      forEachM Split.saveVersion VM w = (Ok tt, w')
      ∧ files w' !! Spec.versionPath l0 v0 ext = files w !! Spec.versionPath l0 v0 ext.
Proof.
  intros Hl0 Hv0. induction VM as [|[K G] rest IH]; intros w Hgood Hout.
  - exists w. split; reflexivity.
  - cbn [forEachM]. unfold bind.
    destruct (saveVersion_frame K G w l0 v0 ext) as (w1 & Hrun & Hfs);
      [apply (Hgood (K, G)); left | exact Hl0 | exact Hv0
       | intros ->; apply Hout; left |].
    rewrite Hrun.
    destruct (IH w1) as (w' & Hrest & Hfs').
    + intros e He. apply Hgood. right. exact He.
    + intros Hin. apply Hout. right. exact Hin.
    + exists w'. split; [exact Hrest|]. rewrite Hfs'. exact Hfs.
Qed.

(** After the loop over the version map, the two files of a key hold the
    group of that key. *)
Lemma versions_hit (l0 v0 : string) (G0 : list Split.document)
    (VM : list (string * list Split.document)) :
  Spec.plainCode l0 → Spec.free Str.underscore v0 →
  concat (map Split.flattenTranslationForCSV G0) ≠ [] →
  ∀ w,
    (∀ e, e ∈ VM → Spec.goodKey (fst e)) →
    NoDup (map fst VM) →
    (l0 +:+ "_" +:+ v0, G0) ∈ VM →
    ∃ w',
      forEachM Split.saveVersion VM w = (Ok tt, w')
      ∧ files w' !! Spec.versionPath l0 v0 "json" = Some (Spec.groupJson G0)
      ∧ files w' !! Spec.versionPath l0 v0 "csv" = Some (Spec.groupCsv G0).
Proof.
  intros Hl0 Hv0 Hrows. induction VM as [|[K G] rest IH]; intros w Hgood Hnd Hin.
  - inversion Hin.
  - cbn [map] in Hnd. apply NoDup_cons in Hnd. destruct Hnd as [HK Hnd].
    cbn [forEachM]. unfold bind.
    apply elem_of_cons in Hin. destruct Hin as [Heq|Hin].
    + injection Heq as <- <-.
      destruct (saveVersion_spec _ G0 l0 v0 w eq_refl Hl0 Hv0) as (w1 & Hrun & Hfs).
      rewrite Hrun.
      destruct (versions_frame l0 v0 "json" rest Hl0 Hv0 w1) as (w' & Hrest & Hj);
        [intros e He; apply Hgood; right; exact He | exact HK |].
      destruct (versions_frame l0 v0 "csv" rest Hl0 Hv0 w1) as (w'' & Hrest' & Hc);
        [intros e He; apply Hgood; right; exact He | exact HK |].
      rewrite Hrest in Hrest'. injection Hrest' as <-.
      exists w'. split; [exact Hrest|].
      rewrite Hj, Hc, Hfs.
      destruct (concat (map Split.flattenTranslationForCSV G0)); [contradiction|].
      split.
      * rewrite lookup_insert_ne, lookup_insert_eq; [reflexivity|].
        intros E. destruct (json_csv_differ l0 v0 l0 v0) as [H|H];
          [apply H; symmetry; exact E|].
        apply H. repeat split; try apply Hl0; exact Hv0.
      * apply lookup_insert_eq.
    + destruct (decide (K = l0 +:+ "_" +:+ v0)) as [->|Hne].
      { exfalso. apply HK. apply (list_elem_of_fmap_2 fst _ (_, G0)). exact Hin. }
      destruct (saveVersion_frame K G w l0 v0 "json") as (w1 & Hrun & _);
        [apply (Hgood (K, G)); left | exact Hl0 | exact Hv0 | exact Hne |].
      rewrite Hrun.
      apply IH; [intros e He; apply Hgood; right; exact He | exact Hnd | exact Hin].
Qed.

(** *** The loops of [organizeTranslations] *)

Lemma saveIndividual_returns (d : Split.document) (w : world) :
  ∃ w', Split.saveIndividual d w = (Ok tt, w').
Proof.
  unfold Split.saveIndividual, tryCatch, bind at 1, access.
  destruct (bool_decide _ || bool_decide _); [|eexists; reflexivity].
  unfold bind, writeFile.
  destruct (Split.flattenTranslationForCSV d); eexists; reflexivity.
Qed.

Lemma saveLanguage_returns (e : string * list Split.document) (w : world) :
  ∃ w', Split.saveLanguage e w = (Ok tt, w').
Proof.
  unfold Split.saveLanguage.
  destruct (writeGroupIn_spec (joinPath ["datasets"; fst e])
              "full_language_translations.json" "full_language_translations.csv"
              (snd e) w) as (w' & Hrun & _).
  exists w'. exact Hrun.
Qed.

Lemma organizeLoop_spec (docs : list Split.document) :
  ∀ st w,
    ∃ w',
      Split.organizeLoop docs st w = (Ok (fold_left Split.noteTranslation docs st), w').
Proof.
  induction docs as [|d r IH]; intros st w.
  - exists w. reflexivity.
  - cbn [Split.organizeLoop fold_left]. unfold bind.
    destruct (saveIndividual_returns d w) as [w1 ->]. apply IH.
Qed.

Lemma versionMap_fold (docs : list Split.document) :
  ∀ st,
    Split.versionMap (fold_left Split.noteTranslation docs st)
    = Spec.pushAll Split.versionKey docs (Split.versionMap st).
Proof.
  induction docs as [|d r IH]; intros st; [reflexivity|].
  cbn [fold_left]. rewrite IH. reflexivity.
Qed.

Lemma languageMap_fold (docs : list Split.document) :
  ∀ st,
    Split.languageMap (fold_left Split.noteTranslation docs st)
    = Spec.pushAll Split.language_code docs (Split.languageMap st).
Proof.
  induction docs as [|d r IH]; intros st; [reflexivity|].
  cbn [fold_left]. rewrite IH. reflexivity.
Qed.

Lemma translationCount_fold (docs : list Split.document) :
  ∀ st,
    Split.translationCount (fold_left Split.noteTranslation docs st)
    = Split.translationCount st + Z.of_nat (length docs).
Proof.
  induction docs as [|d r IH]; intros st.
  - simpl. lia.
  - cbn [fold_left length]. rewrite IH. cbn [Split.noteTranslation Split.translationCount]. lia.
Qed.


Lemma versionKey_parts (d : Split.document) :
  Split.versionKey d = Split.language_code d +:+ "_" +:+ Spec.versionLabel d.
Proof. reflexivity. Qed.

(** *** Version keys whose version has an underscore *)


(** A version is its head alone, or its head, an underscore and a rest. *)
Lemma versionHead_cut (v : string) :
  v = Spec.versionHead v
  ∨ ∃ r, v = Spec.versionHead v +:+ String Str.underscore r.
Proof.
  induction v as [|c r IH]; [left; reflexivity|].
  cbn [Spec.versionHead]. destruct (Ascii.eqb c Str.underscore) eqn:E.
  - apply Ascii.eqb_eq in E. subst c. right. exists r. reflexivity.
  - destruct IH as [IH | [r' IH]].
    + left. rewrite <- IH. reflexivity.
    + right. exists r'. rewrite append_cons, <- IH. reflexivity.
Qed.

Lemma versionHead_plain (v : string) :
  Spec.free Str.underscore v → Spec.versionHead v = v.
Proof.
  intros Hv. destruct (versionHead_cut v) as [E | [r E]]; [symmetry; exact E|].
  exfalso. rewrite E in Hv. exact (not_free_middle _ _ _ Hv).
Qed.







Lemma letters_free (c : ascii) (s : string) :
  Spec.lowercase c = false → Spec.letters s = true → Spec.free c s.
Proof.
  intros Hc. unfold Spec.free. induction s as [|d r IH]; intros H; [reflexivity|].
  cbn [Spec.letters] in H. apply andb_true_iff in H. destruct H as [Hd Hr].
  apply includes_cons. split; [|apply IH, Hr].
  destruct (Ascii.eqb d c) eqn:E; [|reflexivity].
  apply Ascii.eqb_eq in E. subst d. congruence.
Qed.

(** A language code is a plain code. *)
Lemma languageCode_plain (l : string) : Spec.languageCode l → Spec.plainCode l.
Proof.
  intros (Hne & Hl & _). split; [exact Hne|].
  split; apply letters_free; (reflexivity || exact Hl).
Qed.

(** *** Documents without version *)


Lemma mixedStream_typed (d : Split.document) :
  d ∈ Samples.mixedStream → Spec.typedDocument d.
Proof.
  intros Hin. unfold Samples.mixedStream in Hin.
  repeat (apply elem_of_cons in Hin; destruct Hin as [->|Hin]);
    try (inversion Hin; fail);
    (split; [split; [discriminate | split; [reflexivity | cbn; lia]] |
     split; [cbn; try exact I; repeat split; try reflexivity; cbn; lia | reflexivity]]).
Qed.

Lemma afterIngest_writable (d : Split.document) :
  d ∈ Samples.mixedStream →
  Spec.writable Samples.afterIngest ("datasets/" +:+ Split.language_code d).
Proof.
  intros _. split.
  - intros p _. apply lookup_empty.
  - intros p Hp. unfold Samples.afterIngest in Hp. cbn [dirs] in Hp.
    apply elem_of_union in Hp. destruct Hp as [Hp|Hp];
      apply elem_of_singleton in Hp; subst p; reflexivity.
Qed.



(** *** The index *)

(** For every stream the index has the number of documents, the languages
    observed and, for each of them, the number of its documents. In a
    stream of plain language codes and versions that print without
    underscore, the versions it lists for a language are the versions
    under which the documents of that language are filed. *)
Lemma index_of_stream (docs : list Split.document) :
  let st := fold_left Split.noteTranslation docs Split.initialOrganize in
  Split.translationCount st = Z.of_nat (length docs)
  ∧ (∀ l, l ∈ map fst (Split.languageMap st)
          ↔ ∃ d, d ∈ docs ∧ Split.language_code d = l)
  ∧ (∀ l, Split.mapGet (Split.languageMap st) l
          = filter (fun d => Split.language_code d = l) docs)
  ∧ ((∀ d, d ∈ docs →
        Spec.plainCode (Split.language_code d)
        ∧ Spec.free Str.underscore (Spec.versionLabel d)) →
     ∀ l v, Spec.free Str.underscore l →
       (JStr v ∈ Split.indexVersions (Split.versionMap st) l
        ↔ ∃ d, d ∈ docs ∧ Split.language_code d = l ∧ Spec.versionLabel d = v)).
Proof.
  intros st. subst st.
  rewrite translationCount_fold, languageMap_fold, versionMap_fold.
  cbn [Split.initialOrganize Split.translationCount Split.languageMap Split.versionMap].
  destruct (pushAll_spec Split.language_code docs [] (NoDup_nil_2 : NoDup (map fst [])))
    as (_ & Hlget & Hlkeys).
  destruct (pushAll_spec Split.versionKey docs [] (NoDup_nil_2 : NoDup (map fst [])))
    as (_ & _ & Hvkeys).
  split; [lia|]. split; [|split].
  - intros l. rewrite Hlkeys. split.
    + intros [H|H]; [inversion H | exact H].
    + intros H. right. exact H.
  - intros l. rewrite Hlget. reflexivity.
  - intros Hplain l v Hl. unfold Split.indexVersions.
    rewrite list_elem_of_fmap. split.
    + intros (key & Hv & Hkey). apply list_elem_of_filter in Hkey.
      destruct Hkey as [Hstart Hkey]. apply Hvkeys in Hkey.
      destruct Hkey as [Hkey|(d & Hd & <-)]; [inversion Hkey|].
      destruct (Hplain d Hd) as [(_ & Hu & _) Hlab].
      unfold Split.versionKey in Hv, Hstart. fold (Spec.versionLabel d) in Hv, Hstart.
      change ("_" +:+ Spec.versionLabel d)
        with (String Str.underscore (Spec.versionLabel d)) in Hv, Hstart.
      change (l +:+ "_") with (l +:+ String Str.underscore EmptyString) in Hstart.
      apply (startsWith_head _ _ _ _ _ Hl Hu) in Hstart.
      unfold Str.split in Hv.
      rewrite (splitGo_piece _ _ Hu), (splitGo_end _ _ Hlab), !rev_rev_app_nil in Hv.
      cbn in Hv. injection Hv as ->. exists d. auto.
    + intros (d & Hd & <- & <-).
      destruct (Hplain d Hd) as [(_ & Hu & _) Hlab].
      exists (Split.versionKey d). split.
      * unfold Split.versionKey. fold (Spec.versionLabel d).
        change ("_" +:+ Spec.versionLabel d)
          with (String Str.underscore (Spec.versionLabel d)).
        unfold Str.split.
        rewrite (splitGo_piece _ _ Hu), (splitGo_end _ _ Hlab), !rev_rev_app_nil.
        reflexivity.
      * apply list_elem_of_filter. split.
        -- unfold Split.versionKey.
           rewrite <- append_assoc. apply startsWith_app.
        -- apply Hvkeys. right. exists d. auto.
Qed.

(** C9. Evaluation at streams whose versions hold an underscore. For one
    English translation of version 1_0 the index counts one translation
    and one for the language, but lists the version as 1. For two English
    translations of versions 1_0 and 1_1 it lists the version 1 twice, and
    both groups go to the files of version 1, the later replacing the
    earlier. *)
Theorem index_cuts_version_at_underscore :
  let d := Samples.documentOf "k" "en" (JStr "1_0") [("1", [Samples.oneAyah])] in
  let e := Samples.documentOf "m" "en" (JStr "1_1") [("1", [Samples.oneAyah])] in
  let one := Split.organizeTranslations [d] Samples.afterIngest in
  let two := Split.organizeTranslations [d; e] Samples.afterIngest in
  fst one = Ok {| Split.statTranslationCount := 1;
                  Split.languageCount := 1; Split.versionCount := 1 |}
  ∧ (files (snd one) !! "datasets/translations_index.json") ≫= JSON.parse
    = Some (JObj [("total_translations", JNum 1);
                  ("languages",
                   JArr [JObj [("code", JStr "en");
                               ("translation_count", JNum 1);
                               ("versions", JArr [JStr "1"])]])])
  ∧ (files (snd two) !! "datasets/translations_index.json") ≫= JSON.parse
    = Some (JObj [("total_translations", JNum 2);
                  ("languages",
                   JArr [JObj [("code", JStr "en");
                               ("translation_count", JNum 2);
                               ("versions", JArr [JStr "1"; JStr "1"])]])])
  ∧ files (snd two) !! "datasets/en/version_1_translations.json"
    = Some (JSON.stringify (JArr [Split.documentToJs e]))
  ∧ files (snd two) !! "datasets/en/version_1_0_translations.json" = None.
Proof.
  cbn zeta. conjuncts; vm_compute; reflexivity.
Qed.

(** * Further properties of the two scripts

    Properties of the code that the specification does not state: the
    CSV text as a whole, the outcome and the files of one translation, the
    counters of a run, and the files and the index of the regrouping
    stage. *)

(** ** The CSV text as a whole *)

Lemma cut_not_nil (sep : ascii) (s : string) : ∀ q, Spec.cut sep q s ≠ [].
Proof.
  induction s as [|c r IH]; intros q; cbn [Spec.cut]; [discriminate|].
  destruct (Ascii.eqb c Str.quote).
  - specialize (IH (negb q)). destruct (Spec.cut sep (negb q) r); [contradiction|discriminate].
  - destruct (Ascii.eqb c sep && negb q); [discriminate|].
    specialize (IH q). destruct (Spec.cut sep q r); [contradiction|discriminate].
Qed.

Lemma consHead_single (c : ascii) (l : list string) (a : string) :
  l ≠ [] → Spec.consHead c l = [String c a] → l = [a].
Proof.
  destruct l as [|p rest]; [contradiction|]. intros _. cbn [Spec.consHead].
  intros H. injection H as -> ->. reflexivity.
Qed.

(** A text without separator outside quotes stays in one piece together
    with what follows it, up to the next separator. *)
Lemma cut_app (sep : ascii) (a b : string) :
  ∀ q,
    Spec.cut sep q a = [a] →
    Spec.cut sep q (a +:+ b)
    = match Spec.cut sep (Spec.quoteState q a) b with
      | [] => [a]
      | p :: rest => (a +:+ p) :: rest
      end.
Proof.
  induction a as [|c r IH]; intros q H.
  - rewrite append_nil_l. cbn [Spec.quoteState].
    destruct (Spec.cut sep q b) eqn:E; [|reflexivity].
    exfalso. exact (cut_not_nil sep b q E).
  - rewrite append_cons. cbn [Spec.cut Spec.quoteState] in *.
    destruct (Ascii.eqb c Str.quote).
    + apply consHead_single in H; [|apply cut_not_nil].
      rewrite (IH _ H).
      destruct (Spec.cut sep (Spec.quoteState (negb q) r) b); reflexivity.
    + destruct (Ascii.eqb c sep && negb q); [discriminate|].
      apply consHead_single in H; [|apply cut_not_nil].
      rewrite (IH _ H).
      destruct (Spec.cut sep (Spec.quoteState q r) b); reflexivity.
Qed.

Lemma cut_bare (sep : ascii) (s : string) :
  Str.includes sep s = false → Str.includes Str.quote s = false →
  ∀ q, Spec.cut sep q s = [s].
Proof.
  induction s as [|c r IH]; intros Hs Hq q; [reflexivity|].
  apply includes_cons in Hs. apply includes_cons in Hq.
  destruct Hs as [Hc Hs], Hq as [Hc' Hq].
  cbn [Spec.cut]. rewrite Hc', Hc. cbn [andb].
  rewrite (IH Hs Hq). reflexivity.
Qed.

Lemma cut_doubled (sep : ascii) (s : string) :
  Spec.cut sep true
    (Str.replaceAll Str.quote Csv.twoQuotes s +:+ String Str.quote EmptyString)
  = [Str.replaceAll Str.quote Csv.twoQuotes s +:+ String Str.quote EmptyString].
Proof.
  induction s as [|c r IH].
  - reflexivity.
  - cbn [Str.replaceAll]. destruct (Ascii.eqb c Str.quote) eqn:E.
    + unfold Csv.twoQuotes in *. rewrite !append_cons, append_nil_l.
      cbn [Spec.cut]. rewrite Ascii.eqb_refl. cbn [negb].
      rewrite IH. reflexivity.
    + rewrite append_cons. cbn [Spec.cut]. rewrite E.
      rewrite andb_false_r. rewrite IH. reflexivity.
Qed.

Lemma cut_escaped (sep : ascii) (value : string) :
  sep = Str.comma ∨ sep = Str.nl →
  Spec.cut sep false (Csv.csvEscape value) = [Csv.csvEscape value].
Proof.
  intros Hsep. unfold Csv.csvEscape.
  destruct (Csv.needsQuoting value) eqn:E.
  - cbn [Spec.cut]. rewrite Ascii.eqb_refl. cbn [negb].
    rewrite cut_doubled. reflexivity.
  - unfold Csv.needsQuoting in E.
    apply orb_false_iff in E. destruct E as [E Hq].
    apply orb_false_iff in E. destruct E as [Hc Hn].
    apply cut_bare; [|exact Hq]. destruct Hsep as [-> | ->]; assumption.
Qed.

Lemma decodeField_csvEscape (value : string) :
  Csv.decodeField (Csv.csvEscape value) = Some value.
Proof.
  unfold Csv.csvEscape. destruct (Csv.needsQuoting value) eqn:E.
  - cbn [Csv.decodeField]. rewrite Ascii.eqb_refl. apply decodeQuoted_doubled.
  - apply decodeField_bare, E.
Qed.

Lemma sealed_escaped (value : string) : Spec.sealedField (Csv.csvEscape value).
Proof.
  split; [apply cut_escaped; auto | apply scan_escaped].
Qed.

Lemma sealed_plain (h : string) : Spec.plainName h → Spec.sealedField h.
Proof.
  intros H. unfold Spec.plainName in H. split.
  - unfold Csv.needsQuoting in H.
    apply orb_false_iff in H. destruct H as [H Hq].
    apply orb_false_iff in H. destruct H as [Hc _].
    apply cut_bare; assumption.
  - split; apply (scan_bare h H).
Qed.

Lemma cut_join (fields : list string) :
  fields ≠ [] → Forall Spec.sealedField fields →
  Spec.cut Str.comma false (Str.join "," fields) = fields.
Proof.
  intros Hne Hall. induction Hall as [|f rest [Hf [_ Hq]] Hrest IH]; [contradiction|].
  destruct rest as [|g rest'].
  - exact Hf.
  - change (Str.join "," (f :: g :: rest'))
      with (f +:+ "," +:+ Str.join "," (g :: rest')).
    rewrite (cut_app _ _ _ _ Hf), Hq.
    change ("," +:+ Str.join "," (g :: rest'))
      with (String Str.comma (Str.join "," (g :: rest'))).
    cbn [Spec.cut]. 
    change (Ascii.eqb Str.comma Str.quote) with false. cbv iota.
    rewrite Ascii.eqb_refl. cbn [andb negb].
    rewrite append_nil_r, IH by discriminate. reflexivity.
Qed.

Lemma cut_quiet (s : string) :
  ∀ q, Spec.countRecords q s = O → Spec.cut Str.nl q s = [s].
Proof.
  induction s as [|c r IH]; intros q H; [reflexivity|].
  cbn [Spec.cut Spec.countRecords] in *.
  destruct (Ascii.eqb c Str.quote).
  - rewrite (IH _ H). reflexivity.
  - destruct (Ascii.eqb c Str.nl && negb q); [discriminate|].
    rewrite (IH _ H). reflexivity.
Qed.

(** Cutting a text of closed lines at the line breaks gives the lines. *)
Lemma cut_lines (bodies : list string) :
  Forall Spec.quiet bodies →
  Spec.cut Str.nl false (Str.concat (map (fun b => b +:+ Str.NL) bodies))
  = bodies ++ [EmptyString].
Proof.
  induction 1 as [|b rest [Hc Hq] _ IH]; [reflexivity|].
  cbn [map Str.concat]. rewrite append_assoc.
  rewrite (cut_app _ _ _ _ (cut_quiet b false Hc)), Hq.
  unfold Str.NL at 1. rewrite append_cons, append_nil_l.
  cbn [Spec.cut].
  change (Ascii.eqb Str.nl Str.quote) with false. cbv iota.
  rewrite Ascii.eqb_refl. cbn [andb negb].
  rewrite append_nil_r, IH. reflexivity.
Qed.

Lemma last_snoc_str (l : list string) (x : string) : last (l ++ [x]) = Some x.
Proof. apply last_snoc. Qed.

Lemma removelast_snoc (l : list string) (x : string) : removelast (l ++ [x]) = l.
Proof. apply removelast_last. Qed.

Lemma readAll_map {A B C} (f : B → option C) (g : A → B) (h : A → C) (l : list A) :
  (∀ x, x ∈ l → f (g x) = Some (h x)) →
  Spec.readAll f (map g l) = Some (map h l).
Proof.
  induction l as [|x r IH]; intros H; [reflexivity|].
  cbn [map Spec.readAll].
  rewrite (H x) by apply list_elem_of_here.
  rewrite IH; [reflexivity|]. intros y Hy. apply H. apply list_elem_of_further, Hy.
Qed.

Lemma readRecord_line (hs : list string) (row : obj) :
  hs ≠ [] →
  Spec.readRecord (Str.join "," (map (Csv.csvField row) hs)) = Some (Spec.cells hs row).
Proof.
  intros Hne. unfold Spec.readRecord, Spec.cells.
  rewrite cut_join.
  - apply readAll_map. intros h _. apply decodeField_csvEscape.
  - destruct hs; [contradiction|discriminate].
  - apply Forall_fmap, Forall_true. intros h. apply sealed_escaped.
Qed.

Lemma readRecord_header (hs : list string) :
  hs ≠ [] → Forall Spec.plainName hs →
  Spec.readRecord (Str.join "," hs) = Some hs.
Proof.
  intros Hne Hplain. unfold Spec.readRecord.
  rewrite cut_join; [|exact Hne|].
  - rewrite <- (map_id hs) at 1. rewrite <- (map_id hs) at 2.
    apply readAll_map. intros h Hh. apply decodeField_bare.
    rewrite Forall_forall in Hplain. apply Hplain, Hh.
  - eapply Forall_impl; [exact Hplain|]. intros h. apply sealed_plain.
Qed.

Lemma readAll_app {A B} (f : A → option B) (l1 l2 : list A) (a b : list B) :
  Spec.readAll f l1 = Some a → Spec.readAll f l2 = Some b →
  Spec.readAll f (l1 ++ l2) = Some (a ++ b).
Proof.
  revert a. induction l1 as [|x r IH]; intros a H1 H2.
  - injection H1 as <-. exact H2.
  - cbn [Spec.readAll app] in *. destruct (f x) as [y|]; [|discriminate].
    destruct (Spec.readAll f r) as [ys|]; [|discriminate].
    injection H1 as <-. rewrite (IH ys eq_refl H2). reflexivity.
Qed.

(** The text of a header line and of data lines, read as a whole. *)
Lemma readCsv_lines (hs : list string) (includeHeaders : bool) (rows : list obj) :
  hs ≠ [] → Forall Spec.plainName hs →
  Spec.readCsv ((if includeHeaders then Csv.headerLine hs else EmptyString)
                +:+ Spec.rowsText hs rows)
  = Some ((if includeHeaders then [hs] else []) ++ map (Spec.cells hs) rows).
Proof.
  intros Hne Hplain.
  set (body := fun row : obj => Str.join "," (map (Csv.csvField row) hs)).
  set (bodies := (if includeHeaders then [Str.join "," hs] else []) ++ map body rows).
  assert (Htext : (if includeHeaders then Csv.headerLine hs else EmptyString)
                  +:+ Spec.rowsText hs rows
                  = Str.concat (map (fun b => b +:+ Str.NL) bodies)).
  { unfold bodies, Spec.rowsText. rewrite map_app, strconcat_app.
    f_equal.
    - destruct includeHeaders; [|reflexivity].
      cbn [map Str.concat]. rewrite append_nil_r. reflexivity.
    - rewrite map_map. reflexivity. }
  assert (Hquiet : Forall Spec.quiet bodies).
  { unfold bodies. apply Forall_app. split.
    - destruct includeHeaders; [|constructor].
      constructor; [|constructor]. apply quiet_join.
      eapply Forall_impl; [exact Hplain|]. intros h Hh. apply sealed_plain, Hh.
    - apply Forall_fmap, Forall_true. intros row. apply quiet_join.
      apply Forall_fmap, Forall_true. intros h. apply scan_escaped. }
  rewrite Htext. unfold Spec.readCsv.
  rewrite (cut_lines bodies Hquiet), last_snoc, removelast_last.
  unfold bodies. apply readAll_app.
  - destruct includeHeaders; [|reflexivity].
    cbn [Spec.readAll]. rewrite (readRecord_header hs Hne Hplain). reflexivity.
  - apply readAll_map. intros row _. apply readRecord_line, Hne.
Qed.

(** Reading back the text that the embedding of [objectsToCSV] gives. *)
Lemma objectsToCSV_read_back (first : obj) (rest : list obj) (includeHeaders : bool) :
  let hs := keys first in
  hs ≠ [] →
  Forall Spec.plainName hs →
  Spec.readCsv (Csv.objectsToCSV (first :: rest) includeHeaders)
  = Some ((if includeHeaders then [hs] else [])
          ++ map (Spec.cells hs) (first :: rest)).
Proof.
  intros hs Hne Hplain. rewrite objectsToCSV_rows. apply readCsv_lines; assumption.
Qed.


(** X1. The CSV text of stage 1 read back as a whole. For records whose
    first one has at least one property, with property names without
    comma, quote or line break that are no names every object inherits,
    and with values that print under these names, reading the text of
    [objectsToCSV] by the rule of RFC 4180 gives the header row (when
    asked for) and then one record per object, whose cells are the texts
    of the values under the columns of the first object. *)
Theorem csv_text_roundtrip (first : obj) (rest : list obj) (includeHeaders : bool) :
  let hs := keys first in
  hs ≠ [] →
  Forall Spec.plainName hs →
  Forall (fun h => isInherited h = false) hs →
  Forall (fun row => Forall (fun h => Spec.printable (getProp row h) = true) hs)
    (first :: rest) →
  Spec.readCsv (Csv.objectsToCSV (first :: rest) includeHeaders)
  = Some ((if includeHeaders then [hs] else [])
          ++ map (Spec.cells hs) (first :: rest)).
Proof.
  intros hs Hne Hplain _ _. apply objectsToCSV_read_back; assumption.
Qed.

Lemma csv_text_roundtrip_witness :
  Spec.readCsv (Csv.objectsToCSV [Samples.quotedRow] true)
  = Some [["surah"; "translation"; "footnotes"]; ["1"; Csv.sampleField; EmptyString]].
Proof.
  apply (csv_text_roundtrip Samples.quotedRow [] true).
  - discriminate.
  - repeat (constructor; [reflexivity|]). constructor.
  - repeat (constructor; [reflexivity|]). constructor.
  - constructor; [|constructor]. repeat (constructor; [reflexivity|]). constructor.
Defined.

(** ** The columns of the CSV text of stage 2 *)

Lemma existsb_eqb_elem (k : string) (l : list string) :
  existsb (String.eqb k) l = true ↔ k ∈ l.
Proof.
  rewrite existsb_exists. split.
  - intros [x [Hx E]]. apply String.eqb_eq in E. subst x. apply list_elem_of_In, Hx.
  - intros H. exists k. split; [apply list_elem_of_In, H | apply String.eqb_refl].
Qed.











Lemma headers_uniform (hs : list string) (data : list obj) :
  NoDup hs →
  Spec.uniform hs data →
  (∀ row, row ∈ data → truthy (getProp row "surahs") = false) →
  ∀ acc, acc = [] ∨ acc = hs → data ≠ [] ∨ acc = hs →
    fold_left Split.collectHeaders data acc = hs.
Proof.
  intros Hnd Hu Hs. induction data as [|row data IH]; intros acc Hacc Hne; cbn [fold_left].
  - destruct Hne as [Hne | ->]; [contradiction | reflexivity].
  - assert (Hrow : Split.collectHeaders acc row = hs).
    { unfold Split.collectHeaders. rewrite (Hs row) by apply list_elem_of_here.
      rewrite (Hu row) by apply list_elem_of_here.
      clear -Hnd Hacc. 
      assert (Hfold : ∀ ks pre, NoDup (pre ++ ks) →
                fold_left Split.addHeader ks pre = pre ++ ks).
      { induction ks as [|k ks IHk]; intros pre Hp; cbn [fold_left].
        - rewrite app_nil_r. reflexivity.
        - unfold Split.addHeader at 2.
          destruct (existsb (String.eqb k) pre) eqn:E.
          + apply existsb_eqb_elem in E. apply NoDup_app in Hp.
            destruct Hp as [_ [Hp _]]. exfalso. apply (Hp k E), list_elem_of_here.
          + rewrite IHk; rewrite <- app_assoc; [reflexivity | exact Hp]. }
      assert (Hsame : ∀ ks pre, (∀ k, k ∈ ks → k ∈ pre) →
                fold_left Split.addHeader ks pre = pre).
      { induction ks as [|k ks IHk]; intros pre Hp; cbn [fold_left]; [reflexivity|].
        unfold Split.addHeader at 2.
        destruct (existsb (String.eqb k) pre) eqn:E.
        - apply IHk. intros k' Hk'. apply Hp, list_elem_of_further, Hk'.
        - assert (Hk : k ∈ pre) by apply Hp, list_elem_of_here.
          apply existsb_eqb_elem in Hk. congruence. }
      destruct Hacc as [-> | ->].
      - apply (Hfold hs []). exact Hnd.
      - apply Hsame. auto. }
    rewrite Hrow. apply IH.
    + intros r Hr. apply Hu, list_elem_of_further, Hr.
    + intros r Hr. apply Hs, list_elem_of_further, Hr.
    + auto.
    + auto.
Qed.

(** X3. The two copies of [objectsToCSV] agree on uniform records. For
    records that all list the same properties (no name twice) and carry no
    [surahs] property, stage 2 writes the text that stage 1 writes. *)
Theorem csv_copies_agree (hs : list string) (data : list obj) (includeHeaders : bool) :
  NoDup hs →
  Spec.uniform hs data →
  (∀ row, row ∈ data → truthy (getProp row "surahs") = false) →
  Split.objectsToCSV data includeHeaders = Csv.objectsToCSV data includeHeaders.
Proof.
  intros Hnd Hu Hs. destruct data as [|first rest]; [reflexivity|].
  unfold Split.objectsToCSV, Csv.objectsToCSV.
  rewrite (headers_uniform hs (first :: rest) Hnd Hu Hs []) by (auto; left; discriminate).
  rewrite (Hu first) by apply list_elem_of_here.
  rewrite !fold_lines. f_equal. f_equal. apply map_ext_in. intros row Hrow.
  unfold Split.csvLine, Csv.csvLine. f_equal. f_equal. apply map_ext. intros h.
  apply split_csvField_plain, Hs, list_elem_of_In, Hrow.
Qed.

Lemma csv_copies_agree_witness :
  Split.objectsToCSV (concat Samples.twoBuffers) true
  = Csv.objectsToCSV (concat Samples.twoBuffers) true.
Proof.
  apply (csv_copies_agree (keys (Samples.enriched "a" 1))).
  - apply (bool_decide_unpack _). vm_compute. reflexivity.
  - intros row Hrow. cbn in Hrow.
    repeat (apply elem_of_cons in Hrow; destruct Hrow as [->|Hrow]);
      [reflexivity | reflexivity | reflexivity | inversion Hrow].
  - intros row Hrow. cbn in Hrow.
    repeat (apply elem_of_cons in Hrow; destruct Hrow as [->|Hrow]);
      [reflexivity | reflexivity | reflexivity | inversion Hrow].
Defined.



(** ** The per-translation writer *)

Lemma processAyah_wellFormed (v : jsval) (w : world) :
  Spec.wellFormedVerse v = true →
  Ingest.processAyah v w = (Ok (Spec.processedRow v), w).
Proof.
  destruct v as [| | | | | |o]; try discriminate.
  unfold Spec.wellFormedVerse, Spec.processedRow, Ingest.processAyah.
  cbn [member orThrow default from_option]. unfold id, bind, ret.
  destruct (getProp o "translation") as [| | | |tr| |] eqn:Et; try discriminate.
  unfold Ingest.replaceNewlines at 1. unfold ret.
  destruct (getProp o "footnotes") as [| |b|n|fn| |] eqn:Ef; cbn [truthy negb];
    try discriminate; try reflexivity.
  - destruct b; [discriminate|]. intros _. reflexivity.
  - destruct (n =? 0); [|discriminate]. intros _. reflexivity.
  - intros _. unfold Ingest.replaceNewlines, ret.
    destruct (String.eqb fn EmptyString) eqn:E; [|reflexivity].
    apply String.eqb_eq in E. subst fn. reflexivity.
Qed.

Lemma processAyah_illFormed (v : jsval) (w : world) :
  Spec.wellFormedVerse v = false →
  ∃ message, Ingest.processAyah v w = (Thrown message, w).
Proof.
  unfold Ingest.processAyah.
  destruct v as [| | | | | |o]; cbn [member orThrow];
    try (intros _; eexists; reflexivity).
  unfold Spec.wellFormedVerse, bind, ret.
  destruct (getProp o "translation") as [| | | |tr| |] eqn:Et;
    try (intros _; eexists; reflexivity).
  unfold Ingest.replaceNewlines at 1. unfold ret.
  destruct (getProp o "footnotes") as [| |b|n|fn| |] eqn:Ef; cbn [truthy negb];
    try discriminate; try (intros _; eexists; reflexivity).
  - destruct b; [|discriminate]. intros _. eexists. reflexivity.
  - destruct (n =? 0); [discriminate|]. intros _. eexists. reflexivity.
Qed.

Lemma mapM_processAyah (verses : list jsval) (w : world) :
  if forallb Spec.wellFormedVerse verses
  then mapM Ingest.processAyah verses w = (Ok (map Spec.processedRow verses), w)
  else ∃ message, mapM Ingest.processAyah verses w = (Thrown message, w).
Proof.
  induction verses as [|v rest IH]; [reflexivity|].
  cbn [forallb mapM map]. destruct (Spec.wellFormedVerse v) eqn:E; cbn [andb].
  - unfold bind. rewrite (processAyah_wellFormed v w E). cbv beta iota.
    destruct (forallb Spec.wellFormedVerse rest).
    + rewrite IH. reflexivity.
    + destruct IH as [message IH]. exists message. rewrite IH. reflexivity.
  - destruct (processAyah_illFormed v w E) as [message H]. exists message.
    unfold bind. rewrite H. reflexivity.
Qed.

(** Writes to paths of their own leave every other file as it was. *)
Lemma forEachM_writes {A} (path content : A → string) (l : list A) :
  ∀ w,
    ∃ w',
      forEachM (fun e => writeFile (path e) (content e)) l w = (Ok tt, w')
      ∧ dirs w' = dirs w
      ∧ (∀ p, p ∉ map path l → files w' !! p = files w !! p)
      ∧ (NoDup (map path l) →
         ∀ e, e ∈ l → files w' !! path e = Some (content e)).
Proof.
  induction l as [|x r IH]; intros w.
  - exists w. split; [reflexivity|]. split; [reflexivity|]. split; [reflexivity|].
    intros _ e He. apply elem_of_nil in He. contradiction.
  - cbn [forEachM]. unfold bind at 1. unfold writeFile at 1.
    destruct (IH {| dirs := dirs w;
                    files := <[path x := content x]> (files w);
                    trace := trace w ++ [WriteFile (path x) (content x)] |})
      as [w' [Hrun [Hd [Hframe Hhit]]]].
    exists w'. split; [exact Hrun|]. split; [exact Hd|]. split.
    + intros p Hp. cbn [map] in Hp. apply not_elem_of_cons in Hp. destruct Hp as [Hx Hp].
      rewrite (Hframe p Hp). cbn [files]. apply lookup_insert_ne. congruence.
    + intros Hnd e He. cbn [map] in Hnd. apply NoDup_cons in Hnd.
      destruct Hnd as [Hx Hnd]. apply elem_of_cons in He. destruct He as [-> | He].
      * rewrite (Hframe _ Hx). cbn [files]. apply lookup_insert_eq.
      * apply (Hhit Hnd e He).
Qed.


Lemma pathJoin_not_strings (language key : jsval) (w : world) :
  ¬ (Spec.isString language ∧ Spec.isString key) →
  pathJoin [JStr "datasets"; language; key] w
  = (Thrown "The path argument must be of type string", w).
Proof.
  intros H. unfold pathJoin. cbn [allStrings option_map].
  destruct language; try reflexivity.
  destruct key; try reflexivity.
  exfalso. apply H. split; eexists; reflexivity.
Qed.

Lemma bind_ok {A B} (m : M A) (k : A → M B) (w w' : world) (a : A) :
  m w = (Ok a, w') → bind m k w = k a w'.
Proof. intros H. unfold bind. rewrite H. reflexivity. Qed.

Lemma bind_thrown {A B} (m : M A) (k : A → M B) (w w' : world) (e : string) :
  m w = (Thrown e, w') → bind m k w = (Thrown e, w').
Proof. intros H. unfold bind. rewrite H. reflexivity. Qed.

Lemma tryCatch_ok {A} (body : M A) (handler : string → M A) (w w' : world) (a : A) :
  body w = (Ok a, w') → tryCatch body handler w = (Ok a, w').
Proof. intros H. unfold tryCatch. rewrite H. reflexivity. Qed.

Lemma tryCatch_thrown {A} (body : M A) (handler : string → M A) (w w' : world)
    (e : string) :
  body w = (Thrown e, w') → tryCatch body handler w = handler e w'.
Proof. intros H. unfold tryCatch. rewrite H. reflexivity. Qed.

Lemma processTranslation_steps (remote : api) (o : obj) (k l : string)
    (w : world) (rest : string → list jsval → M (jsval * list obj))
    (handler : string → M (jsval * list obj)) :
  tryCatch
    (bind (pathJoin [JStr "datasets"; JStr l; JStr k])
       (fun translationDir =>
          bind (ensureDir translationDir)
            (fun _ =>
               bind (writeFile (translationDir +:+ "/metadata.json")
                       (JSON.stringify (JObj o)))
                 (fun _ =>
                    bind (Ingest.getTranslationForAllSurahs remote (JStr k))
                      (rest translationDir)))))
    handler w
  = tryCatch (rest (joinPath ["datasets"; l; k]) (Spec.fetched remote k)) handler
      (Spec.prepared remote (JObj o) k l w).
Proof.
  unfold tryCatch, bind at 1 2 3 4, pathJoin, ensureDir, mkdir, writeFile.
  cbn [allStrings option_map ret]. rewrite fetch_all_spec.
  unfold Spec.prepared, Spec.fetched, extend. cbn [dirs files trace].
  rewrite <- !app_assoc. reflexivity.
Qed.

Lemma processTranslation_bad_verse (remote : api) (o : obj) (k l : string)
    (data : list obj) (w : world) :
  getProp o "key" = JStr k →
  getProp o "language_iso_code" = JStr l →
  Spec.fetched remote k ≠ [] →
  forallb Spec.wellFormedVerse (Spec.fetched remote k) = false →
  ∃ message,
    Ingest.processTranslation remote (JObj o) data w
    = (Ok (Spec.errorRecord (JStr k) (JStr l) message, data),
       Spec.prepared remote (JObj o) k l w).
Proof.
  intros Hk Hl Hne Hbad. unfold Ingest.processTranslation.
  cbn [member orThrow]. rewrite Hk, Hl.
  unfold bind at 1 2 3 4. unfold ret at 1 2 3 4.
  rewrite processTranslation_steps.
  destruct (Spec.fetched remote k) as [|v vs] eqn:E; [contradiction|].
  pose proof (mapM_processAyah (v :: vs) (Spec.prepared remote (JObj o) k l w)) as Hm.
  rewrite Hbad in Hm. destruct Hm as [message Hm]. exists message.
  erewrite tryCatch_thrown; [reflexivity|].
  apply bind_thrown, Hm.
Qed.


Lemma processTranslation_bad_path (remote : api) (o : obj) (data : list obj) (w : world) :
  ¬ (Spec.isString (getProp o "language_iso_code") ∧ Spec.isString (getProp o "key")) →
  Ingest.processTranslation remote (JObj o) data w
  = (Ok (Spec.errorRecord (getProp o "key") (getProp o "language_iso_code")
           "The path argument must be of type string", data), w).
Proof.
  intros H. unfold Ingest.processTranslation. cbn [member orThrow].
  unfold bind at 1 2 3 4. unfold ret at 1 2 3 4.
  erewrite tryCatch_thrown; [reflexivity|].
  apply bind_thrown, pathJoin_not_strings, H.
Qed.

Lemma processTranslation_empty (remote : api) (o : obj) (k l : string)
    (data : list obj) (w : world) :
  getProp o "key" = JStr k →
  getProp o "language_iso_code" = JStr l →
  Spec.fetched remote k = [] →
  Ingest.processTranslation remote (JObj o) data w
  = (Ok (JNull, data), Spec.prepared remote (JObj o) k l w).
Proof.
  intros Hk Hl Hnone. unfold Ingest.processTranslation.
  cbn [member orThrow]. rewrite Hk, Hl.
  unfold bind at 1 2 3 4. unfold ret at 1 2 3 4.
  rewrite processTranslation_steps, Hnone. reflexivity.
Qed.

Lemma processTranslation_good_run (remote : api) (o : obj) (k l : string)
    (data : list obj) (w : world) :
  getProp o "key" = JStr k →
  getProp o "language_iso_code" = JStr l →
  Spec.fetched remote k ≠ [] →
  forallb Spec.wellFormedVerse (Spec.fetched remote k) = true →
  let dir := joinPath ["datasets"; l; k] in
  let title := getProp o "title" in
  let version := getProp o "version" in
  let rows := map Spec.processedRow (Spec.fetched remote k) in
  let groups := entries (Ingest.groupBySurah rows) in
  let parallel := Csv.objectsToCSV (map Ingest.parallelRow rows) true in
  ∃ w3,
    forEachM (fun entry => writeFile (Spec.surahPath dir entry)
                             (Csv.objectsToCSV (snd entry) true)) groups
      (Spec.withFull (Spec.prepared remote (JObj o) k l w) dir rows) = (Ok tt, w3)
    ∧ Ingest.processTranslation remote (JObj o) data w
      = (Ok (Spec.successRecord (JStr k) (JStr l) (length (Spec.fetched remote k))
               (Ingest.jsonData (JStr k) (JStr l) title version rows),
             data ++ map (Ingest.enhancedRow (JStr k) (JStr l) title version) rows),
         {| dirs := dirs w3;
            files := <[dir +:+ "/parallel_corpus.csv" := parallel]> (files w3);
            trace := trace w3 ++ [WriteFile (dir +:+ "/parallel_corpus.csv") parallel] |}).
Proof.
  intros Hk Hl Hne Hgood dir title version rows groups parallel.
  unfold Ingest.processTranslation.
  cbn [member orThrow]. rewrite Hk, Hl.
  unfold bind at 1 2 3 4. unfold ret at 1 2 3 4.
  rewrite processTranslation_steps. fold dir.
  destruct (Spec.fetched remote k) as [|v vs] eqn:E; [contradiction|].
  set (w1 := Spec.prepared remote (JObj o) k l w).
  pose proof (mapM_processAyah (v :: vs) w1) as Hm. rewrite Hgood in Hm.
  fold rows in Hm.
  destruct (forEachM_writes (Spec.surahPath dir) (fun entry => Csv.objectsToCSV (snd entry) true)
              groups (Spec.withFull w1 dir rows)) as [w3 [Hrun _]].
  exists w3. split; [exact Hrun|].
  erewrite tryCatch_ok; [reflexivity|].
  erewrite bind_ok by exact Hm.
  erewrite bind_ok by reflexivity.
  erewrite bind_ok by exact Hrun.
  erewrite bind_ok by reflexivity. reflexivity.
Qed.

(** What a round of the driver needs to know of [processTranslation]: it
    returns, with a null result, an error record or a success record, and
    the shared buffer grows only in the last case. *)
Lemma processTranslation_cases (remote : api) (o : obj) (data : list obj) (w : world) :
  ∃ result data' w',
    Ingest.processTranslation remote (JObj o) data w = (Ok (result, data'), w')
    ∧ ((result = JNull ∧ data' = data)
       ∨ (∃ message,
             result = Spec.errorRecord (getProp o "key") (getProp o "language_iso_code")
                        message
             ∧ data' = data)
       ∨ (∃ count json_data rows,
             result = Spec.successRecord (getProp o "key")
                        (getProp o "language_iso_code") count (JObj json_data)
             ∧ data' = data ++ rows)).
Proof.
  destruct (getProp o "key") as [| | | |k| |] eqn:Hk;
    try (do 3 eexists; split;
         [apply processTranslation_bad_path; rewrite Hk; intros [_ [s Hs]]; discriminate
         | right; left; rewrite Hk; eauto]).
  destruct (getProp o "language_iso_code") as [| | | |l| |] eqn:Hl;
    try (do 3 eexists; split;
         [apply processTranslation_bad_path; rewrite Hl; intros [[s Hs] _]; discriminate
         | right; left; rewrite Hk, Hl; eauto]).
  destruct (Spec.fetched remote k) as [|v vs] eqn:E.
  - do 3 eexists. split; [apply (processTranslation_empty remote o k l); assumption|].
    left. auto.
  - destruct (forallb Spec.wellFormedVerse (Spec.fetched remote k)) eqn:Hw.
    + destruct (processTranslation_good_run remote o k l data w Hk Hl) as [w3 [_ Hrun]];
        [rewrite E; discriminate | exact Hw |].
      do 3 eexists. split; [exact Hrun|]. right. right.
      unfold Ingest.jsonData. eauto.
    + destruct (processTranslation_bad_verse remote o k l data w Hk Hl) as [message Hrun];
        [rewrite E; discriminate | exact Hw |].
      do 3 eexists. split; [exact Hrun|]. right. left. eauto.
Qed.




Lemma emptyWorld_writable (dir : string) : Spec.writable emptyWorld dir.
Proof.
  split; [intros p _; apply lookup_empty|].
  intros p Hp. apply elem_of_empty in Hp. contradiction.
Qed.


(** ** The driver of stage 1 *)

Lemma saveProgress_returns (total i : nat) (key : jsval) (st : Ingest.loopState)
    (w : world) :
  ∃ w', Ingest.saveProgress total i key st w = (Ok tt, w').
Proof.
  unfold Ingest.saveProgress.
  destruct ((i mod 5 =? 0) || (i =? total - 1))%nat; eexists; reflexivity.
Qed.

Lemma flushCsv_last (total i : nat) (st : Ingest.loopState) (w : world) :
  ∃ st' w',
    Ingest.flushCsv total i st w = (Ok st', w')
    ∧ ((i =? total - 1)%nat = true →
       Ingest.allTranslationsData st' = [] ∧ Ingest.firstCSVChunk st' = false).
Proof.
  unfold Ingest.flushCsv.
  destruct (10000 <? Z.of_nat (length (Ingest.allTranslationsData st))); cbn [orb].
  - destruct (saveChunkedData_returns (Ingest.allTranslationsData st) 1000
                (Ingest.firstCSVChunk st) w) as [w' Hw'].
    unfold bind. rewrite Hw'. do 2 eexists. split; [reflexivity|]. auto.
  - destruct (i =? total - 1)%nat.
    + destruct (saveChunkedData_returns (Ingest.allTranslationsData st) 1000
                  (Ingest.firstCSVChunk st) w) as [w' Hw'].
      unfold bind. rewrite Hw'. do 2 eexists. split; [reflexivity|]. auto.
    + do 2 eexists. split; [reflexivity|]. discriminate.
Qed.

Lemma flushJson_last (total i : nat) (st : Ingest.loopState) (w : world) :
  ∃ st' w',
    Ingest.flushJson total i st w = (Ok st', w')
    ∧ Ingest.allTranslationsData st' = Ingest.allTranslationsData st
    ∧ Ingest.firstCSVChunk st' = Ingest.firstCSVChunk st
    ∧ ((i =? total - 1)%nat = true →
       Ingest.allTranslationsJSON st' = [] ∧ Ingest.firstJSONChunk st' = false).
Proof.
  unfold Ingest.flushJson.
  destruct (20 <? Z.of_nat (length (Ingest.allTranslationsJSON st))); cbn [orb].
  - destruct (saveJsonData_returns (Ingest.allTranslationsJSON st)
                (Ingest.firstJSONChunk st) (i =? total - 1)%nat w) as [w' Hw'].
    unfold bind. rewrite Hw'. do 2 eexists. split; [reflexivity|]. auto.
  - destruct (i =? total - 1)%nat eqn:E.
    + destruct (saveJsonData_returns (Ingest.allTranslationsJSON st)
                  (Ingest.firstJSONChunk st) true w) as [w' Hw'].
      unfold bind. rewrite Hw'. do 2 eexists. split; [reflexivity|]. auto.
    + do 2 eexists. split; [reflexivity|]. split; [reflexivity|].
      split; [reflexivity|]. discriminate.
Qed.

(** The counters after the counting branch, for the three results that
    [processTranslation] can give. *)
Lemma countResult_cases (result : jsval) (data : list obj) (st : Ingest.loopState)
    (key language : jsval) :
  result = JNull
  ∨ (∃ message, result = Spec.errorRecord key language message)
  ∨ (∃ count json_data, result = Spec.successRecord key language count (JObj json_data)) →
  let st1 := Ingest.countResult result data st in
  Ingest.successCount st1 + Ingest.errorCount st1
  = Ingest.successCount st + Ingest.errorCount st + 1
  ∧ Ingest.successCount st ≤ Ingest.successCount st1
  ∧ Ingest.errorCount st ≤ Ingest.errorCount st1
  ∧ ∃ new,
      Ingest.results st1 = Ingest.results st ++ new
      ∧ (length new ≤ 1)%nat
      ∧ Ingest.successCount st1 - Ingest.successCount st ≤ Z.of_nat (length new).
Proof.
  intros [-> | [[message ->] | [count [json_data ->]]]]; cbn.
  - repeat split; try lia. exists []. rewrite app_nil_r. cbn. repeat split; lia.
  - repeat split; try lia. eexists [_]. cbn. repeat split; lia.
  - repeat split; try lia. eexists [_]. cbn. repeat split; lia.
Qed.

Lemma mainStep_counts (remote : api) (total i : nat) (o : obj)
    (st : Ingest.loopState) (w : world) :
  ∃ st' w',
    Ingest.mainStep remote total i (JObj o) st w = (Ok st', w')
    ∧ Ingest.successCount st' + Ingest.errorCount st'
      = Ingest.successCount st + Ingest.errorCount st + 1
    ∧ Ingest.successCount st ≤ Ingest.successCount st'
    ∧ Ingest.errorCount st ≤ Ingest.errorCount st'
    ∧ (∃ new,
          Ingest.results st' = Ingest.results st ++ new
          ∧ (length new ≤ 1)%nat
          ∧ Ingest.successCount st' - Ingest.successCount st ≤ Z.of_nat (length new))
    ∧ ((i =? total - 1)%nat = true →
       Ingest.allTranslationsData st' = [] ∧ Ingest.allTranslationsJSON st' = []
       ∧ Ingest.firstCSVChunk st' = false ∧ Ingest.firstJSONChunk st' = false).
Proof.
  unfold Ingest.mainStep. cbn [member orThrow].
  unfold bind at 1. unfold ret at 1.
  destruct (processTranslation_cases remote o (Ingest.allTranslationsData st) w)
    as (result & data' & w1 & Hrun & Hcases).
  erewrite bind_ok by exact Hrun. cbn [fst snd].
  set (st1 := Ingest.countResult result data' st).
  destruct (saveProgress_returns total i (getProp o "key") st1 w1) as [w2 Hw2].
  destruct (flushCsv_returns total i st1 w2) as (st2 & w3 & Hc & He2 & Hs2 & Hr2 & Hj2 & Hf2).
  destruct (flushCsv_last total i st1 w2) as (st2' & w3' & Hc' & Hlast2).
  rewrite Hc in Hc'. injection Hc' as <- <-.
  destruct (flushJson_returns total i st2 w3) as (st3 & w4 & Hj & He3 & Hs3 & Hr3).
  destruct (flushJson_last total i st2 w3) as (st3' & w4' & Hj' & Hd3 & Hf3 & Hlast3).
  rewrite Hj in Hj'. injection Hj' as <- <-.
  exists st3, w4. split.
  { erewrite bind_ok by exact Hw2. erewrite bind_ok by exact Hc. exact Hj. }
  assert (Hcount := countResult_cases result data' st (getProp o "key")
                      (getProp o "language_iso_code")).
  cbn zeta in Hcount. fold st1 in Hcount.
  destruct Hcount as (H1 & H2 & H3 & H4).
  { destruct Hcases as [[-> _] | [[message [-> _]] | (count & jd & rows & -> & _)]]; eauto. }
  rewrite He3, He2, Hs3, Hs2, Hr3, Hr2.
  repeat (split; [assumption|]).
  intros Hi. destruct (Hlast2 Hi) as [Ha Hb]. destruct (Hlast3 Hi) as [Hc3 Hd].
  rewrite Hd3, Hf3. auto.
Qed.

Lemma mainLoop_counts (remote : api) (total : nat) (translations : list jsval) :
  Forall Spec.isObject translations →
  ∀ i st w,
    ∃ st' w',
      Ingest.mainLoop remote total i translations st w = (Ok st', w')
      ∧ Ingest.successCount st' + Ingest.errorCount st'
        = Ingest.successCount st + Ingest.errorCount st + Z.of_nat (length translations)
      ∧ Ingest.successCount st ≤ Ingest.successCount st'
      ∧ Ingest.errorCount st ≤ Ingest.errorCount st'
      ∧ (∃ new,
            Ingest.results st' = Ingest.results st ++ new
            ∧ (length new ≤ length translations)%nat
            ∧ Ingest.successCount st' - Ingest.successCount st ≤ Z.of_nat (length new))
      ∧ (translations ≠ [] → (i + length translations)%nat = total →
         Ingest.allTranslationsData st' = [] ∧ Ingest.allTranslationsJSON st' = []
         ∧ Ingest.firstCSVChunk st' = false ∧ Ingest.firstJSONChunk st' = false).
Proof.
  induction 1 as [|t rest [o ->] _ IH]; intros i st w.
  - exists st, w. split; [reflexivity|]. cbn [length]. 
    repeat split; try lia.
    + exists []. rewrite app_nil_r. cbn. repeat split; lia.
    + contradiction.
    + contradiction.
    + contradiction.
    + contradiction.
  - destruct (mainStep_counts remote total i o st w)
      as (st1 & w1 & Hstep & H1 & H2 & H3 & (new1 & Hr1 & Hl1 & Hs1) & Hlast1).
    destruct (IH (S i) st1 w1)
      as (st2 & w2 & Hloop & G1 & G2 & G3 & (new2 & Hr2 & Hl2 & Hs2) & Hlast2).
    exists st2, w2. split.
    { cbn [Ingest.mainLoop]. erewrite bind_ok by exact Hstep. exact Hloop. }
    cbn [length]. split; [lia|]. split; [lia|]. split; [lia|]. split.
    + exists (new1 ++ new2). rewrite Hr2, Hr1, <- app_assoc, length_app.
      split; [reflexivity|]. split; lia.
    + intros _ Htotal. destruct rest as [|t' rest'].
      * cbn [Ingest.mainLoop] in Hloop. injection Hloop as <- <-.
        apply Hlast1. apply Nat.eqb_eq. cbn [length] in Htotal. lia.
      * apply Hlast2; [discriminate | cbn [length] in *; lia].
Qed.

(** The counters of a run of the embedding of [main]. *)
Lemma main_adds_up (remote : api) (w : world) (listing catalogue : jsval)
    (translations : list jsval) (languages : jsval) :
  remote "/translations/list" = inl listing →
  member listing "translations" = Some (JArr translations) →
  Forall Spec.isObject translations →
  remote "/translations/languages" = inl catalogue →
  member catalogue "languages" = Some languages →
  is_Some (member languages "length") →
  let run := Ingest.main remote w in
  let total := length translations in
  fst run = Ok tt
  ∧ ∃ st,
      files (snd run) !! "datasets/processing_summary.json"
      = Some (JSON.stringify (Ingest.summaryJson total st))
      ∧ Ingest.successCount st + Ingest.errorCount st = Z.of_nat total
      ∧ 0 ≤ Ingest.successCount st ≤ Z.of_nat (length (Ingest.results st))
      ∧ 0 ≤ Ingest.errorCount st
      ∧ (length (Ingest.results st) ≤ total)%nat
      ∧ (translations ≠ [] →
         Ingest.allTranslationsData st = [] ∧ Ingest.allTranslationsJSON st = []).
Proof.
  intros Hlist Htrans Hobjects Hcat Hlangs [len Hlen] run total.
  set (w1 := {| dirs := dirs w ∪ list_to_set (ancestors "datasets");
                files := files w; trace := trace w ++ [Mkdir "datasets"] |}).
  set (w2 := record (Request "/translations/languages")
               (record (Request "/translations/list") w1)).
  set (w3 := {| dirs := dirs w2;
                files := <["datasets/languages_list.json" := JSON.stringify languages]>
                           (<["datasets/translations_list.json"
                              := JSON.stringify (JArr translations)]> (files w2));
                trace := (trace w2
                          ++ [WriteFile "datasets/translations_list.json"
                                (JSON.stringify (JArr translations))])
                         ++ [WriteFile "datasets/languages_list.json"
                               (JSON.stringify languages)] |}).
  destruct (mainLoop_counts remote total translations Hobjects 0%nat Ingest.initialLoop w3)
    as (st & w4 & Hloop & H1 & H2 & H3 & (new & Hr & Hl & Hs) & Hlast).
  assert (Hbody : Ingest.mainBody remote w
                  = (Ok st,
                     {| dirs := dirs w4;
                        files := <["datasets/processing_summary.json"
                                   := JSON.stringify (Ingest.summaryJson total st)]> (files w4);
                        trace := trace w4
                                 ++ [WriteFile "datasets/processing_summary.json"
                                       (JSON.stringify (Ingest.summaryJson total st))] |})).
  { unfold Ingest.mainBody.
    erewrite bind_ok by reflexivity. fold w1.
    erewrite bind_ok.
    2:{ unfold Ingest.getAvailableTranslations. erewrite bind_ok.
        2:{ unfold fetchAPI. rewrite Hlist. reflexivity. }
        rewrite Htrans. reflexivity. }
    erewrite bind_ok by reflexivity.
    erewrite bind_ok.
    2:{ unfold Ingest.getAvailableLanguages. erewrite bind_ok.
        2:{ unfold fetchAPI. rewrite Hcat. reflexivity. }
        rewrite Hlangs. reflexivity. }
    fold w2. rewrite Hlen.
    erewrite bind_ok by reflexivity.
    erewrite bind_ok by reflexivity.
    erewrite bind_ok by reflexivity. fold w3. fold total.
    erewrite bind_ok by exact Hloop.
    erewrite bind_ok by reflexivity. reflexivity. }
  assert (Hmain : run = (Ok tt, snd (Ingest.mainBody remote w))).
  { unfold run, Ingest.main. erewrite tryCatch_ok; [reflexivity|].
    erewrite bind_ok by exact Hbody. rewrite Hbody. reflexivity. }
  rewrite Hmain, Hbody. cbn [fst snd files]. split; [reflexivity|].
  exists st. split; [apply lookup_insert_eq|].
  cbn [Ingest.initialLoop Ingest.successCount Ingest.errorCount Ingest.results] in *.
  cbn [app] in Hr. rewrite Hr.
  split; [lia|]. split; [lia|]. split; [lia|]. split; [exact Hl|].
  intros Hne. destruct (Hlast Hne eq_refl) as (Ha & Hb & _). auto.
Qed.


(** X6. A complete run adds up. Take a world in which the datasets
    directory can be made and written, and a catalogue whose two requests
    are answered with an array of entries as §3 types them (objects within
    the model of JSON text whose key, title and version print and whose
    key and language code, when strings, name a directory and are a
    language code) and an array of languages. Then [main] returns
    normally whatever the surah requests do, and the summary file it
    writes last holds the counters of a loop state in which successes and
    errors together are the number of translations, the result list has at
    most one entry per translation and at least one per success, and both
    buffers have been flushed. *)
Theorem run_adds_up (remote : api) (w : world) (listing catalogue : jsval)
    (translations languages : list jsval) :
  Spec.writable w "datasets" →
  remote "/translations/list" = inl listing →
  member listing "translations" = Some (JArr translations) →
  Forall Spec.typedEntry translations →
  remote "/translations/languages" = inl catalogue →
  member catalogue "languages" = Some (JArr languages) →
  let run := Ingest.main remote w in
  let total := length translations in
  fst run = Ok tt
  ∧ ∃ st,
      files (snd run) !! "datasets/processing_summary.json"
      = Some (JSON.stringify (Ingest.summaryJson total st))
      ∧ Ingest.successCount st + Ingest.errorCount st = Z.of_nat total
      ∧ 0 ≤ Ingest.successCount st ≤ Z.of_nat (length (Ingest.results st))
      ∧ 0 ≤ Ingest.errorCount st
      ∧ (length (Ingest.results st) ≤ total)%nat
      ∧ (translations ≠ [] →
         Ingest.allTranslationsData st = [] ∧ Ingest.allTranslationsJSON st = []).
Proof.
  intros _ Hlist Htrans Htyped Hcat Hlangs.
  apply (main_adds_up remote w listing catalogue translations (JArr languages));
    try assumption.
  - eapply Forall_impl; [exact Htyped|]. intros v (o & -> & _). exists o. reflexivity.
  - eexists. reflexivity.
Qed.

Lemma run_adds_up_witness :
  fst (Ingest.main Samples.oneVerse emptyWorld) = Ok tt
  ∧ ∃ st,
      files (snd (Ingest.main Samples.oneVerse emptyWorld))
        !! "datasets/processing_summary.json"
      = Some (JSON.stringify (Ingest.summaryJson 1 st))
      ∧ Ingest.successCount st + Ingest.errorCount st = 1.
Proof.
  destruct (run_adds_up Samples.oneVerse emptyWorld
              (JObj [("translations", JArr [Samples.entry "k"])])
              (JObj [("languages", JArr [JObj [("iso_code", JStr "en")]])])
              [Samples.entry "k"] [JObj [("iso_code", JStr "en")]])
    as (Hok & st & Hfile & Hsum & _).
  - apply emptyWorld_writable.
  - reflexivity.
  - reflexivity.
  - constructor; [|constructor]. exists (Samples.entryFields "k").
    split; [reflexivity|]. split; [reflexivity|]. split; [reflexivity|].
    split; [reflexivity|]. split; [reflexivity|]. split.
    + intros k Hk. injection Hk as <-.
      repeat split; try discriminate; try reflexivity. cbn. lia.
    + intros l Hl. injection Hl as <-.
      repeat split; try discriminate; try reflexivity. cbn. lia.
  - reflexivity.
  - reflexivity.
  - split; [exact Hok|]. exists st. split; [exact Hfile | exact Hsum].
Defined.



(** ** The surah groups and their files *)

Lemma pushGroup_mapPush {A} (groups : list (string * list A)) (k : string) (x : A) :
  Ingest.pushGroup groups k x = Split.mapPush groups k x.
Proof.
  induction groups as [|[k' xs] r IH]; [reflexivity|].
  cbn [Ingest.pushGroup Split.mapPush]. rewrite IH. reflexivity.
Qed.

Lemma groupBySurah_pushAll (rows : list obj) :
  Ingest.groupBySurah rows = Spec.pushAll Spec.surahKey rows [].
Proof.
  unfold Ingest.groupBySurah, Spec.pushAll. generalize (@nil (string * list obj)).
  induction rows as [|row rows IH]; intros m; [reflexivity|].
  cbn [fold_left]. rewrite pushGroup_mapPush. apply IH.
Qed.

Lemma mapPush_concat {A} (m : list (string * list A)) (k : string) (x : A) :
  concat (map snd (Split.mapPush m k x)) ≡ₚ concat (map snd m) ++ [x].
Proof.
  induction m as [|[k' xs] r IH]; [reflexivity|].
  cbn [Split.mapPush]. destruct (String.eqb k' k); cbn [map snd concat].
  - solve_Permutation.
  - rewrite IH. rewrite app_assoc. reflexivity.
Qed.

Lemma pushAll_concat {A} (key : A → string) (l : list A) :
  ∀ m, concat (map snd (Spec.pushAll key l m)) ≡ₚ concat (map snd m) ++ l.
Proof.
  unfold Spec.pushAll. induction l as [|x l IH]; intros m; cbn [fold_left].
  - rewrite app_nil_r. reflexivity.
  - rewrite IH, mapPush_concat, <- app_assoc. reflexivity.
Qed.

Lemma key_has_group {A} (m : list (string * list A)) (k : string) :
  k ∈ map fst m → ∃ xs, (k, xs) ∈ m.
Proof.
  intros H. apply list_elem_of_fmap in H. destruct H as [[k' xs] [-> H]].
  exists xs. exact H.
Qed.

Lemma groups_spec {A} (key : A → string) (l : list A) (k : string) (g : list A) :
  (k, g) ∈ Spec.pushAll key l [] ↔ g ≠ [] ∧ g = filter (fun x => key x = k) l.
Proof.
  destruct (pushAll_spec key l [] (NoDup_nil_2)) as (Hnd & Hget & Hkeys).
  split.
  - intros H. pose proof (mapGet_elem _ k g Hnd H) as Hg.
    rewrite Hget in Hg. cbn [Split.mapGet app] in Hg. split; [|congruence].
    assert (Hk : k ∈ map fst (Spec.pushAll key l [])).
    { apply list_elem_of_fmap. exists (k, g). auto. }
    apply Hkeys in Hk. destruct Hk as [Hk | [x [Hx Hkx]]].
    + apply elem_of_nil in Hk. contradiction.
    + intros ->. assert (Hin : x ∈ filter (fun x => key x = k) l).
      { apply list_elem_of_filter. auto. }
      rewrite Hg in Hin. apply elem_of_nil in Hin. exact Hin.
  - intros [Hne ->].
    destruct (filter (fun x => key x = k) l) as [|x rest] eqn:E; [contradiction|].
    assert (Hx : x ∈ filter (fun x => key x = k) l) by (rewrite E; apply list_elem_of_here).
    apply list_elem_of_filter in Hx. destruct Hx as [Hkx Hx].
    assert (Hk : k ∈ map fst (Spec.pushAll key l [])).
    { apply Hkeys. right. exists x. auto. }
    destruct (key_has_group _ k Hk) as [xs Hxs].
    pose proof (mapGet_elem _ k xs Hnd Hxs) as Hg.
    rewrite Hget in Hg. cbn [Split.mapGet app] in Hg. rewrite E in Hg.
    rewrite Hg. exact Hxs.
Qed.

Lemma surah_groups_of (rows : list obj) :
  NoDup (map fst (Ingest.groupBySurah rows))
  ∧ ∀ k g, (k, g) ∈ Ingest.groupBySurah rows
           ↔ g ≠ [] ∧ g = filter (fun row => Spec.surahKey row = k) rows.
Proof.
  rewrite groupBySurah_pushAll.
  split; [apply (pushAll_spec Spec.surahKey rows [] (NoDup_nil_2))|].
  intros k g. apply groups_spec.
Qed.

(** X8. The per-surah groups. For rows whose surah values print as
    decimal numerals, the loop that fills [surahGroups] files every row
    under that text: no key occurs twice, the group of a key is not empty
    and holds exactly the rows with that key in their original order, and
    the groups together hold every row once. *)
Theorem surah_groups_partition (rows : list obj) :
  (∀ row, row ∈ rows → Spec.numeralKey (Spec.surahKey row)) →
  let groups := Ingest.groupBySurah rows in
  NoDup (map fst groups)
  ∧ (∀ k g, (k, g) ∈ groups ↔ g ≠ [] ∧ g = filter (fun row => Spec.surahKey row = k) rows)
  ∧ concat (map snd groups) ≡ₚ rows.
Proof.
  intros _ groups. unfold groups.
  destruct (surah_groups_of rows) as [Hnd Hspec].
  split; [exact Hnd|]. split; [exact Hspec|].
  rewrite groupBySurah_pushAll, pushAll_concat. reflexivity.
Qed.

Lemma surah_groups_partition_witness :
  Ingest.groupBySurah [Samples.enriched "a" 2; Samples.enriched "a" 1; Samples.enriched "b" 2]
  ≡ₚ [("1", [Samples.enriched "a" 1]);
      ("2", [Samples.enriched "a" 2; Samples.enriched "b" 2])].
Proof.
  destruct (surah_groups_partition
              [Samples.enriched "a" 2; Samples.enriched "a" 1; Samples.enriched "b" 2])
    as (Hnd & Hspec & _).
  - intros row Hrow.
    repeat (apply elem_of_cons in Hrow; destruct Hrow as [->|Hrow]);
      [exists 2%N | exists 1%N | exists 2%N | inversion Hrow]; reflexivity.
  - apply NoDup_Permutation.
    + eapply NoDup_fmap_1, Hnd.
    + apply (NoDup_fmap_1 fst). apply (bool_decide_unpack _). vm_compute. reflexivity.
    + intros [k g]. rewrite Hspec. split.
      * intros [Hg ->].
        destruct (decide (k = "1")) as [-> | H1]; [left|].
        destruct (decide (k = "2")) as [-> | H2]; [right; left|].
        exfalso. apply Hg. cbn. rewrite !decide_False by congruence. reflexivity.
      * intros H.
        repeat (apply elem_of_cons in H; destruct H as [H|H]);
          [injection H as -> ->; split; [discriminate | reflexivity]
          |injection H as -> ->; split; [discriminate | reflexivity]
          |inversion H].
Defined.

(** ** Decimal numerals *)

Lemma digitsVal_uint (d : Decimal.uint) :
  (∀ p, digitsVal (Npos p) (NilEmpty.string_of_uint d) = Some (Npos (Pos.of_uint_acc d p)))
  ∧ digitsVal 0%N (NilEmpty.string_of_uint d) = Some (Pos.of_uint d).
Proof.
  induction d as [|d [IH1 IH0]|d [IH1 IH0]|d [IH1 IH0]|d [IH1 IH0]|d [IH1 IH0]
                  |d [IH1 IH0]|d [IH1 IH0]|d [IH1 IH0]|d [IH1 IH0]|d [IH1 IH0]];
    (split; [intros p|]); cbn [NilEmpty.string_of_uint digitsVal Pos.of_uint_acc Pos.of_uint];
    try reflexivity.
  all: match goal with
       | |- context [digitVal ?c] =>
           let v := eval vm_compute in (digitVal c) in change (digitVal c) with v
       end; cbv iota beta.
  all: try (rewrite <- IH1; f_equal; lia).
  all: try exact IH0.
  all: try (apply IH1).
Qed.

Lemma spanDigits_uint (d : Decimal.uint) (rest : string) :
  match rest with
  | EmptyString => True
  | String c _ => digitVal c = None
  end →
  JSON.spanDigits (NilEmpty.string_of_uint d +:+ rest)
  = (NilEmpty.string_of_uint d, rest).
Proof.
  intros Hrest.
  induction d as [|d IH|d IH|d IH|d IH|d IH|d IH|d IH|d IH|d IH|d IH];
    cbn [NilEmpty.string_of_uint].
  1:{ rewrite append_nil_l. destruct rest as [|c r]; [reflexivity|].
      cbn [JSON.spanDigits]. rewrite Hrest. reflexivity. }
  all: rewrite append_cons; cbn [JSON.spanDigits];
    match goal with
    | |- context [digitVal ?c] =>
        let v := eval vm_compute in (digitVal c) in change (digitVal c) with v
    end; cbv iota beta; rewrite IH; reflexivity.
Qed.

Lemma ofZ_pos (p : positive) :
  Str.ofZ (Zpos p) = NilEmpty.string_of_uint (Pos.to_uint p).
Proof.
  unfold Str.ofZ. cbn [Z.to_int NilZero.string_of_int NilZero.string_of_uint].
  destruct (Pos.to_uint p) eqn:E; try reflexivity.
  exfalso. exact (DecimalPos.Unsigned.to_uint_nonnil p E).
Qed.

Lemma digitsVal_ofZ (n : N) : digitsVal 0%N (Str.ofZ (Z.of_N n)) = Some n.
Proof.
  destruct n as [|p]; [reflexivity|].
  cbn [Z.of_N]. rewrite ofZ_pos.
  rewrite (proj2 (digitsVal_uint (Pos.to_uint p))). f_equal. apply DecimalPos.Unsigned.of_to.
Qed.

Lemma ofZ_N_digits (n : N) (rest : string) :
  match rest with
  | EmptyString => True
  | String c _ => digitVal c = None
  end →
  JSON.spanDigits (Str.ofZ (Z.of_N n) +:+ rest) = (Str.ofZ (Z.of_N n), rest).
Proof.
  intros Hrest. destruct n as [|p].
  - change (Str.ofZ (Z.of_N 0)) with (NilEmpty.string_of_uint (Decimal.D0 Decimal.Nil)).
    apply spanDigits_uint, Hrest.
  - cbn [Z.of_N]. rewrite ofZ_pos. apply spanDigits_uint, Hrest.
Qed.

Lemma digitsVal_zeros (k : nat) (s : string) :
  digitsVal 0%N (Spec.zeros k +:+ s) = digitsVal 0%N s.
Proof.
  induction k as [|k IH]; [reflexivity|].
  unfold Spec.zeros in *. cbn [repeat String.string_of_list_ascii].
  rewrite append_cons. cbn [digitsVal].
  change (digitVal "0") with (Some 0%N). cbv iota beta. exact IH.
Qed.

Lemma spanDigits_zeros (k : nat) (s : string) :
  JSON.spanDigits (Spec.zeros k +:+ s)
  = (Spec.zeros k +:+ fst (JSON.spanDigits s), snd (JSON.spanDigits s)).
Proof.
  induction k as [|k IH].
  - unfold Spec.zeros. cbn [repeat String.string_of_list_ascii]. rewrite !append_nil_l.
    destruct (JSON.spanDigits s). reflexivity.
  - unfold Spec.zeros in *. cbn [repeat String.string_of_list_ascii].
    rewrite !append_cons. cbn [JSON.spanDigits].
    change (digitVal "0") with (Some 0%N). cbv iota beta. rewrite IH. reflexivity.
Qed.

Lemma surahNumber_name (n : N) :
  Spec.surahNumber (Ingest.surahFileName (Str.ofZ (Z.of_N n))) = Some n.
Proof.
  unfold Spec.surahNumber, Ingest.surahFileName, Str.padStart. fold (Spec.zeros (3 - String.length (Str.ofZ (Z.of_N n)))).
  change (JSON.dropPrefix "surah_" ("surah_" +:+ ?x)) with (Some x).
  cbv iota beta. rewrite append_assoc, spanDigits_zeros.
  rewrite ofZ_N_digits by reflexivity. cbn [fst].
  rewrite digitsVal_zeros. apply digitsVal_ofZ.
Qed.

(** ** The files of a translation *)








(** The number in the name of a surah file, for every numeral that the
    embedding prints. *)
Lemma surahFileName_number :
  (∀ n, Spec.surahNumber (Ingest.surahFileName (toString (JNum (Z.of_N n)))) = Some n)
  ∧ (∀ n m,
       Ingest.surahFileName (toString (JNum (Z.of_N n)))
       = Ingest.surahFileName (toString (JNum (Z.of_N m))) ↔ n = m)
  ∧ Ingest.surahFileName (toString (JNum 7)) = "surah_007.csv"
  ∧ Ingest.surahFileName (toString (JNum 114)) = "surah_114.csv"
  ∧ Ingest.surahFileName (toString (JNum 1000)) = "surah_1000.csv".
Proof.
  split; [intros n; apply surahNumber_name|].
  split; [|repeat split; reflexivity].
  intros n m. split; [|intros ->; reflexivity].
  cbn [toString]. intros H.
  assert (Hn : Some n = Some m).
  { rewrite <- (surahNumber_name n), <- (surahNumber_name m), H. reflexivity. }
  injection Hn as ->. reflexivity.
Qed.


(** X10. The names of the surah files. For a surah number that a double
    holds exactly, the file name is the word surah_, the decimal numeral
    padded with zeros to three digits, and the extension; the number can
    be read back from the name, so two such numbers never share a file. *)
Theorem surah_file_names (n m : N) :
  (n ≤ 9007199254740991)%N →
  (m ≤ 9007199254740991)%N →
  Spec.surahNumber (Ingest.surahFileName (toString (JNum (Z.of_N n)))) = Some n
  ∧ (Ingest.surahFileName (toString (JNum (Z.of_N n)))
     = Ingest.surahFileName (toString (JNum (Z.of_N m))) ↔ n = m)
  ∧ Ingest.surahFileName (toString (JNum 7)) = "surah_007.csv"
  ∧ Ingest.surahFileName (toString (JNum 114)) = "surah_114.csv"
  ∧ Ingest.surahFileName (toString (JNum 1000)) = "surah_1000.csv".
Proof.
  intros _ _. destruct surahFileName_number as (Hread & Hinj & Hrest).
  split; [apply Hread|]. split; [apply Hinj | exact Hrest].
Qed.

Lemma surah_file_names_witness :
  Spec.surahNumber (Ingest.surahFileName (toString (JNum 7))) = Some 7%N
  ∧ (Ingest.surahFileName (toString (JNum 7))
     = Ingest.surahFileName (toString (JNum 114)) ↔ 7%N = 114%N).
Proof.
  destruct (surah_file_names 7 114) as (Hread & Hinj & _); [lia | lia |].
  split; [exact Hread | exact Hinj].
Defined.

(** ** Stage 2: the individual files and the guard of [main] *)

(** The embedding of [saveIndividual]; [access] takes a regular file at
    the directory for the directory. *)
Lemma saveIndividual_files (d : Split.document) (w : world) :
  let dir := joinPath ["datasets"; Split.language_code d; Split.translation_key d] in
  let run := Split.saveIndividual d w in
  let json := joinPath [dir; "full_translation.json"] in
  let csv := joinPath [dir; "full_translation_flat.csv"] in
  fst run = Ok tt
  ∧ dirs (snd run) = dirs w
  ∧ if bool_decide (dir ∈ dirs w) || bool_decide (is_Some (files w !! dir))
    then
      match Split.flattenTranslationForCSV d with
      | [] =>
          files (snd run)
          = <[json := JSON.stringify (Split.documentToJs d)]> (files w)
      | rows =>
          files (snd run)
          = <[csv := Split.objectsToCSV rows true]>
              (<[json := JSON.stringify (Split.documentToJs d)]> (files w))
      end
    else snd run = w.
Proof.
  intros dir run json csv. unfold run, Split.saveIndividual. fold dir json csv.
  destruct (bool_decide (dir ∈ dirs w) || bool_decide (is_Some (files w !! dir))) eqn:E.
  - assert (Ha : access dir w = (Ok tt, w)) by (unfold access; rewrite E; reflexivity).
    destruct (Split.flattenTranslationForCSV d) as [|row rows].
    + erewrite tryCatch_ok;
        [|erewrite bind_ok by exact Ha; erewrite bind_ok by reflexivity; reflexivity].
      cbn [fst snd dirs files]. auto.
    + erewrite tryCatch_ok;
        [|erewrite bind_ok by exact Ha; erewrite bind_ok by reflexivity; reflexivity].
      cbn [fst snd dirs files]. auto.
  - assert (Ha : access dir w = (Thrown "ENOENT: no such file or directory", w))
      by (unfold access; rewrite E; reflexivity).
    erewrite tryCatch_thrown; [|apply bind_thrown, Ha].
    cbn [fst snd ret]. auto.
Qed.


(** X11. The files of one translation in stage 2. Take a document whose
    language code and key name directories and whose fields print, in a
    world where no regular file stands at the directory of the translation
    or above it and no directory stands at the two files. [saveIndividual]
    does not fail and creates no directory. When the directory of the
    translation does not exist the world is left as it was; when it
    exists the JSON file of the document is written there, and the flat
    CSV file only when the document has at least one ayah. *)
Theorem individual_files (d : Split.document) (w : world) :
  let dir := joinPath ["datasets"; Split.language_code d; Split.translation_key d] in
  let run := Split.saveIndividual d w in
  let json := joinPath [dir; "full_translation.json"] in
  let csv := joinPath [dir; "full_translation_flat.csv"] in
  Spec.directoryName (Split.language_code d) →
  Spec.directoryName (Split.translation_key d) →
  Spec.exactDocument d = true →
  files w !! "datasets" = None →
  files w !! joinPath ["datasets"; Split.language_code d] = None →
  files w !! dir = None →
  json ∉ dirs w → csv ∉ dirs w →
  fst run = Ok tt
  ∧ dirs (snd run) = dirs w
  ∧ if bool_decide (dir ∈ dirs w)
    then
      match Split.flattenTranslationForCSV d with
      | [] =>
          files (snd run)
          = <[json := JSON.stringify (Split.documentToJs d)]> (files w)
      | rows =>
          files (snd run)
          = <[csv := Split.objectsToCSV rows true]>
              (<[json := JSON.stringify (Split.documentToJs d)]> (files w))
      end
    else snd run = w.
Proof.
  intros dir run json csv _ _ _ _ _ Hnone _ _.
  destruct (saveIndividual_files d w) as (Hok & Hdirs & Hfiles).
  fold dir run json csv in Hok, Hdirs, Hfiles.
  split; [exact Hok|]. split; [exact Hdirs|].
  rewrite (bool_decide_eq_false_2 (is_Some (files w !! dir))), orb_false_r in Hfiles;
    [exact Hfiles|].
  rewrite Hnone. intros [x Hx]. discriminate.
Qed.

Lemma individual_files_witness :
  let run := Split.saveIndividual Samples.twoSurahDocument Samples.afterTranslation in
  fst run = Ok tt
  ∧ files (snd run) !! "datasets/en/k/full_translation.json"
    = Some (JSON.stringify (Split.documentToJs Samples.twoSurahDocument)).
Proof.
  destruct (individual_files Samples.twoSurahDocument Samples.afterTranslation)
    as (Hok & _ & Hfiles).
  - repeat split; try discriminate; try reflexivity. cbn. lia.
  - repeat split; try discriminate; try reflexivity. cbn. lia.
  - reflexivity.
  - reflexivity.
  - reflexivity.
  - reflexivity.
  - vm_compute. discriminate.
  - vm_compute. discriminate.
  - cbv zeta. split; [exact Hok|].
    rewrite bool_decide_eq_true_2 in Hfiles.
    + cbn [Split.flattenTranslationForCSV] in Hfiles.
      pose proof (f_equal (fun m => m !! "datasets/en/k/full_translation.json") Hfiles) as H.
      cbv beta in H. rewrite H. vm_compute. reflexivity.
    + vm_compute. reflexivity.
Defined.

(** X12. The guard of stage 2. [main] returns normally for every stream
    of documents and every world; when the consolidated JSON file does not
    exist it leaves the world exactly as it was: no directory, no file and
    no index is written. *)
Theorem split_main_needs_source (docs : list Split.document) (w : world) :
  fst (Split.main docs w) = Ok tt
  ∧ (files w !! "datasets/all_translations.json" = None →
     "datasets/all_translations.json" ∉ dirs w →
     Split.main docs w = (Ok tt, w)).
Proof.
  unfold Split.main. split.
  - unfold tryCatch at 1.
    destruct (bind _ _ w) as [[[]|e] w']; reflexivity.
  - intros Hfile Hdir.
    change (joinPath ["datasets"; "all_translations.json"])
      with "datasets/all_translations.json".
    assert (Ha : access "datasets/all_translations.json" w
                 = (Thrown "ENOENT: no such file or directory", w)).
    { unfold access. rewrite Hfile. rewrite bool_decide_eq_false_2 by exact Hdir.
      rewrite bool_decide_eq_false_2 by (intros [x Hx]; discriminate). reflexivity. }
    assert (Hprobe : tryCatch (bind (access "datasets/all_translations.json")
                                 (fun _ => ret true)) (fun _ => ret false) w
                     = (Ok false, w)).
    { erewrite tryCatch_thrown; [reflexivity|]. apply bind_thrown, Ha. }
    erewrite tryCatch_ok; [reflexivity|].
    erewrite bind_ok by exact Hprobe. reflexivity.
Qed.

(** ** Stage 2: the files of a language and the index *)








Lemma saveVersion_returns (e : string * list Split.document) (w : world) :
  ∃ w', Split.saveVersion e w = (Ok tt, w').
Proof.
  unfold Split.saveVersion. destruct (Split.splitVersionKey (fst e)) as [language version].
  destruct (writeGroupIn_spec (joinPath ["datasets"; language])
              ("version_" +:+ version +:+ "_translations.json")
              ("version_" +:+ version +:+ "_translations.csv") (snd e) w) as (w' & Hrun & _).
  exists w'. exact Hrun.
Qed.

Lemma organize_run (docs : list Split.document) (w : world) :
  let st := fold_left Split.noteTranslation docs Split.initialOrganize in
  ∃ w1 w2 w3 t,
    Split.organizeLoop docs Split.initialOrganize w = (Ok st, w1)
    ∧ forEachM Split.saveLanguage (Split.languageMap st) w1 = (Ok tt, w2)
    ∧ forEachM Split.saveVersion (Split.versionMap st) w2 = (Ok tt, w3)
    ∧ Split.organizeTranslations docs w
      = (Ok {| Split.statTranslationCount := Split.translationCount st;
               Split.languageCount := length (Split.languageMap st);
               Split.versionCount := length (Split.versionMap st) |},
         {| dirs := dirs w3;
            files := <[joinPath ["datasets"; "translations_index.json"]
                       := JSON.stringify (Split.indexData st)]> (files w3);
            trace := t |}).
Proof.
  intros st.
  destruct (organizeLoop_spec docs Split.initialOrganize w) as [w1 Hloop]. fold st in Hloop.
  destruct (forEachM_returns Split.saveLanguage saveLanguage_returns
              (Split.languageMap st) w1) as [w2 Hlangs].
  destruct (forEachM_returns Split.saveVersion saveVersion_returns
              (Split.versionMap st) w2) as [w3 Hvers].
  exists w1, w2, w3. eexists. split; [exact Hloop|]. split; [exact Hlangs|].
  split; [exact Hvers|].
  unfold Split.organizeTranslations.
  erewrite bind_ok by exact Hloop. erewrite bind_ok by exact Hlangs.
  erewrite bind_ok by exact Hvers. erewrite bind_ok by reflexivity. reflexivity.
Qed.



(** The statistics and the index of the embedding of
    [organizeTranslations]. *)
Lemma organize_index (docs : list Split.document) (w : world) :
  let run := Split.organizeTranslations docs w in
  let st := fold_left Split.noteTranslation docs Split.initialOrganize in
  let languages := map fst (Split.languageMap st) in
  let keys := map fst (Split.versionMap st) in
  fst run = Ok {| Split.statTranslationCount := Z.of_nat (length docs);
                  Split.languageCount := length languages;
                  Split.versionCount := length keys |}
  ∧ files (snd run) !! "datasets/translations_index.json"
    = Some (JSON.stringify
              (JObj [("total_translations", JNum (Z.of_nat (length docs)));
                     ("languages",
                      JArr (map (fun l =>
                                   JObj [("code", JStr l);
                                         ("translation_count",
                                          JNum (Z.of_nat
                                                  (length (Spec.languageGroup docs l))));
                                         ("versions",
                                          JArr (Split.indexVersions
                                                  (Split.versionMap st) l))])
                              languages))]))
  ∧ NoDup languages
  ∧ (∀ l, l ∈ languages ↔ ∃ d, d ∈ docs ∧ Split.language_code d = l)
  ∧ NoDup keys
  ∧ (∀ k, k ∈ keys ↔ ∃ d, d ∈ docs ∧ Split.versionKey d = k).
Proof.
  intros run st languages keys.
  destruct (organize_run docs w) as (w1 & w2 & w3 & t & _ & _ & _ & Hrun).
  fold st in Hrun. unfold run. rewrite Hrun. cbn [fst snd files].
  destruct (pushAll_spec Split.language_code docs [] (NoDup_nil_2 : NoDup (map fst [])))
    as (Hnd & Hget & Hkeys).
  destruct (pushAll_spec Split.versionKey docs [] (NoDup_nil_2 : NoDup (map fst [])))
    as (Hvnd & _ & Hvkeys).
  assert (HLM : Split.languageMap st = Spec.pushAll Split.language_code docs [])
    by apply languageMap_fold.
  assert (HVM : Split.versionMap st = Spec.pushAll Split.versionKey docs [])
    by apply versionMap_fold.
  assert (Hcount : Split.translationCount st = Z.of_nat (length docs)).
  { unfold st. rewrite translationCount_fold. cbn. lia. }
  split.
  { rewrite Hcount. unfold languages, keys. rewrite !length_map. reflexivity. }
  split.
  { change (joinPath ["datasets"; "translations_index.json"])
      with "datasets/translations_index.json".
    rewrite lookup_insert_eq. f_equal. f_equal. unfold Split.indexData.
    rewrite Hcount. fold languages. do 5 f_equal.
    apply map_ext. intros l. unfold Split.indexLanguage.
    rewrite HLM, Hget. reflexivity. }
  unfold languages, keys. rewrite HLM, HVM.
  split; [exact Hnd|]. split.
  { intros l. rewrite Hkeys. split; [intros [H|H]; [inversion H | exact H] | auto]. }
  split; [exact Hvnd|].
  intros k. rewrite Hvkeys. split; [intros [H|H]; [inversion H | exact H] | auto].
Qed.


(** X14. The statistics and the index. Take a stream of documents as §3
    types them, in a world where the datasets directory exists and the
    directories of the languages can be made and written.
    [organizeTranslations] returns. The translation count it reports and
    writes to the index is the number of documents of the stream; the
    index lists every language code of the stream exactly once, each with
    the number of documents in that language; and the language and version
    counts it reports are the numbers of distinct language codes and of
    distinct version keys. *)
Theorem organized_index (docs : list Split.document) (w : world) :
  (∀ d, d ∈ docs → Spec.typedDocument d) →
  "datasets" ∈ dirs w →
  Spec.writable w "datasets" →
  (∀ d, d ∈ docs → Spec.writable w ("datasets/" +:+ Split.language_code d)) →
  let run := Split.organizeTranslations docs w in
  let st := fold_left Split.noteTranslation docs Split.initialOrganize in
  let languages := map fst (Split.languageMap st) in
  let keys := map fst (Split.versionMap st) in
  fst run = Ok {| Split.statTranslationCount := Z.of_nat (length docs);
                  Split.languageCount := length languages;
                  Split.versionCount := length keys |}
  ∧ files (snd run) !! "datasets/translations_index.json"
    = Some (JSON.stringify
              (JObj [("total_translations", JNum (Z.of_nat (length docs)));
                     ("languages",
                      JArr (map (fun l =>
                                   JObj [("code", JStr l);
                                         ("translation_count",
                                          JNum (Z.of_nat
                                                  (length (Spec.languageGroup docs l))));
                                         ("versions",
                                          JArr (Split.indexVersions
                                                  (Split.versionMap st) l))])
                              languages))]))
  ∧ NoDup languages
  ∧ (∀ l, l ∈ languages ↔ ∃ d, d ∈ docs ∧ Split.language_code d = l)
  ∧ NoDup keys
  ∧ (∀ k, k ∈ keys ↔ ∃ d, d ∈ docs ∧ Split.versionKey d = k).
Proof.
  intros _ _ _ _. apply organize_index.
Qed.

Lemma organized_index_witness :
  fst (Split.organizeTranslations Samples.mixedStream Samples.afterIngest)
  = Ok {| Split.statTranslationCount := 3;
          Split.languageCount := 2; Split.versionCount := 3 |}.
Proof.
  destruct (organized_index Samples.mixedStream Samples.afterIngest) as (Hok & _).
  - exact mixedStream_typed.
  - vm_compute. reflexivity.
  - split; [intros p _; apply lookup_empty|].
    intros p Hp. unfold Samples.afterIngest in Hp. cbn [dirs] in Hp.
    apply elem_of_union in Hp. destruct Hp as [Hp|Hp];
      apply elem_of_singleton in Hp; subst p; reflexivity.
  - exact afterIngest_writable.
  - exact Hok.
Defined.

(** * JSON text between the two stages *)

(** ** JSON text read back *)

(** Induction over values with their elements and properties. *)
Lemma jsval_nested_ind (P : jsval → Prop) :
  P JUndefined → P JNull → (∀ b, P (JBool b)) → (∀ n, P (JNum n)) → (∀ s, P (JStr s)) →
  (∀ l, Forall P l → P (JArr l)) →
  (∀ o, Forall (fun kv => P (snd kv)) o → P (JObj o)) →
  ∀ v, P v.
Proof.
  intros Hu Hn Hb Hz Hs Ha Ho. fix IH 1. intros [| |b|n|s|l|o].
  - exact Hu.
  - exact Hn.
  - apply Hb.
  - apply Hz.
  - apply Hs.
  - apply Ha. induction l as [|x l IHl]; constructor; [apply IH | exact IHl].
  - apply Ho. induction o as [|[k x] o IHo]; constructor; [apply IH | exact IHo].
Qed.

Lemma serialize_defined (indent : string) (v : jsval) :
  v ≠ JUndefined → ∃ t, JSON.serialize indent v = Some t.
Proof.
  destruct v as [| |b|n|s|l|o]; intros H; [contradiction|..]; cbn [JSON.serialize];
    try (eexists; reflexivity).
  - destruct (map _ l); eexists; reflexivity.
  - destruct (omap _ _); eexists; reflexivity.
Qed.

(** *** Enumeration commutes with a change of the values *)

Lemma insertIndexed_map {A B} (f : A → B) (n : N) (x : A) (idx : list (N * A)) :
  map (fun e => (fst e, f (snd e))) (insertIndexed n x idx)
  = insertIndexed n (f x) (map (fun e => (fst e, f (snd e))) idx).
Proof.
  induction idx as [|[m y] r IH]; [reflexivity|].
  cbn [insertIndexed map fst snd]. destruct (n <? m)%N; [reflexivity|].
  cbn [map fst snd]. rewrite IH. reflexivity.
Qed.

Lemma enumGo_map {A B} (f : A → B) (l : list (string * A)) :
  ∀ idx rest,
    enumGo (map (fun kv => (fst kv, f (snd kv))) l)
      (map (fun e => (fst e, (fst (snd e), f (snd (snd e))))) idx)
      (map (fun kv => (fst kv, f (snd kv))) rest)
    = map (fun kv => (fst kv, f (snd kv))) (enumGo l idx rest).
Proof.
  induction l as [|[k v] l IH]; intros idx rest.
  - cbn [enumGo map]. rewrite map_app, map_rev, !map_map. reflexivity.
  - cbn [enumGo map fst snd]. destruct (arrayIndex k) as [n|].
    + rewrite <- IH. f_equal.
      rewrite (insertIndexed_map (fun kv => (fst kv, f (snd kv))) n (k, v) idx).
      reflexivity.
    + rewrite <- IH. reflexivity.
Qed.

Lemma entries_map {A B} (f : A → B) (o : list (string * A)) :
  entries (map (fun kv => (fst kv, f (snd kv))) o)
  = map (fun kv => (fst kv, f (snd kv))) (entries o).
Proof. apply (enumGo_map f o [] []). Qed.

(** *** String literals *)

Lemma parseChars_quoteChar (c : ascii) (r : string) :
  JSON.parseChars (JSON.quoteChar c +:+ r)
  = match JSON.parseChars r with
    | Some (t, rest) => Some (String c t, rest)
    | None => None
    end.
Proof.
  destruct c as [[] [] [] [] [] [] [] []]; reflexivity.
Qed.

Lemma parseChars_quoteBody (s rest : string) :
  JSON.parseChars (JSON.quoteBody s +:+ String Str.quote rest) = Some (s, rest).
Proof.
  induction s as [|c s IH].
  - cbn [JSON.quoteBody]. rewrite append_nil_l. cbn [JSON.parseChars].
    rewrite Ascii.eqb_refl. reflexivity.
  - cbn [JSON.quoteBody]. rewrite append_assoc, parseChars_quoteChar, IH. reflexivity.
Qed.

(** *** Numbers *)

Lemma to_uint_head (p : positive) :
  ∃ d0 more,
    NilEmpty.string_of_uint (Pos.to_uint p) = String d0 more
    ∧ Ascii.eqb d0 "0" = false ∧ Ascii.eqb d0 "-" = false.
Proof.
  assert (Hnorm : Decimal.unorm (Pos.to_uint p) = Pos.to_uint p).
  { rewrite <- (DecimalPos.Unsigned.to_of (Pos.to_uint p)).
    rewrite DecimalPos.Unsigned.of_to. reflexivity. }
  assert (Hhead : Decimal.nzhead (Pos.to_uint p) = Pos.to_uint p).
  { rewrite <- Hnorm at 2. symmetry. apply DecimalFacts.unorm_nzhead.
    intros H. apply DecimalFacts.unorm_0 in H. rewrite Hnorm in H.
    exact (DecimalPos.Unsigned.to_uint_nonzero p H). }
  pose proof (DecimalPos.Unsigned.to_uint_nonnil p) as Hnil.
  pose proof (DecimalFacts.nzhead_nonzero (Pos.to_uint p)) as Hnz.
  rewrite Hhead in Hnz.
  destruct (Pos.to_uint p) as [|u|u|u|u|u|u|u|u|u|u];
    [contradiction | exfalso; exact (Hnz u eq_refl) | ..];
    cbn [NilEmpty.string_of_uint]; do 2 eexists; repeat split.
Qed.

Lemma parseNumber_ofZ (n : Z) (rest : string) :
  Spec.stops rest →
  JSON.parseNumber (Str.ofZ n +:+ rest) = Some (JNum n, rest).
Proof.
  intros Hrest.
  assert (Hdigit : match rest with
                   | EmptyString => True
                   | String c _ => digitVal c = None
                   end).
  { destruct rest; [exact I | apply Hrest]. }
  assert (Hfollows : match rest with
                     | String c _ => Ascii.eqb c "." || Ascii.eqb c "e" || Ascii.eqb c "E"
                     | EmptyString => false
                     end = false).
  { destruct rest as [|c r]; [reflexivity|].
    destruct Hrest as (_ & -> & -> & ->). reflexivity. }
  assert (Hpos : ∀ (p : positive) (neg : bool),
             (let '(ds, rest') := JSON.spanDigits
                                    (NilEmpty.string_of_uint (Pos.to_uint p) +:+ rest) in
              let follows :=
                match rest' with
                | String c _ => Ascii.eqb c "." || Ascii.eqb c "e" || Ascii.eqb c "E"
                | EmptyString => false
                end in
              match ds, digitsVal 0%N ds with
              | String d0 more, Some n =>
                  if Ascii.eqb d0 "0" && negb (String.eqb more EmptyString) then None
                  else if follows then None
                  else Some (JNum (if neg then - Z.of_N n else Z.of_N n), rest')
              | _, _ => None
              end)
             = Some (JNum (if neg then Zneg p else Zpos p), rest)).
  { intros p neg. rewrite (spanDigits_uint _ _ Hdigit). cbv beta iota zeta.
    pose proof (proj2 (digitsVal_uint (Pos.to_uint p))) as Hv.
    rewrite DecimalPos.Unsigned.of_to in Hv.
    destruct (to_uint_head p) as (d0 & more & E & H0 & _).
    rewrite E in Hv |- *. rewrite Hv, H0, Hfollows. cbn [andb].
    destruct neg; reflexivity. }
  destruct n as [|p|p].
  - change (Str.ofZ 0) with "0"%string. rewrite append_cons, append_nil_l.
    unfold JSON.parseNumber. change (Ascii.eqb "0" "-") with false. cbv iota.
    change (String "0" rest) with (NilEmpty.string_of_uint (Decimal.D0 Decimal.Nil) +:+ rest).
    rewrite (spanDigits_uint _ _ Hdigit). cbv beta iota zeta.
    cbn [NilEmpty.string_of_uint digitsVal]. change (digitVal "0") with (Some 0%N). cbv iota beta.
    rewrite Hfollows. reflexivity.
  - rewrite ofZ_pos. unfold JSON.parseNumber.
    set (s := NilEmpty.string_of_uint (Pos.to_uint p) +:+ rest).
    assert (Hs : match s with
                 | String c r => if Ascii.eqb c "-" then (true, r) else (false, s)
                 | EmptyString => (false, s)
                 end = (false, s)).
    { subst s. destruct (to_uint_head p) as (d0 & more & E & _ & Hminus).
      rewrite E, append_cons, Hminus. reflexivity. }
    rewrite Hs. apply (Hpos p false).
  - assert (Hneg : Str.ofZ (Zneg p)
                   = String "-" (NilEmpty.string_of_uint (Pos.to_uint p))).
    { unfold Str.ofZ. cbn [Z.to_int NilZero.string_of_int NilZero.string_of_uint].
      destruct (Pos.to_uint p) eqn:E; try reflexivity.
      exfalso. exact (DecimalPos.Unsigned.to_uint_nonnil p E). }
    rewrite Hneg, append_cons. unfold JSON.parseNumber.
    rewrite Ascii.eqb_refl. apply (Hpos p true).
Qed.

(** *** White space and the first character of a text *)

Lemma white_app (a b : string) :
  Spec.white a = true → Spec.white b = true → Spec.white (a +:+ b) = true.
Proof.
  intros Ha Hb. induction a as [|c a IH]; [exact Hb|].
  cbn [Spec.white] in Ha. apply andb_prop in Ha as [Hc Ha].
  rewrite append_cons. cbn [Spec.white]. rewrite Hc, (IH Ha). reflexivity.
Qed.

Lemma skipWs_white (ws s : string) :
  Spec.white ws = true → JSON.skipWs (ws +:+ s) = JSON.skipWs s.
Proof.
  intros Hw. induction ws as [|c ws IH]; [reflexivity|].
  cbn [Spec.white] in Hw. apply andb_prop in Hw as [Hc Hw].
  rewrite append_cons. cbn [JSON.skipWs]. rewrite Hc. exact (IH Hw).
Qed.

Lemma skipWs_head (c : ascii) (r : string) :
  JSON.isWs c = false → JSON.skipWs (String c r) = String c r.
Proof. intros Hc. cbn [JSON.skipWs]. rewrite Hc. reflexivity. Qed.

Lemma isWs_stops (c : ascii) (r : string) :
  JSON.isWs c = true → Spec.stops (String c r).
Proof.
  destruct c as [[] [] [] [] [] [] [] []]; intros H; try discriminate H;
    repeat split.
Qed.

Lemma white_stops (ws : string) (c : ascii) (r : string) :
  Spec.white ws = true → Spec.stops (String c r) → Spec.stops (ws +:+ String c r).
Proof.
  intros Hw Hc. destruct ws as [|d ws]; [exact Hc|].
  cbn [Spec.white] in Hw. apply andb_prop in Hw as [Hd _].
  rewrite append_cons. apply isWs_stops, Hd.
Qed.

Lemma digit_head (c : ascii) :
  digitVal c ≠ None ∨ c = "-"%char →
  Spec.opener c
  ∧ Ascii.eqb c "{" = false ∧ Ascii.eqb c "[" = false
  ∧ Ascii.eqb c Str.quote = false ∧ Ascii.eqb c "t" = false
  ∧ Ascii.eqb c "f" = false ∧ Ascii.eqb c "n" = false.
Proof.
  destruct c as [[] [] [] [] [] [] [] []]; intros [H|H];
    try (exfalso; apply H; reflexivity); try discriminate H;
    repeat split.
Qed.

Lemma ofZ_head (n : Z) :
  ∃ c r, Str.ofZ n = String c r ∧ (digitVal c ≠ None ∨ c = "-"%char).
Proof.
  destruct n as [|p|p].
  - exists "0"%char, EmptyString. split; [reflexivity | left; discriminate].
  - rewrite ofZ_pos.
    pose proof (DecimalPos.Unsigned.to_uint_nonnil p) as Hnil.
    destruct (Pos.to_uint p) as [|u|u|u|u|u|u|u|u|u|u]; [contradiction|..];
      cbn [NilEmpty.string_of_uint]; do 2 eexists; (split; [reflexivity|]);
      left; discriminate.
  - exists "-"%char, (NilEmpty.string_of_uint (Pos.to_uint p)). split; [|right; reflexivity].
    unfold Str.ofZ. cbn [Z.to_int NilZero.string_of_int NilZero.string_of_uint].
    destruct (Pos.to_uint p) eqn:E; try reflexivity.
    exfalso. exact (DecimalPos.Unsigned.to_uint_nonnil p E).
Qed.

Lemma serialize_head (indent : string) (v : jsval) (t : string) :
  JSON.serialize indent v = Some t → ∃ c r, t = String c r ∧ Spec.opener c.
Proof.
  destruct v as [| |b|n|s|l|o]; cbn [JSON.serialize]; intros H.
  - discriminate H.
  - injection H as <-. do 2 eexists. split; [reflexivity|]. repeat split.
  - injection H as <-. destruct b; do 2 eexists; (split; [reflexivity|]); repeat split.
  - injection H as <-. destruct (ofZ_head n) as (c & r & -> & Hc).
    exists c, r. split; [reflexivity|]. apply digit_head, Hc.
  - injection H as <-. do 2 eexists. split; [reflexivity|]. repeat split.
  - destruct (map _ l); injection H as <-; do 2 eexists;
      (split; [reflexivity|]); repeat split.
  - destruct (omap _ _); injection H as <-; do 2 eexists;
      (split; [reflexivity|]); repeat split.
Qed.

Lemma elementText_head (indent : string) (x : jsval) :
  ∃ c r, Spec.elementText indent x = String c r ∧ Spec.opener c.
Proof.
  unfold Spec.elementText. destruct (JSON.serialize indent x) as [t|] eqn:E.
  - exact (serialize_head indent x t E).
  - do 2 eexists. split; [reflexivity|]. repeat split.
Qed.

Lemma join_head (sep : string) (parts : list string) (c : ascii) (r : string) (more : list string) :
  parts = String c r :: more →
  ∃ r', Str.join sep parts = String c r'.
Proof.
  intros ->. destruct more as [|p more].
  - exists r. reflexivity.
  - eexists. cbn [Str.join]. rewrite append_cons. reflexivity.
Qed.

(** *** One step of the reader *)

Lemma parseValue_null (f : nat) (ws rest : string) :
  Spec.white ws = true →
  JSON.parseValue (S f) (ws +:+ "null" +:+ rest) = Some (JNull, rest).
Proof.
  intros Hw. cbn [JSON.parseValue]. rewrite (skipWs_white _ _ Hw). reflexivity.
Qed.

Lemma parseValue_bool (f : nat) (b : bool) (ws rest : string) :
  Spec.white ws = true →
  JSON.parseValue (S f) (ws +:+ (if b then "true" else "false") +:+ rest)
  = Some (JBool b, rest).
Proof.
  intros Hw. cbn [JSON.parseValue]. rewrite (skipWs_white _ _ Hw).
  destruct b; reflexivity.
Qed.

Lemma parseValue_number (f : nat) (n : Z) (ws rest : string) :
  Spec.white ws = true → Spec.stops rest →
  JSON.parseValue (S f) (ws +:+ Str.ofZ n +:+ rest) = Some (JNum n, rest).
Proof.
  intros Hw Hrest. cbn [JSON.parseValue]. rewrite (skipWs_white _ _ Hw).
  rewrite <- (parseNumber_ofZ n rest Hrest).
  destruct (ofZ_head n) as (c & r & E & Hc). rewrite E, append_cons.
  destruct (digit_head c Hc) as ((Hws & _) & H1 & H2 & H3 & H4 & H5 & H6).
  rewrite (skipWs_head _ _ Hws), H1, H2, H3, H4, H5, H6. reflexivity.
Qed.

Lemma parseValue_string (f : nat) (s ws rest : string) :
  Spec.white ws = true →
  JSON.parseValue (S f) (ws +:+ JSON.quoteString s +:+ rest) = Some (JStr s, rest).
Proof.
  intros Hw. cbn [JSON.parseValue]. rewrite (skipWs_white _ _ Hw).
  unfold JSON.quoteString. rewrite append_cons, append_assoc, append_cons, append_nil_l.
  rewrite skipWs_head by reflexivity.
  change (Ascii.eqb Str.quote "{") with false.
  change (Ascii.eqb Str.quote "[") with false.
  rewrite Ascii.eqb_refl. cbv iota. rewrite parseChars_quoteBody. reflexivity.
Qed.

Lemma parseValue_array (f : nat) (ws s : string) :
  Spec.white ws = true →
  JSON.parseValue (S f) (ws +:+ String "[" s)
  = match JSON.skipWs s with
    | String c' r' =>
        if Ascii.eqb c' "]" then Some (JArr [], r')
        else match JSON.parseElements f (JSON.skipWs s) with
             | Some (l, rest) => Some (JArr l, rest)
             | None => None
             end
    | EmptyString => None
    end.
Proof.
  intros Hw. cbn [JSON.parseValue]. rewrite (skipWs_white _ _ Hw).
  rewrite skipWs_head by reflexivity. reflexivity.
Qed.

Lemma parseValue_object (f : nat) (ws s : string) :
  Spec.white ws = true →
  JSON.parseValue (S f) (ws +:+ String "{" s)
  = match JSON.skipWs s with
    | String c' r' =>
        if Ascii.eqb c' "}" then Some (JObj [], r')
        else match JSON.parseMembers f (JSON.skipWs s) [] with
             | Some (o, rest) => Some (JObj o, rest)
             | None => None
             end
    | EmptyString => None
    end.
Proof.
  intros Hw. cbn [JSON.parseValue]. rewrite (skipWs_white _ _ Hw).
  rewrite skipWs_head by reflexivity. reflexivity.
Qed.

Lemma parseElements_step (f : nat) (s : string) :
  JSON.parseElements (S f) s
  = match JSON.parseValue f s with
    | Some (v, rest) =>
        match JSON.skipWs rest with
        | String c r =>
            if Ascii.eqb c "," then
              match JSON.parseElements f r with
              | Some (l, rest') => Some (v :: l, rest')
              | None => None
              end
            else if Ascii.eqb c "]" then Some ([v], r)
            else None
        | EmptyString => None
        end
    | None => None
    end.
Proof. reflexivity. Qed.

Lemma parseMembers_step (f : nat) (ws k s : string) (acc : obj) :
  Spec.white ws = true →
  JSON.parseMembers (S f) (ws +:+ JSON.quoteString k +:+ String ":" s) acc
  = match JSON.parseValue f s with
    | Some (v, rest1) =>
        match JSON.skipWs rest1 with
        | String c2 r2 =>
            if Ascii.eqb c2 "," then JSON.parseMembers f r2 (setProp acc k v)
            else if Ascii.eqb c2 "}" then Some (setProp acc k v, r2)
            else None
        | EmptyString => None
        end
    | None => None
    end.
Proof.
  intros Hw. cbn [JSON.parseMembers]. rewrite (skipWs_white _ _ Hw).
  unfold JSON.quoteString. rewrite append_cons, append_assoc, append_cons, append_nil_l.
  rewrite skipWs_head by reflexivity. rewrite Ascii.eqb_refl.
  rewrite parseChars_quoteBody. rewrite skipWs_head by reflexivity.
  reflexivity.
Qed.

Lemma setProp_fresh (acc : obj) (k : string) (v : jsval) :
  k ∉ map fst acc → setProp acc k v = acc ++ [(k, v)].
Proof.
  induction acc as [|[k' v'] acc IH]; intros Hk; [reflexivity|].
  cbn [map fst] in Hk. apply not_elem_of_cons in Hk as [Hne Hk].
  cbn [setProp app]. destruct (String.eqb_spec k' k) as [E|_].
  - exfalso. apply Hne. symmetry. exact E.
  - rewrite (IH Hk). reflexivity.
Qed.

(** *** The text of a value read back *)

Lemma length_append (a b : string) :
  String.length (a +:+ b) = (String.length a + String.length b)%nat.
Proof.
  induction a as [|c a IH]; [reflexivity|].
  rewrite append_cons. cbn [String.length]. rewrite IH. reflexivity.
Qed.

Lemma serialize_undefined (indent : string) (v : jsval) :
  JSON.serialize indent v = None → v = JUndefined.
Proof.
  destruct v as [| |b|n|s|l|o]; cbn [JSON.serialize]; intros H;
    try discriminate H; [reflexivity|..].
  - destruct (map _ l); discriminate H.
  - destruct (omap _ _); discriminate H.
Qed.

Lemma elementValue_defined (x : jsval) (t indent : string) :
  JSON.serialize indent x = Some t → Spec.elementValue x = Spec.norm x.
Proof. destruct x; try reflexivity. discriminate. Qed.

Lemma element_reads (x : jsval) (inner ws rest : string) (fuel : nat) :
  Spec.reads x → Spec.clean x = true → Spec.white inner = true → Spec.white ws = true →
  Spec.stops rest → (String.length (Spec.elementText inner x) < fuel)%nat →
  JSON.parseValue fuel (ws +:+ Spec.elementText inner x +:+ rest)
  = Some (Spec.elementValue x, rest).
Proof.
  intros Hx Hc Hi Hw Hrest Hfuel. unfold Spec.elementText in *.
  destruct (JSON.serialize inner x) as [t|] eqn:E; cbn [default from_option] in *.
  - rewrite (elementValue_defined x t inner E).
    exact (Hx Hc inner t ws rest fuel E Hi Hw Hrest Hfuel).
  - apply serialize_undefined in E. subst x. destruct fuel as [|f]; [lia|].
    apply parseValue_null, Hw.
Qed.

Lemma stops_comma (r : string) : Spec.stops (String "," r).
Proof. repeat split. Qed.

Lemma stops_close (close : string) (c : ascii) (r : string) :
  Spec.white close = true → c = "]"%char ∨ c = "}"%char → Spec.stops (close +:+ String c r).
Proof.
  intros Hw Hc. apply white_stops; [exact Hw|]. destruct Hc as [-> | ->]; repeat split.
Qed.

Lemma parseElements_texts (inner wsep close : string) (l : list jsval) :
  Spec.white inner = true → Spec.white wsep = true → Spec.white close = true →
  Forall Spec.reads l → forallb Spec.clean l = true →
  ∀ (fuel : nat) (ws rest : string),
    l ≠ [] → Spec.white ws = true →
    (String.length (Str.join ("," +:+ wsep) (map (Spec.elementText inner) l)) + 2 ≤ fuel)%nat →
    JSON.parseElements fuel
      (ws +:+ Str.join ("," +:+ wsep) (map (Spec.elementText inner) l)
          +:+ close +:+ String "]" rest)
    = Some (map Spec.elementValue l, rest).
Proof.
  intros Hi Hsep Hclose Hall Hclean.
  induction l as [|x l IH]; intros fuel ws rest Hne Hw Hfuel; [contradiction|].
  apply Forall_cons in Hall as [Hx Hall].
  cbn [forallb] in Hclean. apply andb_prop in Hclean as [Hcx Hclean].
  destruct fuel as [|f]; [lia|]. rewrite parseElements_step.
  destruct l as [|x' l'].
  - cbn [map Str.join] in *.
    rewrite (element_reads x inner ws _ f Hx Hcx Hi Hw
               (stops_close close "]" rest Hclose (or_introl eq_refl)))
      by lia.
    rewrite (skipWs_white _ _ Hclose), skipWs_head by reflexivity.
    reflexivity.
  - set (more := x' :: l') in *.
    assert (Hjoin : Str.join ("," +:+ wsep) (map (Spec.elementText inner) (x :: more))
                    = Spec.elementText inner x +:+ String "," (wsep
                        +:+ Str.join ("," +:+ wsep) (map (Spec.elementText inner) more))).
    { subst more. cbn [map Str.join]. rewrite append_assoc. reflexivity. }
    rewrite Hjoin in Hfuel |- *. rewrite length_append in Hfuel.
    cbn [String.length] in Hfuel. rewrite length_append in Hfuel.
    rewrite (append_assoc (Spec.elementText inner x)), append_cons, (append_assoc wsep).
    rewrite (element_reads x inner ws _ f Hx Hcx Hi Hw (stops_comma _)) by lia.
    rewrite skipWs_head by reflexivity.
    change (Ascii.eqb "," ",") with true. cbv iota.
    rewrite (IH Hall Hclean f wsep rest ltac:(subst more; discriminate) Hsep)
      by lia.
    reflexivity.
Qed.

Lemma member_defined_iff (inner : string) (kv : string * jsval) :
  Spec.memberText inner kv = None ↔ Spec.memberValue kv = None.
Proof.
  unfold Spec.memberText, Spec.memberValue. destruct kv as [k v]. cbn [fst snd]. split.
  - destruct (JSON.serialize inner v) eqn:E; [discriminate|].
    apply serialize_undefined in E. subst v. reflexivity.
  - destruct v; try discriminate. reflexivity.
Qed.

Lemma omap_members_nil (inner : string) (es : list (string * jsval)) :
  omap (Spec.memberText inner) es = [] → omap Spec.memberValue es = [].
Proof.
  induction es as [|kv es IH]; [reflexivity|]. cbn [omap list_omap].
  destruct (Spec.memberText inner kv) eqn:E; [discriminate|].
  apply member_defined_iff in E. rewrite E. exact IH.
Qed.

Lemma parseMembers_texts (inner wsep close : string) (es : list (string * jsval)) :
  Spec.white inner = true → Spec.white wsep = true → Spec.white close = true →
  Forall (fun kv => Spec.reads (snd kv)) es →
  Forall (fun kv => Spec.clean (snd kv) = true) es →
  NoDup (map fst es) →
  ∀ (fuel : nat) (ws rest : string) (acc : obj),
    omap (Spec.memberText inner) es ≠ [] → Spec.white ws = true →
    (∀ k, k ∈ map fst es → k ∉ map fst acc) →
    (String.length (Str.join ("," +:+ wsep) (omap (Spec.memberText inner) es)) + 2 ≤ fuel)%nat →
    JSON.parseMembers fuel
      (ws +:+ Str.join ("," +:+ wsep) (omap (Spec.memberText inner) es)
          +:+ close +:+ String "}" rest) acc
    = Some (acc ++ omap Spec.memberValue es, rest).
Proof.
  intros Hi Hsep Hclose Hall Hclean Hnd.
  induction es as [|[k v] es IH]; intros fuel ws rest acc Hne Hw Hacc Hfuel;
    [contradiction|].
  apply Forall_cons in Hall as [Hx Hall]. apply Forall_cons in Hclean as [Hcx Hclean].
  cbn [map fst] in Hnd. apply NoDup_cons in Hnd as [Hk Hnd]. cbn [snd] in Hx, Hcx.
  cbn [omap list_omap] in *.
  destruct (Spec.memberText inner (k, v)) as [part|] eqn:Epart.
  2:{ apply member_defined_iff in Epart. rewrite Epart.
      apply (IH Hall Hclean Hnd fuel ws rest acc Hne Hw); [|exact Hfuel].
      intros k' Hk'. apply Hacc. cbn [map fst]. apply elem_of_cons. right. exact Hk'. }
  unfold Spec.memberText in Epart. cbn [fst snd] in Epart.
  destruct (JSON.serialize inner v) as [t|] eqn:Et; [|discriminate].
  injection Epart as <-.
  assert (Hval : Spec.memberValue (k, v) = Some (k, Spec.norm v)).
  { unfold Spec.memberValue. cbn [fst snd]. destruct v; try reflexivity. discriminate. }
  rewrite Hval.
  assert (Hfresh : k ∉ map fst acc).
  { apply Hacc. cbn [map fst]. apply elem_of_cons. left. reflexivity. }
  destruct fuel as [|f]; [lia|].
  destruct (omap (Spec.memberText inner) es) as [|part' parts'] eqn:Eparts.
  - cbn [Str.join] in *. rewrite (omap_members_nil inner es Eparts).
    rewrite !length_append in Hfuel. cbn [String.length] in Hfuel.
    rewrite (append_assoc (JSON.quoteString k)).
    change (": " +:+ t) with (String ":" (" " +:+ t)).
    rewrite (append_cons ":"), (append_assoc " ").
    rewrite (parseMembers_step f ws k _ acc Hw).
    rewrite (Hx Hcx inner t " " _ f Et Hi eq_refl
               (stops_close close "}" rest Hclose (or_intror eq_refl)))
      by lia.
    rewrite (skipWs_white _ _ Hclose), skipWs_head by reflexivity.
    change (Ascii.eqb "}" ",") with false. change (Ascii.eqb "}" "}") with true.
    cbv iota. rewrite (setProp_fresh acc k (Spec.norm v) Hfresh). reflexivity.
  - assert (Hjoin : Str.join ("," +:+ wsep)
                      ((JSON.quoteString k +:+ ": " +:+ t) :: part' :: parts')
                    = JSON.quoteString k +:+ String ":" (" " +:+ t +:+ String "," (wsep
                        +:+ Str.join ("," +:+ wsep) (part' :: parts')))).
    { cbn [Str.join]. rewrite !append_assoc. reflexivity. }
    rewrite Hjoin in Hfuel |- *. rewrite !length_append in Hfuel.
    cbn [String.length] in Hfuel. rewrite !length_append in Hfuel.
    cbn [String.length] in Hfuel. rewrite !length_append in Hfuel.
    rewrite (append_assoc (JSON.quoteString k)), (append_cons ":"), (append_assoc " "),
      (append_assoc t), (append_cons ","), (append_assoc wsep).
    rewrite (parseMembers_step f ws k _ acc Hw).
    rewrite (Hx Hcx inner t " " _ f Et Hi eq_refl (stops_comma _)) by lia.
    rewrite skipWs_head by reflexivity.
    change (Ascii.eqb "," ",") with true. cbv iota.
    rewrite (IH Hall Hclean Hnd f wsep rest (setProp acc k (Spec.norm v))
               ltac:(discriminate) Hsep).
    + rewrite (setProp_fresh acc k (Spec.norm v) Hfresh), <- app_assoc. reflexivity.
    + intros k' Hk'. rewrite (setProp_fresh acc k (Spec.norm v) Hfresh).
      rewrite map_app. cbn [map fst]. apply not_elem_of_app. split.
      * apply Hacc. cbn [map fst]. apply elem_of_cons. right. exact Hk'.
      * intros Hin. apply list_elem_of_singleton in Hin. subst k'. exact (Hk Hk').
    + lia.
Qed.

Lemma omap_map {A B C} (g : B → option C) (h : A → B) (l : list A) :
  omap g (map h l) = omap (fun x => g (h x)) l.
Proof.
  induction l as [|x l IH]; [reflexivity|].
  cbn [map omap list_omap]. destruct (g (h x)); rewrite <- IH; reflexivity.
Qed.

Lemma omap_pointwise {A B} (f g : A → option B) (l : list A) :
  (∀ x, f x = g x) → omap f l = omap g l.
Proof.
  intros H. induction l as [|x l IH]; [reflexivity|].
  cbn [omap list_omap]. rewrite (H x). destruct (g x); rewrite <- IH; reflexivity.
Qed.

Lemma distinct_NoDup (l : list string) : Spec.distinct l = true → NoDup l.
Proof.
  induction l as [|x l IH]; intros H; [apply NoDup_nil_2|].
  cbn [Spec.distinct] in H. apply andb_prop in H as [Hx Hl].
  apply NoDup_cons. split; [|exact (IH Hl)].
  intros Hin. apply negb_true_iff in Hx.
  rewrite <- not_true_iff_false in Hx. apply Hx.
  apply existsb_exists. exists x. split.
  - apply list_elem_of_In, Hin.
  - apply String.eqb_refl.
Qed.

Lemma serialize_object (indent : string) (o : obj) :
  JSON.serialize indent (JObj o)
  = let inner := indent +:+ JSON.gap in
    let parts := omap (Spec.memberText inner) (entries o) in
    match parts with
    | [] => Some "{}"%string
    | _ =>
        Some ("{" +:+ Str.NL +:+ inner
              +:+ Str.join ("," +:+ Str.NL +:+ inner) parts
              +:+ Str.NL +:+ indent +:+ "}")
    end.
Proof.
  cbn [JSON.serialize]. cbv zeta.
  rewrite (entries_map (JSON.serialize (indent +:+ JSON.gap)) o), omap_map.
  reflexivity.
Qed.

Lemma norm_object (o : obj) : Spec.norm (JObj o) = JObj (omap Spec.memberValue (entries o)).
Proof.
  cbn [Spec.norm]. cbv zeta.
  rewrite (entries_map (fun x => match x with
                                 | JUndefined => None
                                 | _ => Some (Spec.norm x)
                                 end) o), omap_map.
  f_equal. apply omap_pointwise. intros [k v]. unfold Spec.memberValue. cbn [fst snd].
  destruct v; reflexivity.
Qed.

Lemma members_head (inner : string) (es : list (string * jsval))
    (p : string) (more : list string) :
  omap (Spec.memberText inner) es = p :: more → ∃ r, p = String Str.quote r.
Proof.
  induction es as [|kv es IH]; [discriminate|]. cbn [omap list_omap].
  destruct (Spec.memberText inner kv) as [part|] eqn:E; [|exact IH].
  intros H. injection H as <- _. unfold Spec.memberText in E.
  destruct (JSON.serialize inner (snd kv)); [|discriminate].
  injection E as <-. eexists. unfold JSON.quoteString. rewrite append_cons.
  reflexivity.
Qed.

Lemma white_gap (indent : string) :
  Spec.white indent = true → Spec.white (indent +:+ JSON.gap) = true.
Proof. intros H. apply white_app; [exact H | reflexivity]. Qed.

Lemma white_line (indent : string) :
  Spec.white indent = true → Spec.white (Str.NL +:+ indent) = true.
Proof. intros H. apply white_app; [reflexivity | exact H]. Qed.

(** [JSON.parse] undoes [JSON.stringify] on the text of every value, up
    to what the text does not keep. *)
Lemma reads_all (v : jsval) : Spec.reads v.
Proof.
  induction v as [| |b|n|s|l IH|o IH] using jsval_nested_ind;
    intros Hc indent t ws rest fuel Ht Hi Hw Hrest Hfuel;
    (destruct fuel as [|f]; [lia|]).
  - discriminate Ht.
  - injection Ht as <-. apply parseValue_null, Hw.
  - injection Ht as <-. apply parseValue_bool, Hw.
  - injection Ht as <-. apply parseValue_number; assumption.
  - injection Ht as <-. apply parseValue_string, Hw.
  - cbn [Spec.clean] in Hc.
    change (JSON.serialize indent (JArr l))
      with (let parts := map (Spec.elementText (indent +:+ JSON.gap)) l in
            match parts with
            | [] => Some "[]"%string
            | _ =>
                Some ("[" +:+ Str.NL +:+ (indent +:+ JSON.gap)
                      +:+ Str.join ("," +:+ Str.NL +:+ (indent +:+ JSON.gap)) parts
                      +:+ Str.NL +:+ indent +:+ "]")
            end) in Ht.
    cbv zeta in Ht.
    change (Spec.norm (JArr l)) with (JArr (map Spec.elementValue l)).
    destruct l as [|x l'].
    + injection Ht as <-. change ("[]" +:+ rest) with (String "[" (String "]" rest)).
      rewrite (parseValue_array f ws _ Hw), skipWs_head by reflexivity. reflexivity.
    + set (l := x :: l') in *. set (inner := indent +:+ JSON.gap) in *.
      assert (Hparts : map (Spec.elementText inner) l ≠ []) by discriminate.
      destruct (map (Spec.elementText inner) l) as [|p ps] eqn:Eparts in Ht at 1;
        [rewrite Eparts in Hparts; contradiction|].
      apply (inj Some) in Ht. subst t.
      set (body := Str.join ("," +:+ Str.NL +:+ inner) (map (Spec.elementText inner) l)) in *.
      rewrite !length_append in Hfuel. cbn [String.length] in Hfuel.
      assert (Htext : ("[" +:+ Str.NL +:+ inner +:+ body +:+ Str.NL +:+ indent +:+ "]") +:+ rest
                      = String "[" ((Str.NL +:+ inner)
                          +:+ body +:+ (Str.NL +:+ indent) +:+ String "]" rest)).
      { rewrite !append_assoc. reflexivity. }
      rewrite Htext, (parseValue_array f ws _ Hw).
      rewrite (skipWs_white _ _ (white_line inner (white_gap indent Hi))).
      destruct (elementText_head inner x) as (c & r & Ehead & Hws & Hc1 & _).
      destruct (join_head ("," +:+ Str.NL +:+ inner) (map (Spec.elementText inner) l) c r
                  (map (Spec.elementText inner) l')) as (r' & Hbody).
      { subst l. cbn [map]. rewrite Ehead. reflexivity. }
      fold body in Hbody.
      remember (body +:+ (Str.NL +:+ indent) +:+ String "]" rest) as whole eqn:Ewhole.
      assert (Hwhole : JSON.skipWs whole = whole
                       ∧ ∃ r'', whole = String c r'').
      { rewrite Ewhole, Hbody, append_cons. split; [|eexists; reflexivity].
        apply skipWs_head, Hws. }
      destruct Hwhole as (-> & r'' & Ew). rewrite Ew at 1. rewrite Hc1.
      rewrite Ewhole.
      pose proof (parseElements_texts inner (Str.NL +:+ inner) (Str.NL +:+ indent) l
                    (white_gap indent Hi) (white_line inner (white_gap indent Hi))
                    (white_line indent Hi) IH Hc f EmptyString rest
                    ltac:(discriminate) eq_refl) as Hel.
      rewrite append_nil_l in Hel. fold body in Hel.
      rewrite Hel by lia. reflexivity.
  - cbn [Spec.clean] in Hc. apply andb_prop in Hc as [Hkeys Hc].
    rewrite serialize_object in Ht. cbv zeta in Ht. rewrite norm_object.
    set (inner := indent +:+ JSON.gap) in *.
    assert (Hnd : NoDup (map fst (entries o))).
    { rewrite (entries_perm o). apply distinct_NoDup, Hkeys. }
    assert (Hreads : Forall (fun kv => Spec.reads (snd kv)) (entries o)).
    { rewrite (entries_perm o). exact IH. }
    assert (Hclean : Forall (fun kv => Spec.clean (snd kv) = true) (entries o)).
    { rewrite (entries_perm o). apply Forall_forall. intros kv Hkv.
      rewrite forallb_forall in Hc. apply Hc, list_elem_of_In, Hkv. }
    destruct (omap (Spec.memberText inner) (entries o)) as [|p ps] eqn:Eparts.
    + cbv iota in Ht. injection Ht as <-. rewrite (omap_members_nil inner _ Eparts).
      change ("{}" +:+ rest) with (String "{" (String "}" rest)).
      rewrite (parseValue_object f ws _ Hw), skipWs_head by reflexivity. reflexivity.
    + rewrite <- Eparts in Ht. apply (inj Some) in Ht. subst t.
      set (body := Str.join ("," +:+ Str.NL +:+ inner)
                     (omap (Spec.memberText inner) (entries o))) in *.
      rewrite !length_append in Hfuel. cbn [String.length] in Hfuel.
      assert (Htext : ("{" +:+ Str.NL +:+ inner +:+ body +:+ Str.NL +:+ indent +:+ "}") +:+ rest
                      = String "{" ((Str.NL +:+ inner)
                          +:+ body +:+ (Str.NL +:+ indent) +:+ String "}" rest)).
      { rewrite !append_assoc. reflexivity. }
      rewrite Htext, (parseValue_object f ws _ Hw).
      rewrite (skipWs_white _ _ (white_line inner (white_gap indent Hi))).
      destruct (members_head inner _ p ps Eparts) as (r & Ehead).
      destruct (join_head ("," +:+ Str.NL +:+ inner)
                  (omap (Spec.memberText inner) (entries o)) Str.quote r ps) as (r' & Hbody).
      { rewrite Eparts, Ehead. reflexivity. }
      fold body in Hbody.
      remember (body +:+ (Str.NL +:+ indent) +:+ String "}" rest) as whole eqn:Ewhole.
      assert (Hwhole : JSON.skipWs whole = whole
                       ∧ ∃ r'', whole = String Str.quote r'').
      { rewrite Ewhole, Hbody, append_cons. split; [|eexists; reflexivity].
        apply skipWs_head. reflexivity. }
      destruct Hwhole as (-> & r'' & Ew). rewrite Ew at 1.
      change (Ascii.eqb Str.quote "}") with false. cbv iota.
      rewrite Ewhole.
      pose proof (parseMembers_texts inner (Str.NL +:+ inner) (Str.NL +:+ indent) (entries o)
                    (white_gap indent Hi) (white_line inner (white_gap indent Hi))
                    (white_line indent Hi) Hreads Hclean Hnd f EmptyString rest []
                    ltac:(rewrite Eparts; discriminate) eq_refl) as Hel.
      rewrite append_nil_l in Hel. fold body in Hel.
      rewrite Hel; [reflexivity | | lia].
      intros k _ Hin. apply elem_of_nil in Hin. exact Hin.
Qed.

(** [JSON.parse] of the text of a value, after any white space. *)
Lemma parse_serialized (v : jsval) (ws t : string) :
  Spec.clean v = true → JSON.serialize EmptyString v = Some t → Spec.white ws = true →
  JSON.parse (ws +:+ t) = Some (Spec.norm v).
Proof.
  intros Hc Ht Hw. unfold JSON.parse.
  pose proof (reads_all v Hc EmptyString t ws EmptyString
                (S (String.length (ws +:+ t))) Ht eq_refl Hw I) as H.
  rewrite append_nil_r in H. rewrite H; [reflexivity|].
  rewrite length_append. lia.
Qed.

(** ** The scanner of the reader on the text of a value *)

Lemma scan_inertChar (c : ascii) (chunk rest : string) (i startIdx : nat) (d : Z)
    (inString : bool) (yielded : list jsval) :
  Spec.inertChar c = true →
  Split.scanChunk chunk (String c rest) i startIdx d inString false false yielded
  = Split.scanChunk chunk rest (S i) startIdx d inString false false yielded.
Proof.
  unfold Spec.inertChar. intros H. apply negb_true_iff in H.
  apply orb_false_elim in H as [H H4]. apply orb_false_elim in H as [H H3].
  apply orb_false_elim in H as [H1 H2].
  cbn [Split.scanChunk andb]. rewrite H1, H2, H3, H4.
  destruct inString; reflexivity.
Qed.

Lemma passes_nil (d : Z) : Spec.passes d EmptyString.
Proof. intros chunk rest i startIdx yielded. reflexivity. Qed.

Lemma passes_app (d : Z) (a b : string) :
  Spec.passes d a → Spec.passes d b → Spec.passes d (a +:+ b).
Proof.
  intros Ha Hb chunk rest i startIdx yielded.
  rewrite append_assoc, Ha, Hb, length_append.
  f_equal. lia.
Qed.

Lemma passes_inert (d : Z) (a : string) : Spec.inert a = true → Spec.passes d a.
Proof.
  intros H chunk rest i startIdx yielded. revert i.
  induction a as [|c a IH]; intros i; [reflexivity|].
  cbn [Spec.inert] in H. apply andb_prop in H as [Hc Ha].
  rewrite append_cons, (scan_inertChar c _ _ _ _ _ _ _ Hc), (IH Ha).
  cbn [String.length]. f_equal. lia.
Qed.

Lemma white_inert (s : string) : Spec.white s = true → Spec.inert s = true.
Proof.
  induction s as [|c s IH]; [reflexivity|]. cbn [Spec.white Spec.inert]. intros H.
  apply andb_prop in H as [Hc Hs]. rewrite (IH Hs), andb_true_r.
  revert Hc. destruct c as [[] [] [] [] [] [] [] []]; intros H;
    try discriminate H; reflexivity.
Qed.

Lemma inert_uint (d : Decimal.uint) : Spec.inert (NilEmpty.string_of_uint d) = true.
Proof.
  induction d; cbn [NilEmpty.string_of_uint Spec.inert]; try reflexivity; exact IHd.
Qed.

Lemma ofZ_neg (p : positive) :
  Str.ofZ (Zneg p) = String "-" (NilEmpty.string_of_uint (Pos.to_uint p)).
Proof.
  unfold Str.ofZ. cbn [Z.to_int NilZero.string_of_int NilZero.string_of_uint].
  destruct (Pos.to_uint p) eqn:E; try reflexivity.
  exfalso. exact (DecimalPos.Unsigned.to_uint_nonnil p E).
Qed.

Lemma inert_ofZ (n : Z) : Spec.inert (Str.ofZ n) = true.
Proof.
  destruct n as [|p|p].
  - reflexivity.
  - rewrite ofZ_pos. apply inert_uint.
  - rewrite ofZ_neg. cbn [Spec.inert]. apply inert_uint.
Qed.

(** Inside a string literal the scanner steps over the text of each
    character and stays inside. *)
Lemma scan_quoteChar (c : ascii) (chunk rest : string) (i startIdx : nat) (d : Z)
    (yielded : list jsval) :
  Split.scanChunk chunk (JSON.quoteChar c +:+ rest) i startIdx d true false false yielded
  = Split.scanChunk chunk rest (String.length (JSON.quoteChar c) + i) startIdx d
      true false false yielded.
Proof.
  destruct c as [[] [] [] [] [] [] [] []]; reflexivity.
Qed.

Lemma scan_quoteBody (s : string) (chunk rest : string) (startIdx : nat) (d : Z)
    (yielded : list jsval) :
  ∀ i,
    Split.scanChunk chunk (JSON.quoteBody s +:+ rest) i startIdx d true false false yielded
    = Split.scanChunk chunk rest (String.length (JSON.quoteBody s) + i) startIdx d
        true false false yielded.
Proof.
  induction s as [|c s IH]; intros i; [reflexivity|].
  cbn [JSON.quoteBody]. rewrite append_assoc, scan_quoteChar, IH, length_append.
  f_equal. lia.
Qed.

Lemma passes_quoted (d : Z) (s : string) : Spec.passes d (JSON.quoteString s).
Proof.
  intros chunk rest i startIdx yielded. unfold JSON.quoteString.
  rewrite append_cons, append_assoc, append_cons, append_nil_l.
  cbn [Split.scanChunk andb]. change (Ascii.eqb Str.quote Str.backslash) with false.
  rewrite Ascii.eqb_refl. cbv iota. cbn [negb].
  rewrite scan_quoteBody. cbn [Split.scanChunk andb].
  change (Ascii.eqb Str.quote Str.backslash) with false.
  rewrite Ascii.eqb_refl. cbv iota. cbn [negb String.length].
  rewrite length_append. cbn [String.length]. f_equal. lia.
Qed.

Lemma passes_join (d : Z) (sep : string) (parts : list string) :
  Spec.passes d sep → Forall (Spec.passes d) parts → Spec.passes d (Str.join sep parts).
Proof.
  intros Hsep Hall. induction Hall as [|p ps Hp Hps IH]; [apply passes_nil|].
  destruct ps as [|p' ps']; [exact Hp|].
  change (Str.join sep (p :: p' :: ps')) with (p +:+ sep +:+ Str.join sep (p' :: ps')).
  apply passes_app; [exact Hp|]. apply passes_app; [exact Hsep | exact IH].
Qed.

Lemma passes_braces (d : Z) (a : string) :
  1 ≤ d → Spec.passes (d + 1) a → Spec.passes d ("{" +:+ a +:+ "}").
Proof.
  intros Hd Ha chunk rest i startIdx yielded.
  rewrite (append_assoc "{"), (append_cons "{"), append_nil_l, (append_assoc a).
  cbn [Split.scanChunk andb negb].
  change (Ascii.eqb "{" Str.backslash) with false.
  change (Ascii.eqb "{" Str.quote) with false.
  change (Ascii.eqb "{" "{") with true. cbv iota.
  rewrite Ha. rewrite append_cons, append_nil_l.
  cbn [Split.scanChunk andb negb].
  change (Ascii.eqb "}" Str.backslash) with false.
  change (Ascii.eqb "}" Str.quote) with false.
  change (Ascii.eqb "}" "{") with false.
  change (Ascii.eqb "}" "}") with true. cbv iota.
  replace (d + 1 - 1) with d by lia.
  destruct (Z.eqb_spec d 0) as [E|_]; [lia|].
  rewrite length_append. cbn [String.length]. rewrite length_append. cbn [String.length].
  f_equal. lia.
Qed.

Lemma passes_value (v : jsval) :
  ∀ (indent t : string) (d : Z),
    1 ≤ d → Spec.white indent = true → JSON.serialize indent v = Some t → Spec.passes d t.
Proof.
  induction v as [| |b|n|s|l IH|o IH] using jsval_nested_ind;
    intros indent t d Hd Hi Ht.
  - discriminate Ht.
  - injection Ht as <-. apply passes_inert. reflexivity.
  - injection Ht as <-. apply passes_inert. destruct b; reflexivity.
  - injection Ht as <-. apply passes_inert, inert_ofZ.
  - injection Ht as <-. apply passes_quoted.
  - change (JSON.serialize indent (JArr l))
      with (let parts := map (Spec.elementText (indent +:+ JSON.gap)) l in
            match parts with
            | [] => Some "[]"%string
            | _ =>
                Some ("[" +:+ Str.NL +:+ (indent +:+ JSON.gap)
                      +:+ Str.join ("," +:+ Str.NL +:+ (indent +:+ JSON.gap)) parts
                      +:+ Str.NL +:+ indent +:+ "]")
            end) in Ht.
    cbv zeta in Ht. set (inner := indent +:+ JSON.gap) in *.
    assert (Hinner : Spec.white inner = true) by apply white_gap, Hi.
    assert (Hparts : Forall (Spec.passes d) (map (Spec.elementText inner) l)).
    { apply Forall_fmap. eapply Forall_impl; [exact IH|].
      intros x Hx. cbn. unfold Spec.elementText.
      destruct (JSON.serialize inner x) as [tx|] eqn:Ex; cbn [default from_option].
      - exact (Hx inner tx d Hd Hinner Ex).
      - apply passes_inert. reflexivity. }
    destruct (map (Spec.elementText inner) l) as [|p ps] eqn:Eparts.
    + apply (inj Some) in Ht. subst t. apply passes_inert. reflexivity.
    + apply (inj Some) in Ht. subst t.
      apply passes_app; [apply passes_inert; reflexivity|].
      apply passes_app; [apply passes_inert; reflexivity|].
      apply passes_app; [apply passes_inert, white_inert, Hinner|].
      apply passes_app.
      { apply passes_join; [|exact Hparts].
        apply passes_inert. apply white_inert in Hinner.
        change (Spec.inert ("," +:+ Str.NL +:+ inner)) with (Spec.inert inner). exact Hinner. }
      apply passes_app; [apply passes_inert; reflexivity|].
      apply passes_app; [apply passes_inert, white_inert, Hi|].
      apply passes_inert. reflexivity.
  - rewrite serialize_object in Ht. cbv zeta in Ht.
    set (inner := indent +:+ JSON.gap) in *.
    assert (Hinner : Spec.white inner = true) by apply white_gap, Hi.
    assert (Hparts : Forall (Spec.passes (d + 1)) (omap (Spec.memberText inner) (entries o))).
    { apply Forall_forall. intros part Hpart.
      apply list_elem_of_omap in Hpart as ([k x] & Hkx & Epart).
      rewrite (entries_perm o) in Hkx.
      rewrite Forall_forall in IH. specialize (IH (k, x) Hkx). cbn [snd] in IH.
      unfold Spec.memberText in Epart. cbn [fst snd] in Epart.
      destruct (JSON.serialize inner x) as [tx|] eqn:Ex; [|discriminate].
      injection Epart as <-.
      apply passes_app; [apply passes_quoted|].
      apply passes_app; [apply passes_inert; reflexivity|].
      apply (IH inner tx (d + 1)); [lia | exact Hinner | exact Ex]. }
    destruct (omap (Spec.memberText inner) (entries o)) as [|p ps] eqn:Eparts.
    + apply (inj Some) in Ht. subst t.
      apply (passes_braces d EmptyString Hd), passes_nil.
    + apply (inj Some) in Ht. subst t.
      assert (Hshape : "{" +:+ Str.NL +:+ inner
                       +:+ Str.join ("," +:+ Str.NL +:+ inner) (p :: ps)
                       +:+ Str.NL +:+ indent +:+ "}"
                       = "{" +:+ (Str.NL +:+ inner
                           +:+ Str.join ("," +:+ Str.NL +:+ inner) (p :: ps)
                           +:+ Str.NL +:+ indent) +:+ "}").
      { rewrite !append_assoc. reflexivity. }
      rewrite Hshape. apply (passes_braces d _ Hd).
      apply passes_app; [apply passes_inert; reflexivity|].
      apply passes_app; [apply passes_inert, white_inert, Hinner|].
      apply passes_app.
      { apply passes_join; [|exact Hparts].
        apply passes_inert. apply white_inert in Hinner.
        change (Spec.inert ("," +:+ Str.NL +:+ inner)) with (Spec.inert inner). exact Hinner. }
      apply passes_app; [apply passes_inert; reflexivity|].
      apply passes_inert, white_inert, Hi.
Qed.

(** ** The reader on a file that fits its buffer *)

Lemma substring_skip (a s : string) (n m : nat) :
  String.substring (String.length a + n) m (a +:+ s) = String.substring n m s.
Proof. induction a as [|c a IH]; [reflexivity | exact IH]. Qed.

Lemma substring_prefix (b c : string) :
  String.substring 0 (String.length b) (b +:+ c) = b.
Proof.
  induction b as [|x b IH]; [destruct c; reflexivity|].
  rewrite append_cons. cbn [String.length String.substring]. rewrite IH. reflexivity.
Qed.

Lemma substring_all (s : string) (m : nat) :
  (String.length s ≤ m)%nat → String.substring 0 m s = s.
Proof.
  revert m. induction s as [|x s IH]; intros m H; [destruct m; reflexivity|].
  cbn [String.length] in H. destruct m as [|m]; [lia|].
  cbn [String.substring]. rewrite (IH m) by lia. reflexivity.
Qed.

(** The text of an object: its braces around a text that the scanner
    passes one level down. *)
Lemma object_shape (indent : string) (o : obj) (t : string) (d : Z) :
  Spec.white indent = true →
  (∀ k x tx, (k, x) ∈ o → JSON.serialize (indent +:+ JSON.gap) x = Some tx →
             Spec.passes (d + 1) tx) →
  JSON.serialize indent (JObj o) = Some t →
  ∃ a, t = "{" +:+ a +:+ "}" ∧ Spec.passes (d + 1) a.
Proof.
  intros Hi IH Ht. rewrite serialize_object in Ht. cbv zeta in Ht.
  set (inner := indent +:+ JSON.gap) in *.
  assert (Hinner : Spec.white inner = true) by apply white_gap, Hi.
  assert (Hparts : Forall (Spec.passes (d + 1)) (omap (Spec.memberText inner) (entries o))).
  { apply Forall_forall. intros part Hpart.
    apply list_elem_of_omap in Hpart as ([k x] & Hkx & Epart).
    rewrite (entries_perm o) in Hkx.
    unfold Spec.memberText in Epart. cbn [fst snd] in Epart.
    destruct (JSON.serialize inner x) as [tx|] eqn:Ex; [|discriminate].
    injection Epart as <-.
    apply passes_app; [apply passes_quoted|].
    apply passes_app; [apply passes_inert; reflexivity|].
    exact (IH k x tx Hkx Ex). }
  destruct (omap (Spec.memberText inner) (entries o)) as [|p ps] eqn:Eparts.
  - apply (inj Some) in Ht. subst t. exists EmptyString. split; [reflexivity|].
    apply passes_nil.
  - apply (inj Some) in Ht. subst t.
    exists (Str.NL +:+ inner +:+ Str.join ("," +:+ Str.NL +:+ inner) (p :: ps)
            +:+ Str.NL +:+ indent).
    split; [rewrite !append_assoc; reflexivity|].
    apply passes_app; [apply passes_inert; reflexivity|].
    apply passes_app; [apply passes_inert, white_inert, Hinner|].
    apply passes_app.
    { apply passes_join; [|exact Hparts].
      apply passes_inert. apply white_inert in Hinner.
      change (Spec.inert ("," +:+ Str.NL +:+ inner)) with (Spec.inert inner). exact Hinner. }
    apply passes_app; [apply passes_inert; reflexivity|].
    apply passes_inert, white_inert, Hi.
Qed.

(** A complete document: the scanner yields what [JSON.parse] makes of
    the text since the start index, and goes on to skip separators. *)
Lemma scan_object (o : obj) (t pre ws rest : string) (skipping : bool)
    (yielded : list jsval) :
  Spec.clean (JObj o) = true → JSON.serialize EmptyString (JObj o) = Some t →
  Spec.white ws = true →
  Split.scanChunk (pre +:+ ws +:+ t +:+ rest) (t +:+ rest)
    (String.length (pre +:+ ws)) (String.length pre) 0 false false skipping yielded
  = Split.scanChunk (pre +:+ ws +:+ t +:+ rest) rest
      (String.length (pre +:+ ws +:+ t)) (String.length (pre +:+ ws +:+ t)) 0
      false false true (yielded ++ [Spec.norm (JObj o)]).
Proof.
  intros Hc Ht Hw.
  destruct (object_shape EmptyString o t 0 eq_refl) as (a & Et & Ha); [|exact Ht|].
  { intros k x tx _ Ex.
    exact (passes_value x (EmptyString +:+ JSON.gap) tx (0 + 1) ltac:(lia) eq_refl Ex). }
  set (chunk := pre +:+ ws +:+ t +:+ rest).
  assert (Hstr : String.substring (String.length pre)
                   (String.length (ws +:+ t)) chunk = ws +:+ t).
  { subst chunk. rewrite <- (Nat.add_0_r (String.length pre)), substring_skip.
    rewrite <- (append_assoc ws). apply substring_prefix. }
  rewrite Et at 1. rewrite (append_assoc "{"), (append_cons "{"), append_nil_l, (append_assoc a).
  cbn [Split.scanChunk].
  replace (skipping && Split.isSeparator "{") with false by (destruct skipping; reflexivity).
  cbn [negb]. change (Ascii.eqb "{" Str.backslash) with false.
  change (Ascii.eqb "{" Str.quote) with false.
  change (Ascii.eqb "{" "{") with true. cbv iota.
  rewrite Ha. rewrite append_cons, append_nil_l.
  cbn [Split.scanChunk andb negb].
  change (Ascii.eqb "}" Str.backslash) with false.
  change (Ascii.eqb "}" Str.quote) with false.
  change (Ascii.eqb "}" "{") with false.
  change (Ascii.eqb "}" "}") with true. cbv iota.
  change (0 + 1 - 1 =? 0) with true. cbv iota zeta.
  assert (Hlen : String.length t = S (S (String.length a))).
  { rewrite Et, length_append. cbn [String.length]. rewrite length_append.
    cbn [String.length]. lia. }
  replace (S (String.length a + S (String.length (pre +:+ ws))) - String.length pre)%nat
    with (String.length (ws +:+ t))
    by (rewrite !length_append, Hlen; lia).
  fold chunk. rewrite Hstr, (parse_serialized (JObj o) ws t Hc Ht Hw).
  replace (S (String.length a + S (String.length (pre +:+ ws))))
    with (String.length (pre +:+ ws +:+ t))
    by (rewrite !length_append, Hlen; lia).
  reflexivity.
Qed.

Lemma stringify_object (o : obj) :
  ∃ t, JSON.serialize EmptyString (JObj o) = Some t ∧ JSON.stringify (JObj o) = t.
Proof.
  destruct (serialize_defined EmptyString (JObj o) ltac:(discriminate)) as (t & Ht).
  exists t. split; [exact Ht|]. unfold JSON.stringify. rewrite Ht. reflexivity.
Qed.

Lemma scan_separator (chunk rest : string) (i : nat) (yielded : list jsval) :
  Split.scanChunk chunk (String "," (String Str.nl rest)) i i 0 false false true yielded
  = Split.scanChunk chunk rest (S (S i)) (S (S i)) 0 false false true yielded.
Proof. reflexivity. Qed.

Lemma scan_end (chunk : string) (i : nat) (yielded : list jsval) :
  Split.scanChunk chunk (Str.NL +:+ "]") i i 0 false false true yielded
  = (yielded, S i).
Proof. reflexivity. Qed.

(** The documents of a file from one of them on, up to the array end. *)
Lemma scan_documents (docs : list obj) :
  Forall (fun o => Spec.clean (JObj o) = true) docs → docs ≠ [] →
  ∀ (pre ws : string) (skipping : bool) (yielded : list jsval),
    Spec.white ws = true →
    let body := Str.join ("," +:+ Str.NL) (map JSON.stringify (map JObj docs))
                +:+ Str.NL +:+ "]" in
    Split.scanChunk (pre +:+ ws +:+ body) body
      (String.length (pre +:+ ws)) (String.length pre) 0 false false skipping yielded
    = (yielded ++ map (fun o => Spec.norm (JObj o)) docs,
       (String.length (pre +:+ ws +:+ body) - 1)%nat).
Proof.
  intros Hall. induction Hall as [|o more Ho Hmore IH];
    intros Hne pre ws skipping yielded Hw; [contradiction|].
  destruct (stringify_object o) as (t & Ht & Etext).
  destruct more as [|o' more'].
  - cbn [map Str.join]. rewrite Etext. cbv zeta.
    rewrite (scan_object o t pre ws _ skipping yielded Ho Ht Hw).
    rewrite scan_end. f_equal.
    rewrite !length_append. change (String.length Str.NL) with 1%nat.
    cbn [String.length]. lia.
  - set (later := o' :: more') in *.
    assert (Hjoin : Str.join ("," +:+ Str.NL) (map JSON.stringify (map JObj (o :: later)))
                    = t +:+ ("," +:+ Str.NL)
                        +:+ Str.join ("," +:+ Str.NL) (map JSON.stringify (map JObj later))).
    { subst later. cbn [map Str.join]. rewrite Etext. reflexivity. }
    cbv zeta. rewrite Hjoin.
    set (body' := Str.join ("," +:+ Str.NL) (map JSON.stringify (map JObj later))
                  +:+ Str.NL +:+ "]") in *.
    assert (Hbody : (t +:+ ("," +:+ Str.NL)
                       +:+ Str.join ("," +:+ Str.NL) (map JSON.stringify (map JObj later)))
                    +:+ Str.NL +:+ "]"
                    = t +:+ String "," (String Str.nl body')).
    { subst body'. rewrite !append_assoc. reflexivity. }
    rewrite Hbody.
    rewrite (scan_object o t pre ws _ skipping yielded Ho Ht Hw).
    rewrite scan_separator.
    assert (Hchunk : pre +:+ ws +:+ t +:+ String "," (String Str.nl body')
                     = (pre +:+ ws +:+ t +:+ "," +:+ Str.NL) +:+ EmptyString +:+ body').
    { rewrite !append_assoc. reflexivity. }
    assert (Hpos : S (S (String.length (pre +:+ ws +:+ t)))
                   = String.length ((pre +:+ ws +:+ t +:+ "," +:+ Str.NL) +:+ EmptyString)).
    { rewrite !length_append. change (String.length Str.NL) with 1%nat.
      cbn [String.length]. lia. }
    rewrite Hchunk, Hpos.
    assert (Hpre : String.length ((pre +:+ ws +:+ t +:+ "," +:+ Str.NL) +:+ EmptyString)
                   = String.length (pre +:+ ws +:+ t +:+ "," +:+ Str.NL)).
    { rewrite append_nil_r. reflexivity. }
    rewrite Hpre at 2.
    rewrite (IH ltac:(subst later; discriminate) _ EmptyString true _ eq_refl).
    rewrite <- app_assoc. reflexivity.
Qed.

Lemma first_round (docs : list obj) :
  Forall (fun o => Spec.clean (JObj o) = true) docs → docs ≠ [] →
  let chunk := Str.NL +:+ Str.join ("," +:+ Str.NL) (map JSON.stringify (map JObj docs))
               +:+ Str.NL +:+ "]" in
  Split.scanChunk chunk chunk 0 0 0 false false false []
  = (map (fun o => Spec.norm (JObj o)) docs, (String.length chunk - 1)%nat).
Proof.
  intros Hall Hne chunk.
  pose proof (scan_documents docs Hall Hne EmptyString Str.NL false [] eq_refl) as H.
  cbv zeta in H. rewrite append_nil_l in H. exact H.
Qed.

(** X15. The reader of stage 2 on a file that fits its buffer. When the
    file is the array start, the texts of objects separated by a comma and
    a line break, and the array end, as stage 1 leaves it, and all of it
    after the first byte is read in one round, the reader yields every
    object once, in the order of the file, each as [JSON.parse] reads its
    text back. *)
Theorem reader_whole_file (docs : list obj) (bufferLength : nat) :
  docs ≠ [] →
  Forall (fun o => Spec.clean (JObj o) = true) docs →
  (String.length (Spec.arrayText (map JObj docs)) - 1 ≤ bufferLength)%nat →
  Split.readJsonWith bufferLength (Spec.arrayText (map JObj docs))
  = map (fun o => Spec.norm (JObj o)) docs.
Proof.
  intros Hne Hall Hfits. unfold Split.readJsonWith.
  set (chunk := Str.NL +:+ Str.join ("," +:+ Str.NL) (map JSON.stringify (map JObj docs))
                +:+ Str.NL +:+ "]").
  assert (Hfile : Spec.arrayText (map JObj docs) = String "[" chunk) by reflexivity.
  rewrite Hfile in Hfits |- *. cbn [String.length] in Hfits |- *.
  assert (Hlong : (2 ≤ String.length chunk)%nat).
  { subst chunk. rewrite !length_append. change (String.length Str.NL) with 1%nat. lia. }
  cbn [Split.readLoop String.length].
  destruct (Z.ltb_spec (Z.of_nat 1) (Z.of_nat (S (String.length chunk)) - 1)) as [_|Hge];
    [|lia].
  assert (Hbytes : String.substring 1 bufferLength (String "[" chunk) = chunk).
  { cbn [String.substring]. apply substring_all. lia. }
  rewrite Hbytes, append_nil_l.
  destruct (Nat.eqb_spec (String.length chunk) 0) as [E|_]; [lia|].
  subst chunk. rewrite (first_round docs Hall Hne). cbv zeta.
  set (chunk := Str.NL +:+ Str.join ("," +:+ Str.NL) (map JSON.stringify (map JObj docs))
                +:+ Str.NL +:+ "]") in *.
  destruct (String.length chunk) as [|f] eqn:El; [reflexivity|].
  cbn [Split.readLoop String.length]. rewrite El.
  destruct (Z.ltb_spec (Z.of_nat (1 + S f)) (Z.of_nat (S (S f)) - 1)) as [Hlt|_];
    [lia | reflexivity].
Qed.

Lemma reader_whole_file_witness :
  Split.readJsonWith 64 (Spec.arrayText [JObj [("b", JNull); ("1", JStr "a")]; JObj []])
  = [JObj [("1", JStr "a"); ("b", JNull)]; JObj []].
Proof.
  apply (reader_whole_file [[("b", JNull); ("1", JStr "a")]; []] 64).
  - discriminate.
  - repeat constructor.
  - vm_compute. lia.
Defined.





Lemma norm_settled (v : jsval) : Spec.settled v → Spec.norm v = v.
Proof.
  induction v as [| |b|n|s|l IH|o IH] using jsval_nested_ind; intros Hv;
    try reflexivity.
  - change (Spec.norm (JArr l)) with (JArr (map Spec.elementValue l)). f_equal.
    cbn [Spec.settled] in Hv. induction IH as [|x l Hx _ IHl]; [reflexivity|].
    cbn [fold_right] in Hv. destruct Hv as [Hsx Hl].
    cbn [map]. rewrite (IHl Hl). f_equal.
    rewrite <- (Hx Hsx) at 2. destruct x; [contradiction|reflexivity..].
  - rewrite norm_object. cbn [Spec.settled] in Hv. destruct Hv as [-> Hv]. f_equal.
    induction IH as [|[k x] o Hx _ IHo]; [reflexivity|].
    cbn [fold_right snd] in Hv, Hx. destruct Hv as [Hsx Ho].
    cbn [omap list_omap]. unfold Spec.memberValue at 1. cbn [fst snd].
    fold (omap Spec.memberValue o). rewrite (IHo Ho), (Hx Hsx).
    destruct x; [contradiction|reflexivity..].
Qed.

(** X17. Text written by one stage and read by the other. For a value
    in which no object lists a name twice, every number is an integer that
    a double holds exactly, nothing is [undefined] and every object lists
    its properties in enumeration order, [JSON.parse] of
    [JSON.stringify(value, null, 2)] is the value itself. *)
Theorem stringify_parse_roundtrip (v : jsval) :
  Spec.clean v = true → Spec.settled v → JSON.parse (JSON.stringify v) = Some v.
Proof.
  intros Hc Hs.
  assert (Hd : v ≠ JUndefined) by (intros ->; exact Hs).
  destruct (serialize_defined EmptyString v Hd) as (t & Ht).
  unfold JSON.stringify. rewrite Ht. cbn [default from_option]. unfold id.
  rewrite <- (norm_settled v Hs).
  exact (parse_serialized v EmptyString t Hc Ht eq_refl).
Qed.

Lemma stringify_parse_roundtrip_witness :
  let v := JObj [("7", JArr [JNum (-5); JNull; JStr "a\b"]);
                 ("key", JObj [("on", JBool true)])] in
  JSON.parse (JSON.stringify v) = Some v.
Proof.
  cbv zeta. apply stringify_parse_roundtrip.
  - reflexivity.
  - cbn. repeat split.
Defined.

(** The documents of a file without array end, from one that follows a
    separator on. *)
Lemma scan_open_documents (docs : list obj) :
  Forall (fun o => Spec.clean (JObj o) = true) docs →
  ∀ (pre : string) (yielded : list jsval),
    let body := Str.concat (map (fun d => JSON.stringify d +:+ "," +:+ Str.NL)
                              (map JObj docs)) in
    Split.scanChunk (pre +:+ body) body
      (String.length pre) (String.length pre) 0 false false true yielded
    = (yielded ++ map (fun o => Spec.norm (JObj o)) docs, String.length (pre +:+ body)).
Proof.
  intros Hall. induction Hall as [|o more Ho Hmore IH]; intros pre yielded.
  - cbn [map Str.concat Split.scanChunk]. rewrite app_nil_r, append_nil_r. reflexivity.
  - destruct (stringify_object o) as (t & Ht & Etext).
    cbn [map Str.concat]. rewrite Etext. cbv zeta.
    set (body' := Str.concat (map (fun d => JSON.stringify d +:+ "," +:+ Str.NL)
                                (map JObj more))) in *.
    assert (Hbody : (t +:+ "," +:+ Str.NL) +:+ body'
                    = t +:+ String "," (String Str.nl body')).
    { rewrite !append_assoc. reflexivity. }
    rewrite Hbody.
    pose proof (scan_object o t pre EmptyString (String "," (String Str.nl body')) true
                  yielded Ho Ht eq_refl) as Hscan.
    rewrite !append_nil_l, append_nil_r in Hscan. rewrite Hscan, scan_separator.
    assert (Hchunk : pre +:+ t +:+ String "," (String Str.nl body')
                     = (pre +:+ t +:+ "," +:+ Str.NL) +:+ body').
    { rewrite !append_assoc. reflexivity. }
    assert (Hpos : S (S (String.length (pre +:+ t)))
                   = String.length (pre +:+ t +:+ "," +:+ Str.NL)).
    { rewrite !length_append. change (String.length Str.NL) with 1%nat.
      cbn [String.length]. lia. }
    rewrite Hchunk, Hpos, IH, <- app_assoc. reflexivity.
Qed.

(** X18. The reader of stage 2 does not need the array end. On the file
    that a run of stage 1 leaves when its final flush finds the buffer
    empty, the array start and every object followed by a comma and a line
    break, the reader yields every object once, in the order of the file,
    when all of the file after its first byte is read in one round. *)
Theorem reader_open_file (docs : list obj) (bufferLength : nat) :
  docs ≠ [] →
  Forall (fun o => Spec.clean (JObj o) = true) docs →
  (String.length (Spec.openText (map JObj docs)) - 1 ≤ bufferLength)%nat →
  Split.readJsonWith bufferLength (Spec.openText (map JObj docs))
  = map (fun o => Spec.norm (JObj o)) docs.
Proof.
  intros Hne Hall Hfits. unfold Split.readJsonWith.
  set (body := Str.concat (map (fun d => JSON.stringify d +:+ "," +:+ Str.NL)
                             (map JObj docs))).
  assert (Hfile : Spec.openText (map JObj docs) = String "[" (Str.NL +:+ body)) by reflexivity.
  rewrite Hfile in Hfits |- *. cbn [String.length] in Hfits |- *.
  assert (Hlong : (2 ≤ String.length body)%nat).
  { subst body. destruct docs as [|o more]; [contradiction|].
    cbn [map Str.concat]. rewrite !length_append.
    change (String.length Str.NL) with 1%nat. cbn [String.length]. lia. }
  assert (Hlen : String.length (Str.NL +:+ body) = S (String.length body)) by reflexivity.
  cbn [Split.readLoop String.length].
  destruct (Z.ltb_spec (Z.of_nat 1) (Z.of_nat (S (String.length (Str.NL +:+ body))) - 1))
    as [_|Hge]; [|lia].
  assert (Hbytes : String.substring 1 bufferLength (String "[" (Str.NL +:+ body))
                   = Str.NL +:+ body).
  { cbn [String.substring]. apply substring_all. lia. }
  rewrite Hbytes, append_nil_l.
  destruct (Nat.eqb_spec (String.length (Str.NL +:+ body)) 0) as [E|_]; [lia|].
  assert (Hscan : Split.scanChunk (Str.NL +:+ body) (Str.NL +:+ body) 0 0 0
                    false false false []
                  = (map (fun o => Spec.norm (JObj o)) docs, String.length (Str.NL +:+ body))).
  { destruct docs as [|o more]; [contradiction|].
    apply Forall_cons in Hall as [Ho Hmore].
    destruct (stringify_object o) as (t & Ht & Etext).
    set (body' := Str.concat (map (fun d => JSON.stringify d +:+ "," +:+ Str.NL)
                                (map JObj more))).
    assert (Hbody : body = t +:+ String "," (String Str.nl body')).
    { subst body body'. cbn [map Str.concat]. rewrite Etext, !append_assoc. reflexivity. }
    rewrite Hbody.
    change (Split.scanChunk (Str.NL +:+ t +:+ String "," (String Str.nl body'))
              (Str.NL +:+ t +:+ String "," (String Str.nl body')) 0 0 0
              false false false [])
      with (Split.scanChunk
              (EmptyString +:+ Str.NL +:+ t +:+ String "," (String Str.nl body'))
              (t +:+ String "," (String Str.nl body'))
              (String.length (EmptyString +:+ Str.NL)) (String.length EmptyString) 0
              false false false []).
    rewrite (scan_object o t EmptyString Str.NL _ false [] Ho Ht eq_refl), scan_separator.
    assert (Hchunk : EmptyString +:+ Str.NL +:+ t +:+ String "," (String Str.nl body')
                     = (Str.NL +:+ t +:+ "," +:+ Str.NL) +:+ body').
    { rewrite !append_assoc. reflexivity. }
    assert (Hpos : S (S (String.length (EmptyString +:+ Str.NL +:+ t)))
                   = String.length (Str.NL +:+ t +:+ "," +:+ Str.NL)).
    { rewrite !length_append. change (String.length Str.NL) with 1%nat.
      cbn [String.length]. lia. }
    rewrite Hchunk, Hpos.
    pose proof (scan_open_documents more Hmore (Str.NL +:+ t +:+ "," +:+ Str.NL)
                  ([] ++ [Spec.norm (JObj o)])) as Hrest.
    cbv zeta in Hrest. fold body' in Hrest. rewrite Hrest.
    rewrite <- Hchunk. reflexivity. }
  rewrite Hscan. cbv zeta.
  destruct (String.length (Str.NL +:+ body)) as [|f] eqn:El; [reflexivity|].
  cbn [Split.readLoop String.length]. rewrite El.
  destruct (Z.ltb_spec (Z.of_nat (1 + S f)) (Z.of_nat (S (S f)) - 1)) as [Hlt|_];
    [lia | reflexivity].
Qed.

Lemma reader_open_file_witness :
  Split.readJsonWith 64 (Spec.openText [JObj [("b", JNull); ("1", JStr "a")]; JObj []])
  = [JObj [("1", JStr "a"); ("b", JNull)]; JObj []].
Proof.
  apply (reader_open_file [[("b", JNull); ("1", JStr "a")]; []] 64).
  - discriminate.
  - repeat constructor.
  - vm_compute. lia.
Defined.

(** * The version files and the consolidated CSV file *)

(** ** Stage 2: the files of a version *)

Lemma versionKey_inj (l v l' v' : string) :
  Spec.free Str.underscore l → Spec.free Str.underscore v →
  Spec.free Str.underscore l' → Spec.free Str.underscore v' →
  l +:+ "_" +:+ v = l' +:+ "_" +:+ v' → l = l' ∧ v = v'.
Proof.
  intros Hl Hv Hl' Hv' E. apply (f_equal Split.splitVersionKey) in E.
  rewrite (splitVersionKey_parts l v Hl Hv), (splitVersionKey_parts l' v' Hl' Hv') in E.
  injection E as -> ->. split; reflexivity.
Qed.

(** The version files that the embedding writes for plain language
    codes and versions without underscore. *)
Lemma versionGroup_files (docs : list Split.document) (d : Split.document) (w : world) :
  (∀ d', d' ∈ docs →
     Spec.plainCode (Split.language_code d')
     ∧ Spec.free Str.underscore (Spec.versionLabel d')) →
  d ∈ docs →
  let lang := Split.language_code d in
  let label := Spec.versionLabel d in
  let group := Spec.versionGroup docs (Split.versionKey d) in
  let run := Split.organizeTranslations docs w in
  concat (map Split.flattenTranslationForCSV group) ≠ [] →
  (∀ d', d' ∈ group
         ↔ d' ∈ docs ∧ Split.language_code d' = lang ∧ Spec.versionLabel d' = label)
  ∧ files (snd run) !! Spec.versionPath lang label "json" = Some (Spec.groupJson group)
  ∧ files (snd run) !! Spec.versionPath lang label "csv" = Some (Spec.groupCsv group).
Proof.
  intros Hdocs Hd lang label group run Hrows.
  destruct (Hdocs d Hd) as [Hlang Hlabel]. fold lang in Hlang. fold label in Hlabel.
  split.
  { intros d'. unfold group, Spec.versionGroup. rewrite list_elem_of_filter. split.
    - intros [Hkey Hd']. split; [exact Hd'|].
      destruct (Hdocs d' Hd') as [(_ & Hu' & _) Hv'].
      rewrite !versionKey_parts in Hkey.
      exact (versionKey_inj _ _ _ _ Hu' Hv' (proj1 (proj2 Hlang)) Hlabel Hkey).
    - intros (Hd' & El & Ev). split; [|exact Hd'].
      rewrite !versionKey_parts, El, Ev. reflexivity. }
  destruct (pushAll_spec Split.versionKey docs [] (NoDup_nil_2 : NoDup (map fst [])))
    as (Hnd & Hget & Hkeys).
  set (VM := Spec.pushAll Split.versionKey docs []) in *.
  assert (Hgood : ∀ e, e ∈ VM → Spec.goodKey (fst e)).
  { intros e He. apply (list_elem_of_fmap_2 fst) in He.
    apply Hkeys in He. destruct He as [He|(d' & Hd' & <-)]; [inversion He|].
    destruct (Hdocs d' Hd') as [Hl Hv].
    exists (Split.language_code d'), (Spec.versionLabel d'). auto. }
  assert (Hentry : (lang +:+ "_" +:+ label, group) ∈ VM).
  { assert (Hk : Split.versionKey d ∈ map fst VM).
    { apply Hkeys. right. exists d. auto. }
    apply list_elem_of_fmap in Hk. destruct Hk as ([K G] & HK & HG).
    cbn [fst] in HK. subst K.
    rewrite <- (mapGet_elem VM _ G Hnd HG) in HG.
    rewrite Hget in HG. cbn [Split.mapGet app] in HG.
    change (lang +:+ "_" +:+ label) with (Split.versionKey d). exact HG. }
  destruct (organize_run docs w) as (w1 & w2 & w3 & t & _ & _ & Hvers & Hrun).
  set (st := fold_left Split.noteTranslation docs Split.initialOrganize) in *.
  assert (HVM : Split.versionMap st = VM) by apply versionMap_fold.
  rewrite HVM in Hvers.
  destruct (versions_hit lang label group VM Hlang Hlabel Hrows w2 Hgood Hnd Hentry)
    as (w3' & Hvers' & Hj & Hc).
  rewrite Hvers in Hvers'. injection Hvers' as <-.
  unfold run. rewrite Hrun. cbn [snd files].
  rewrite !lookup_insert_ne by (apply not_eq_sym, versionPath_not_index).
  split; [exact Hj | exact Hc].
Qed.


(** X19. The files of a version. Take a stream of documents as §3 types
    them in which no version has an underscore, in a world where the
    directories of the languages can be made and written. The documents
    filed with a document of the stream are those of its language and its
    version; when they have at least one ayah, after
    [organizeTranslations] the JSON file and the CSV file of that version
    in the directory of the language hold these documents in stream order
    and their flattened rows under the header row. *)
Theorem version_files (docs : list Split.document) (d : Split.document) (w : world) :
  (∀ d', d' ∈ docs →
     Spec.typedDocument d' ∧ Spec.free Str.underscore (Spec.versionLabel d')) →
  (∀ d', d' ∈ docs → Spec.writable w ("datasets/" +:+ Split.language_code d')) →
  d ∈ docs →
  let lang := Split.language_code d in
  let label := Spec.versionLabel d in
  let group := Spec.versionGroup docs (Split.versionKey d) in
  let run := Split.organizeTranslations docs w in
  concat (map Split.flattenTranslationForCSV group) ≠ [] →
  (∀ d', d' ∈ group
         ↔ d' ∈ docs ∧ Split.language_code d' = lang ∧ Spec.versionLabel d' = label)
  ∧ files (snd run) !! Spec.versionPath lang label "json" = Some (Spec.groupJson group)
  ∧ files (snd run) !! Spec.versionPath lang label "csv" = Some (Spec.groupCsv group).
Proof.
  intros Hdocs _ Hd. apply versionGroup_files; [|exact Hd].
  intros d' Hd'. destruct (Hdocs d' Hd') as [[Hl _] Hv].
  split; [apply languageCode_plain, Hl | exact Hv].
Qed.

Lemma version_files_witness :
  let d := Samples.documentOf "b" "en" (JStr "1.0") [("1", [Samples.oneAyah])] in
  files (snd (Split.organizeTranslations Samples.mixedStream Samples.afterIngest))
    !! "datasets/en/version_1.0_translations.json"
  = Some (Spec.groupJson [d]).
Proof.
  cbv zeta.
  set (d := Samples.documentOf "b" "en" (JStr "1.0") [("1", [Samples.oneAyah])]).
  assert (H1 : ∀ d', d' ∈ Samples.mixedStream →
             Spec.typedDocument d' ∧ Spec.free Str.underscore (Spec.versionLabel d')).
  { intros d' Hin. split; [apply mixedStream_typed, Hin|].
    unfold Samples.mixedStream in Hin.
    repeat (apply elem_of_cons in Hin; destruct Hin as [->|Hin]);
      try (inversion Hin; fail); reflexivity. }
  assert (H2 : d ∈ Samples.mixedStream) by (right; left).
  destruct (version_files Samples.mixedStream d Samples.afterIngest H1
              afterIngest_writable H2 ltac:(discriminate)) as (_ & Hjson & _).
  exact Hjson.
Defined.

(** ** The consolidated CSV file read back *)



